(** * 2fa: keychain storage and one-time-password generation

    A shallow embedding of [main.go] (the keychain engine of the [2fa]
    command) together with the properties of its specification.

    Go values are represented as follows.
    - [string] and [[]byte] are byte sequences: [list ascii].
    - [int], [uint32], [uint64] are [Z]; wrap-around is written out where
      the program can reach it.
    - [map[string]Key] is a [gmap]; the order in which [range] enumerates
      a map is not fixed by Go and is a parameter of the run.
    - The keychain file, standard output and the log are fields of an
      explicit [World]; I/O failures and the clock come from an oracle.
    - [log.Fatalf], [os.Exit] and run-time panics are outcomes. *)

From Stdlib Require Import ZArith Ascii String List Lia Bool Permutation.
From stdpp Require Import base tactics option list gmap strings sorting.

Local Open Scope Z_scope.

(** ** Byte strings *)

Abbreviation gostring := (list ascii) (only parsing).

(** A Go string literal. *)
Definition lit (s : string) : gostring := list_ascii_of_string s.

Definition byte_val (a : ascii) : Z := Z.of_N (N_of_ascii a).
Definition byte_of (z : Z) : ascii := ascii_of_N (Z.to_N (z mod 256)).

(** [len(s)] as a Go [int]. *)
Definition len {A} (s : list A) : Z := Z.of_nat (length s).

(** ** crypto/sha1 and crypto/hmac

    The program imports these from the Go standard library.  They are
    modelled after FIPS 180-4 and RFC 2104, on bytes given as integers. *)
Module sha1.

Definition u32 (x : Z) : Z := x mod 2 ^ 32.

Definition rotl (n x : Z) : Z :=
  u32 (Z.lor (Z.shiftl x n) (Z.shiftr x (32 - n))).

Definition bnot (x : Z) : Z := Z.lxor x 0xFFFFFFFF.

(** Big-endian encoding of [x] on [n] bytes. *)
Fixpoint be_bytes (n : nat) (x : Z) : list Z :=
  match n with
  | O => []
  | S n' => Z.shiftr x (8 * Z.of_nat n') mod 256 :: be_bytes n' x
  end.

(** Big-endian value of a byte list. *)
Definition be_val (bs : list Z) : Z :=
  fold_left (fun acc b => acc * 256 + b) bs 0.

(** Message padding: a one bit, zeros up to 56 mod 64, the bit length. *)
Definition pad (msg : list Z) : list Z :=
  let l := Z.of_nat (length msg) in
  let k := Z.to_nat ((55 - l) mod 64) in
  msg ++ 0x80 :: repeat 0 k ++ be_bytes 8 (8 * l).

Fixpoint chunks {A} (fuel n : nat) (l : list A) : list (list A) :=
  match fuel with
  | O => []
  | S fuel' =>
      match l with
      | [] => []
      | _ => take n l :: chunks fuel' n (drop n l)
      end
  end.

Definition words (block : list Z) : list Z :=
  map be_val (chunks 16 4 block).

(** Message schedule; [w] holds the words computed so far, latest first. *)
Fixpoint schedule (n : nat) (w : list Z) : list Z :=
  match n with
  | O => w
  | S n' =>
      let x := Z.lxor (Z.lxor (nth 2 w 0) (nth 7 w 0))
                      (Z.lxor (nth 13 w 0) (nth 15 w 0)) in
      schedule n' (rotl 1 x :: w)
  end.

Definition f (t : nat) (b c d : Z) : Z :=
  if (t <? 20)%nat then Z.lor (Z.land b c) (Z.land (bnot b) d)
  else if (t <? 40)%nat then Z.lxor (Z.lxor b c) d
  else if (t <? 60)%nat then
    Z.lor (Z.lor (Z.land b c) (Z.land b d)) (Z.land c d)
  else Z.lxor (Z.lxor b c) d.

Definition k (t : nat) : Z :=
  if (t <? 20)%nat then 0x5A827999
  else if (t <? 40)%nat then 0x6ED9EBA1
  else if (t <? 60)%nat then 0x8F1BBCDC
  else 0xCA62C1D6.

Record state := State { ha : Z; hb : Z; hc : Z; hd : Z; he : Z }.

Definition init : state :=
  State 0x67452301 0xEFCDAB89 0x98BADCFE 0x10325476 0xC3D2E1F0.

Definition round (s : state) (tw : nat * Z) : state :=
  let '(t, w) := tw in
  let tmp := u32 (rotl 5 (ha s) + f t (hb s) (hc s) (hd s) + he s + k t + w) in
  State tmp (ha s) (rotl 30 (hb s)) (hc s) (hd s).

Definition block (s : state) (b : list Z) : state :=
  let w := rev (schedule 64 (rev (words b))) in
  let r := fold_left round (combine (seq 0 80) w) s in
  State (u32 (ha s + ha r)) (u32 (hb s + hb r)) (u32 (hc s + hc r))
        (u32 (hd s + hd r)) (u32 (he s + he r)).

Definition sum (msg : list Z) : list Z :=
  let p := pad msg in
  let s := fold_left block (chunks (length p) 64 p) init in
  be_bytes 4 (ha s) ++ be_bytes 4 (hb s) ++ be_bytes 4 (hc s)
    ++ be_bytes 4 (hd s) ++ be_bytes 4 (he s).

Definition Size : nat := 20.
Definition BlockSize : nat := 64.

End sha1.

Module hmac.

(** [hmac.New(sha1.New, key)] followed by writing [msg] and [Sum(nil)]. *)
Definition sum_sha1 (key msg : list Z) : list Z :=
  let key := if (sha1.BlockSize <? length key)%nat then sha1.sum key else key in
  let key := key ++ repeat 0 (sha1.BlockSize - length key) in
  let ipad := map (Z.lxor 0x36) key in
  let opad := map (Z.lxor 0x5c) key in
  sha1.sum (opad ++ sha1.sum (ipad ++ msg)).

End hmac.

(** ** The code generator *)

(** The loop [for i := 0; i < digits && i < 8; i++ { d *= 10 }] of [hotp];
    [d] is a [uint32]. *)
Fixpoint hotp_loop (fuel : nat) (i d digits : Z) : Z :=
  match fuel with
  | O => d
  | S fuel' =>
      if (i <? digits) && (i <? 8)
      then hotp_loop fuel' (i + 1) (sha1.u32 (d * 10)) digits
      else d
  end.

(** [binary.BigEndian.Uint32(b)]: the first four bytes of [b]. *)
Definition BigEndian_Uint32 (b : list Z) : Z := sha1.be_val (take 4 b).

(** [binary.Write(h, binary.BigEndian, counter)] for a [uint64]. *)
Definition BigEndian_uint64 (counter : Z) : list Z := sha1.be_bytes 8 counter.

Definition hotp (key : gostring) (counter : Z) (digits : Z) : Z :=
  let sum := hmac.sum_sha1 (map byte_val key) (BigEndian_uint64 counter) in
  let v := Z.land (BigEndian_Uint32
                     (drop (Z.to_nat (Z.land (List.last sum 0) 0x0F)) sum))
                  0x7FFFFFFF in
  let d := hotp_loop 8 0 1 digits in
  v mod d.

(** [uint64(x)] for an [int64] [x]. *)
Definition uint64 (x : Z) : Z := x mod 2 ^ 64.

(** [totp(key, t, digits)]; the time is given by [t.UnixNano()]. *)
Definition totp (key : gostring) (unixNano : Z) (digits : Z) : Z :=
  hotp key (uint64 unixNano / 30000000000) digits.

(** ** strings, bytes, strconv, fmt, sort

    The library functions the program calls.  Case mapping and white
    space are modelled on ASCII; every separator the program passes is one
    byte long. *)

Definition nl : ascii := "010"%char.
Definition sp : ascii := " "%char.

Definition is_upper (c : ascii) : bool := (65 <=? byte_val c) && (byte_val c <=? 90).
Definition is_lower (c : ascii) : bool := (97 <=? byte_val c) && (byte_val c <=? 122).
Definition is_digit (c : ascii) : bool := (48 <=? byte_val c) && (byte_val c <=? 57).

Definition ToLower (s : gostring) : gostring :=
  map (fun c => if is_upper c then byte_of (byte_val c + 32) else c) s.

Definition ToUpper (s : gostring) : gostring :=
  map (fun c => if is_lower c then byte_of (byte_val c - 32) else c) s.

(** [Split(s, sep)] *)
Fixpoint Split (s : gostring) (sep : ascii) : list gostring :=
  match s with
  | [] => [[]]
  | c :: s' =>
      if Ascii.eqb c sep then [] :: Split s' sep
      else match Split s' sep with
           | f :: fs => (c :: f) :: fs
           | [] => [[c]]
           end
  end.

(** [SplitAfter(s, sep)] *)
Fixpoint SplitAfter (s : gostring) (sep : ascii) : list gostring :=
  match s with
  | [] => [[]]
  | c :: s' =>
      if Ascii.eqb c sep then [c] :: SplitAfter s' sep
      else match SplitAfter s' sep with
           | f :: fs => (c :: f) :: fs
           | [] => [[c]]
           end
  end.

(** [TrimSuffix(s, string(c))] *)
Fixpoint TrimSuffix (s : gostring) (c : ascii) : gostring :=
  match s with
  | [] => []
  | [d] => if Ascii.eqb d c then [] else [d]
  | d :: s' => d :: TrimSuffix s' c
  end.

(** [Join(parts, string(sep))] *)
Fixpoint Join (parts : list gostring) (sep : ascii) : gostring :=
  match parts with
  | [] => []
  | [p] => p
  | p :: ps => p ++ sep :: Join ps sep
  end.

Definition bytes_eqb (a b : gostring) : bool := bool_decide (a = b).

Fixpoint HasPrefix (s p : gostring) : bool :=
  match p, s with
  | [], _ => true
  | c :: p', d :: s' => Ascii.eqb c d && HasPrefix s' p'
  | _ :: _, [] => false
  end.

(** [strings.Contains(s, substr)] *)
Fixpoint Contains (s substr : gostring) : bool :=
  HasPrefix s substr ||
  match s with
  | [] => false
  | _ :: s' => Contains s' substr
  end.

(** [strings.Repeat(string(c), n)] for [n >= 0] *)
Definition Repeat (c : ascii) (n : Z) : gostring := repeat c (Z.to_nat n).

(** The order [<] of Go strings: lexicographic on bytes. *)
Fixpoint bytes_ltb (a b : gostring) : bool :=
  match a, b with
  | _, [] => false
  | [], _ :: _ => true
  | c :: a', d :: b' =>
      (byte_val c <? byte_val d) || ((byte_val c =? byte_val d) && bytes_ltb a' b')
  end.

(** [strconv.ParseUint(s, 10, 64)]: [None] stands for a non-nil error. *)
Definition ParseUint (s : gostring) : option Z :=
  if bool_decide (s = []) then None
  else if forallb is_digit s then
    let n := fold_left (fun acc c => acc * 10 + (byte_val c - 48)) s 0 in
    if n <? 2 ^ 64 then Some n else None
  else None.

Definition digit_char (d : Z) : ascii := byte_of (48 + d).

(** The decimal digits of [n > 0], without leading zeros. *)
Fixpoint decimal_aux (fuel : nat) (n : Z) : gostring :=
  match fuel with
  | O => []
  | S fuel' =>
      if n <=? 0 then []
      else decimal_aux fuel' (n / 10) ++ [digit_char (n mod 10)]
  end.

(** [strconv.Itoa] on a non-negative number. *)
Definition Itoa (n : Z) : gostring :=
  if n <=? 0 then [digit_char 0]
  else decimal_aux (S (Z.to_nat (Z.log2 n))) n.

(** [fmt.Sprintf("%0*d", width, n)] for [n >= 0]; a negative width asks
    for [- width] columns filled with spaces on the right. *)
Definition Sprintf_0d (width n : Z) : gostring :=
  let s := Itoa n in
  if width <? 0 then s ++ Repeat sp (- width - len s)
  else Repeat (digit_char 0) (width - len s) ++ s.

(** [fmt.Sprintf("%-*s", width, s)] *)
Definition Sprintf_ls (width : Z) (s : gostring) : gostring :=
  s ++ Repeat sp (width - len s).

(** [sort.Slice(l, less)].  Go sorts slices of at most twelve elements by
    insertion, moving each element left while it is [less] than its
    predecessor; that loop is the model (for longer slices Go leaves the
    order of elements that compare equal open).  [rp] is the sorted prefix
    in reverse. *)
Fixpoint insert_left {A} (less : A -> A -> bool) (x : A) (rp : list A) : list A :=
  match rp with
  | [] => [x]
  | y :: rp' => if less x y then y :: insert_left less x rp' else x :: rp
  end.

Definition sort_Slice {A} (less : A -> A -> bool) (l : list A) : list A :=
  rev (fold_left (fun rp x => insert_left less x rp) l []).

(** [sort.Strings(l)]; the order of strings is total, so the result does
    not depend on the sorting method. *)
Definition sort_Strings (l : list gostring) : list gostring :=
  sort_Slice bytes_ltb l.

(** ** encoding/base32

    [base32.StdEncoding.DecodeString]: line breaks are dropped, then the
    input is read in groups of eight characters with [=] padding. *)
Module base32.

Definition decodeMap (c : ascii) : option Z :=
  let v := byte_val c in
  if (65 <=? v) && (v <=? 90) then Some (v - 65)
  else if (50 <=? v) && (v <=? 55) then Some (v - 24)
  else None.

Definition pad_char : ascii := "="%char.

Definition stripNewlines (s : gostring) : gostring :=
  filter (fun c => c <> "013"%char /\ c <> nl) s.

(** One group: the 5-bit values read, whether padding ended the input,
    and the rest of the input. *)
Fixpoint quantum (fuel : nat) (j : nat) (src : gostring) (dbuf : list Z)
  : option (list Z * bool * gostring) :=
  match fuel with
  | O => Some (dbuf, false, src)
  | S fuel' =>
      match src with
      | [] => None
      | c :: src' =>
          if Ascii.eqb c pad_char && (2 <=? j)%nat && (length src' <? 8)%nat then
            if (length src' + j <? 7)%nat then None
            else if negb (forallb (Ascii.eqb pad_char) (take (7 - j) src')) then None
            else if (j =? 3)%nat || (j =? 6)%nat then None
            else Some (dbuf, true, src')
          else
            match decodeMap c with
            | None => None
            | Some v => quantum fuel' (S j) src' (dbuf ++ [v])
            end
      end
  end.

Definition pack (dbuf : list Z) : list Z :=
  let d i := nth i dbuf 0 in
  let b x := x mod 256 in
  let out :=
    [ b (Z.lor (Z.shiftl (d 0%nat) 3) (Z.shiftr (d 1%nat) 2));
      b (Z.lor (Z.lor (Z.shiftl (d 1%nat) 6) (Z.shiftl (d 2%nat) 1)) (Z.shiftr (d 3%nat) 4));
      b (Z.lor (Z.shiftl (d 3%nat) 4) (Z.shiftr (d 4%nat) 1));
      b (Z.lor (Z.lor (Z.shiftl (d 4%nat) 7) (Z.shiftl (d 5%nat) 2)) (Z.shiftr (d 6%nat) 3));
      b (Z.lor (Z.shiftl (d 6%nat) 5) (d 7%nat)) ] in
  let n := match length dbuf with
           | 8 => 5 | 7 => 4 | 5 => 3 | 4 => 2 | 2 => 1 | _ => 0
           end%nat in
  take n out.

Fixpoint decode (fuel : nat) (src : gostring) : option (list Z) :=
  match fuel with
  | O => Some []
  | S fuel' =>
      match src with
      | [] => Some []
      | _ =>
          match quantum 8 0 src [] with
          | None => None
          | Some (dbuf, fin, rest) =>
              if fin then Some (pack dbuf)
              else match decode fuel' rest with
                   | None => None
                   | Some out => Some (pack dbuf ++ out)
                   end
          end
      end
  end.

Definition DecodeString (s : gostring) : option gostring :=
  let src := stripNewlines s in
  match decode (length src) src with
  | None => None
  | Some out => Some (map byte_of out)
  end.

End base32.

(** [decodeKey]: [None] stands for a non-nil error. *)
Definition decodeKey (key : gostring) : option gostring :=
  base32.DecodeString (ToUpper key).

(** ** The keychain *)

Record Key := mkKey {
  raw : gostring;
  digits : Z;
  offset : Z  (* offset of counter *)
}.

(** The zero value [Key{}]. *)
Definition Key_zero : Key := mkKey [] 0 0.

Record Keychain := mkKeychain {
  file : gostring;
  data : gostring;
  keys : gmap gostring Key
}.

Definition counterLen : Z := 20.

(** ** The world outside the program *)

(** What one system call meets: whether it fails, how many bytes a failing
    write still stored, and the clock ([time.Now().UnixNano()]). *)
Record Env := mkEnv {
  io_fails : bool;
  io_partial : nat;
  clock : Z
}.

(** The parts of a run that Go leaves open: the order in which [range]
    enumerates a map, and the behaviour of the system calls, numbered in
    the order in which they are made. *)
Record Runtime := mkRuntime {
  range_keys : gmap gostring Key -> list gostring;
  oracle : nat -> Env
}.

(** [range] visits every key of the map exactly once. *)
Definition range_ok (rt : Runtime) : Prop :=
  forall m : gmap gostring Key, range_keys rt m ≡ₚ (map_to_list m).*1.

Inductive log_entry :=
| MalformedKey (file : gostring) (lineno : Z).

Record World := mkWorld {
  disk : option gostring;      (* the keychain file; [None]: it does not exist *)
  stdout : list gostring;
  stderr : list gostring;
  logged : list log_entry;
  clipboard : option gostring;
  ticks : nat                  (* system calls made so far *)
}.

(** The calls of [log.Fatalf] and [log.Fatal]; the texts of the messages
    are not modelled. *)
Inductive failure :=
| ReadFailed
| NoSuchKey (name : gostring)
| MalformedCounter (name field : gostring)
| OpeningKeychain
| UpdatingKeychain
| Both7And8
| ErrorReadingKey
| InvalidKey
| AddingKey.

Inductive outcome (A : Type) :=
| Ok (a : A) (w : World)
| Fatal (e : failure) (w : World)
| Exit (status : Z) (w : World)
| Panic.
Arguments Ok {A}.
Arguments Fatal {A}.
Arguments Exit {A}.
Arguments Panic {A}.

Definition M (A : Type) : Type := World -> outcome A.

Definition ret {A} (a : A) : M A := fun w => Ok a w.

Definition bind {A B} (m : M A) (f : A -> M B) : M B :=
  fun w =>
    match m w with
    | Ok a w' => f a w'
    | Fatal e w' => Fatal e w'
    | Exit s w' => Exit s w'
    | Panic => Panic
    end.

Notation "'do' x <- m ; k" := (bind m (fun x => k))
  (at level 10, x pattern, m at level 100, k at level 200).

Definition log_Fatalf {A} (e : failure) : M A := fun w => Fatal e w.
Definition os_Exit {A} (status : Z) : M A := fun w => Exit status w.
Definition panic {A} : M A := fun _ => Panic.

(** Changes of the world. *)
Definition tick (w : World) : World :=
  mkWorld (disk w) (stdout w) (stderr w) (logged w) (clipboard w) (S (ticks w)).
Definition with_disk (d : option gostring) (w : World) : World :=
  mkWorld d (stdout w) (stderr w) (logged w) (clipboard w) (ticks w).
Definition with_stdout (s : gostring) (w : World) : World :=
  mkWorld (disk w) (stdout w ++ [s]) (stderr w) (logged w) (clipboard w) (ticks w).
Definition with_stderr (s : gostring) (w : World) : World :=
  mkWorld (disk w) (stdout w) (stderr w ++ [s]) (logged w) (clipboard w) (ticks w).
Definition with_log (es : list log_entry) (w : World) : World :=
  mkWorld (disk w) (stdout w) (stderr w) (logged w ++ es) (clipboard w) (ticks w).
Definition with_clipboard (s : gostring) (w : World) : World :=
  mkWorld (disk w) (stdout w) (stderr w) (logged w) (Some s) (ticks w).

(** Every system call takes the next entry of the oracle. *)
Definition syscall (rt : Runtime) : M Env :=
  fun w => Ok (oracle rt (ticks w)) (tick w).

Definition set_disk (d : option gostring) : M unit := fun w => Ok tt (with_disk d w).

Definition get_disk : M (option gostring) := fun w => Ok (disk w) w.

Definition Printf (s : gostring) : M unit := fun w => Ok tt (with_stdout s w).

Definition Fprintf_stderr (s : gostring) : M unit := fun w => Ok tt (with_stderr s w).

Definition log_Printf (es : list log_entry) : M unit := fun w => Ok tt (with_log es w).

Definition clipboard_WriteAll (s : gostring) : M unit :=
  fun w => Ok tt (with_clipboard s w).

Definition time_Now (rt : Runtime) : M Z :=
  do e <- syscall rt; ret (clock e).

(** [f.WriteAt(b, off)] on a file holding [content]; a gap is zero-filled. *)
Definition WriteAt (content b : gostring) (off : Z) : gostring :=
  let o := Z.to_nat off in
  take o content ++ repeat zero (o - length content) ++ b
    ++ drop (o + length b) content.

(** [s[lo:hi]]; [None] is the panic for bounds out of range (the capacity
    of the slice is taken to be its length). *)
Definition slice {A} (s : list A) (lo hi : Z) : option (list A) :=
  if (0 <=? lo) && (lo <=? hi) && (hi <=? len s)
  then Some (take (Z.to_nat (hi - lo)) (drop (Z.to_nat lo) s))
  else None.

(** ** readKeychain *)

(** [len(x) == 1 && '6' <= x[0] && x[0] <= '8'] *)
Definition is_digit_field (x : gostring) : bool :=
  match x with
  | [c] => (54 <=? byte_val c) && (byte_val c <=? 56)
  | _ => false
  end.

(** The loop [for i := len(f) - 1; i >= 1; i--] that looks for the digit
    field, started at [i]; the result is [digitPos]. *)
Fixpoint findDigitPos_from (f : list gostring) (i : nat) : Z :=
  match i with
  | O => -1
  | S i' =>
      if is_digit_field (nth i f [])
         && (Z.of_nat i + 1 <? len f) && (0 <? len (nth (S i) f []))
      then Z.of_nat i
      else findDigitPos_from f i'
  end.

Definition findDigitPos (f : list gostring) : Z :=
  findDigitPos_from f (length f - 1).

(** What the body of the loop over the lines does with one line. *)
Inductive line_result :=
| Blank                                 (* the first [continue] *)
| Stored (name : gostring) (k : Key)    (* [c.keys[name] = k; continue] *)
| Malformed.                            (* falls through to [log.Printf] *)

(** The body of the loop; [offset] has already been advanced past [line]. *)
Definition readLine (offset : Z) (line : gostring) : line_result :=
  let f := Split (TrimSuffix line nl) sp in
  if (len f =? 1) && (len (nth 0 f []) =? 0) then Blank
  else
    let digitPos := findDigitPos f in
    if (digitPos >=? 1) && (digitPos + 1 <? len f) then
      let nameParts := take (Z.to_nat digitPos) f in
      let name := Join nameParts sp in
      let k_digits := byte_val (nth 0 (nth (Z.to_nat digitPos) f []) zero) - 48 in
      match decodeKey (nth (Z.to_nat (digitPos + 1)) f []) with
      | Some raw =>
          if len f =? digitPos + 2 then Stored name (mkKey raw k_digits 0)
          else if (len f =? digitPos + 3)
                  && (len (nth (Z.to_nat (digitPos + 2)) f []) =? counterLen) then
            match ParseUint (nth (Z.to_nat (digitPos + 2)) f []) with
            | Some _ =>
                (* Valid counter. *)
                let off := offset - counterLen in
                let off := if bool_decide (List.last line zero = nl) then off - 1 else off in
                Stored name (mkKey raw k_digits off)
            | None => Malformed
            end
          else Malformed
      | None => Malformed
      end
    else Malformed.

(** The state of the loop over the lines. *)
Record loader := mkLoader {
  ld_keys : gmap gostring Key;
  ld_offset : Z;
  ld_log : list log_entry
}.

Definition readKeychain_step (file : gostring) (st : loader) (il : nat * gostring) : loader :=
  let '(i, line) := il in
  let lineno := Z.of_nat i + 1 in
  let offset := ld_offset st + len line in
  match readLine offset line with
  | Blank => mkLoader (ld_keys st) offset (ld_log st)
  | Stored name k => mkLoader (<[name := k]> (ld_keys st)) offset (ld_log st)
  | Malformed => mkLoader (ld_keys st) offset (ld_log st ++ [MalformedKey file lineno])
  end.

(** The parsing part of [readKeychain], on the bytes read from the file. *)
Definition parseKeychain (file data : gostring) : loader :=
  let lines := SplitAfter data nl in
  fold_left (readKeychain_step file) (imap (fun i line => (i, line)) lines)
            (mkLoader ∅ 0 []).

Definition readKeychain (rt : Runtime) (file : gostring) : M Keychain :=
  do e <- syscall rt;
  do d <- get_disk;
  match d with
  | None => ret (mkKeychain file [] ∅)
  | Some data =>
      if io_fails e then log_Fatalf ReadFailed
      else
        let st := parseKeychain file data in
        do _ <- log_Printf (ld_log st);
        ret (mkKeychain file data (ld_keys st))
  end.

(** ** code *)

Definition code (rt : Runtime) (c : Keychain) (name : gostring) : M gostring :=
  match keys c !! name with
  | None => log_Fatalf (NoSuchKey name)
  | Some k =>
      do code <-
        (if negb (offset k =? 0) then
           match slice (data c) (offset k) (offset k + counterLen) with
           | None => panic
           | Some field =>
               match ParseUint field with
               | None => log_Fatalf (MalformedCounter name field)
               | Some n =>
                   let n := uint64 (n + 1) in
                   let code := hotp (raw k) n (digits k) in
                   do e <- syscall rt;
                   do d <- get_disk;
                   match d with
                   | None => log_Fatalf OpeningKeychain
                   | Some content =>
                       if io_fails e then log_Fatalf OpeningKeychain
                       else
                         do e <- syscall rt;
                         let b := Sprintf_0d counterLen n in
                         if io_fails e then
                           do _ <- set_disk (Some (WriteAt content (take (io_partial e) b) (offset k)));
                           log_Fatalf UpdatingKeychain
                         else
                           do _ <- set_disk (Some (WriteAt content b (offset k)));
                           do e <- syscall rt;
                           if io_fails e then log_Fatalf UpdatingKeychain
                           else ret code
                   end
               end
           end
         else
           (* Time-based key. *)
           do t <- time_Now rt;
           ret (totp (raw k) t (digits k)));
      ret (Sprintf_0d (digits k) code)
  end.

(** ** showAll *)

Definition tab : ascii := "009"%char.

(** [fmt.Sprintf("%-*s\t%s\n", max, code, name)] *)
Definition row (max : Z) (code name : gostring) : gostring :=
  Sprintf_ls max code ++ tab :: name ++ [nl].

Definition print_row (max : Z) (code name : gostring) : M unit :=
  Printf (row max code name).

Fixpoint for_each {A} (l : list A) (body : A -> M unit) : M unit :=
  match l with
  | [] => ret tt
  | x :: l' => do _ <- body x; for_each l' body
  end.

Definition max_digits (c : Keychain) (names : list gostring) : Z :=
  fold_left (fun max name =>
               let k := default Key_zero (keys c !! name) in
               if max <? digits k then digits k else max) names 0.

(** [strings.Repeat(string(c), count)], which panics on a negative count. *)
Definition strings_Repeat (c : ascii) (count : Z) : M gostring :=
  if count <? 0 then panic else ret (Repeat c count).

Definition showAll (rt : Runtime) (c : Keychain) : M unit :=
  let names := range_keys rt (keys c) in
  let max := max_digits c names in
  let names := sort_Strings names in
  for_each names (fun name =>
    let k := default Key_zero (keys c !! name) in
    do dashes <- strings_Repeat "-"%char (digits k);
    do s <- (if offset k =? 0 then code rt c name else ret dashes);
    print_row max s name).

(** ** github.com/lithammer/fuzzysearch/fuzzy

    The imported package is not part of the repository.  [RankFind] keeps
    the targets that contain the source as a subsequence, in the order of
    [targets], each with its Levenshtein distance to the source; it does
    not sort them ([Ranks] implements [sort.Interface] for callers that
    want to).  The package compares runes; here the strings are compared
    byte by byte, which is the same on ASCII names. *)
Module fuzzy.

Record Rank := mkRank {
  Source : gostring;
  Target : gostring;
  Distance : Z;
  OriginalIndex : Z
}.

(** The characters of [source] appear, in order, in [target]. *)
Fixpoint Match (source target : gostring) {struct target} : bool :=
  match source with
  | [] => true
  | c :: source' =>
      match target with
      | [] => false
      | d :: target' =>
          if Ascii.eqb c d then Match source' target' else Match source target'
      end
  end.

Fixpoint column_step (x : ascii) (s : gostring) (column : list Z) (above : Z) : list Z :=
  match s, column with
  | y :: s', lastDiag :: ((cur :: _) as column') =>
      let cost := if Ascii.eqb y x then 0 else 1 in
      let v := Z.min (Z.min (cur + 1) (above + 1)) (lastDiag + cost) in
      v :: column_step x s' column' v
  | _, _ => []
  end.

Definition LevenshteinDistance (s t : gostring) : Z :=
  let column0 := map Z.of_nat (seq 0 (S (length s))) in
  let step column x := (hd 0 column + 1) :: column_step x s column (hd 0 column + 1) in
  List.last (fold_left step t column0) 0.

Definition RankFind (source : gostring) (targets : list gostring) : list Rank :=
  omap (fun it : nat * gostring =>
          let '(index, target) := it in
          if Match source target
          then Some (mkRank source target (LevenshteinDistance source target)
                            (Z.of_nat index))
          else None)
       (imap (fun i t => (i, t)) targets).

End fuzzy.

(** ** fuzzyMatch and show *)

(** The inner loop of [fuzzyMatch]: the name at the first index whose
    lower-case form is [target]. *)
Fixpoint original_name (lowerNames allNames : list gostring) (target : gostring)
  : list gostring :=
  match lowerNames, allNames with
  | lowerName :: ls, name :: ns =>
      if bytes_eqb lowerName target then [name] else original_name ls ns target
  | _, _ => []
  end.

(** fuzzyMatch finds keys that fuzzy match the search string.  The second
    loop over the map feeds [sort.Strings], so its order does not matter. *)
Definition fuzzyMatch (rt : Runtime) (c : Keychain) (search : gostring) : list gostring :=
  let allNames := range_keys rt (keys c) in
  let search := ToLower search in
  let lowerNames := map ToLower allNames in
  let ranks := fuzzy.RankFind search lowerNames in
  if 0 <? len ranks then
    flat_map (fun rank => original_name lowerNames allNames (fuzzy.Target rank)) ranks
  else
    sort_Strings
      (filter (fun name => Contains (ToLower name) search = true)
              (range_keys rt (keys c))).

(** [fmt.Printf("copied\t%s\t%s\n", code, name)] *)
Definition print_copied (code name : gostring) : M unit :=
  Printf (lit "copied" ++ tab :: code ++ tab :: name ++ [nl]).

(** [show]; of the line written to the standard error only the name is
    kept, without the quoting of [%q]. *)
Definition show (rt : Runtime) (c : Keychain) (name : gostring) : M unit :=
  match keys c !! name with
  | Some _ =>
      do s <- code rt c name;
      do _ <- clipboard_WriteAll s;
      print_copied s name
  | None =>
      let matches := fuzzyMatch rt c name in
      if len matches =? 0 then log_Fatalf (NoSuchKey name)
      else if len matches =? 1 then
        let matchName := nth 0 matches [] in
        do s <- code rt c matchName;
        do _ <- clipboard_WriteAll s;
        print_copied s matchName
      else
        do _ <- Fprintf_stderr (lit "multiple matches found for " ++ name);
        let max := max_digits c matches in
        do _ <- for_each matches (fun m =>
                  do s <- code rt c m;
                  print_row max s m);
        os_Exit 1
  end.

(** ** add and rewriteSorted *)

(** The comparison given to [sort.Slice] in [rewriteSorted]. *)
Definition lessLine (li lj : gostring) : bool :=
  let partsI := Split li sp in
  let partsJ := Split lj sp in
  if (0 <? len partsI) && (0 <? len partsJ)
  then bytes_ltb (ToLower (nth 0 partsI [])) (ToLower (nth 0 partsJ []))
  else bytes_ltb li lj.

Inductive rewrite_error := ErrOpening | ErrWriting.

(** The loop of [f.WriteString(line + "\n")]. *)
Fixpoint write_lines (rt : Runtime) (lines : list gostring) : M (option rewrite_error) :=
  match lines with
  | [] => ret None
  | line :: rest =>
      do e <- syscall rt;
      do d <- get_disk;
      let content := default [] d in
      if io_fails e then
        do _ <- set_disk (Some (content ++ take (io_partial e) (line ++ [nl])));
        ret (Some ErrWriting)
      else
        do _ <- set_disk (Some (content ++ line ++ [nl]));
        write_lines rt rest
  end.

(** The lines of the retained file bytes that [rewriteSorted] keeps. *)
Definition existingLines (c : Keychain) : list gostring :=
  if 0 <? len (data c)
  then filter (fun line => 0 < len line) (Split (TrimSuffix (data c) nl) nl)
  else [].

(** rewriteSorted rewrites the entire keychain file in sorted order *)
Definition rewriteSorted (rt : Runtime) (c : Keychain) (newEntries : list gostring)
  : M (option rewrite_error) :=
  (* Combine existing and new entries *)
  let allLines := existingLines c ++ newEntries in
  (* Sort all lines by name (first field) *)
  let allLines := sort_Slice lessLine allLines in
  (* Write sorted entries to file *)
  do e <- syscall rt;
  if io_fails e then ret (Some ErrOpening)
  else
    do _ <- set_disk (Some []);
    do _ <- syscall rt;                 (* f.Chmod(0600) *)
    do err <- write_lines rt allLines;
    do _ <- syscall rt;                 (* defer f.Close() *)
    ret err.

Record Flags := mkFlags {
  flag7 : bool;
  flag8 : bool;
  flagHotp : bool
}.

(** [unicode.IsSpace] on ASCII. *)
Definition IsSpace (c : ascii) : bool :=
  ((9 <=? byte_val c) && (byte_val c <=? 13)) || (byte_val c =? 32).

(** [strings.Map(noSpace, text)] *)
Definition strip_space (text : gostring) : gostring :=
  filter (fun c => IsSpace c = false) text.

(** [bufio.NewReader(os.Stdin).ReadString('\n')]: [None] is an error. *)
Fixpoint ReadString (input : gostring) (delim : ascii) : option gostring :=
  match input with
  | [] => None
  | c :: rest =>
      if Ascii.eqb c delim then Some [c]
      else match ReadString rest delim with
           | Some s => Some (c :: s)
           | None => None
           end
  end.

(** [fmt.Sprintf("%s %d %s", name, size, text)], with the counter of an
    HOTP key appended. *)
Definition key_line (name : gostring) (size : Z) (text : gostring) (hotp : bool) : gostring :=
  let line := name ++ sp :: Itoa size ++ sp :: text in
  if hotp then line ++ sp :: Repeat "0"%char 20 else line.

Definition add (rt : Runtime) (fl : Flags) (stdin : gostring)
    (c : Keychain) (name : gostring) : M Keychain :=
  do size <- (if flag7 fl then
                if flag8 fl then log_Fatalf Both7And8 else ret 7
              else if flag8 fl then ret 8 else ret 6);
  do _ <- Fprintf_stderr (lit "2fa key for " ++ name ++ lit ": ");
  match ReadString stdin nl with
  | None => log_Fatalf ErrorReadingKey
  | Some text =>
      let text := strip_space text in
      let text := text ++ Repeat "="%char (Z.land (- len text) 7) in (* pad to 8 bytes *)
      match decodeKey text with
      | None => log_Fatalf InvalidKey
      | Some _ =>
          let line := key_line name size text (flagHotp fl) in
          (* Add to keychain map *)
          let c := mkKeychain (file c) (data c) (<[name := Key_zero]> (keys c)) in
          (* Rewrite entire file in sorted order *)
          do err <- rewriteSorted rt c [line];
          match err with
          | Some _ => log_Fatalf AddingKey
          | None => ret c
          end
      end
  end.

(** ** list *)

(** [fmt.Println(s)] *)
Definition Println (s : gostring) : M unit := Printf (s ++ [nl]).

(** The method [list] of the keychain ([list] is the type of lists here). *)
Definition Keychain_list (rt : Runtime) (c : Keychain) : M unit :=
  let names := range_keys rt (keys c) in
  let names := sort_Strings names in
  for_each names (fun name => Println name).

(** ** getServiceName and import2fas *)

(** TwoFASOTP contains the OTP configuration for a 2FAS service *)
Record TwoFASOTP := mkTwoFASOTP {
  Label : gostring;
  Account : gostring;
  Issuer : gostring;
  Digits : Z;
  Period : Z;
  Algorithm : gostring;
  TokenType : gostring
}.

(** TwoFASService represents a single service in a 2FAS export *)
Record TwoFASService := mkTwoFASService {
  Name : gostring;
  Secret : gostring;
  OTP : TwoFASOTP
}.

(** TwoFASExport represents the structure of a 2FAS export file *)
Record TwoFASExport := mkTwoFASExport {
  Services : list TwoFASService
}.

(** [strings.ReplaceAll(s, string(old), string(new))] *)
Definition ReplaceAll (s : gostring) (old new : ascii) : gostring :=
  map (fun c => if Ascii.eqb c old then new else c) s.

(** getServiceName extracts the best available name for a service *)
Definition getServiceName (service : TwoFASService) : gostring :=
  (* Get service name and replace spaces with underscores *)
  let serviceName :=
    if negb (bytes_eqb (Name service) []) then ReplaceAll (Name service) sp "_"
    else if negb (bytes_eqb (Issuer (OTP service)) [])
         then ReplaceAll (Issuer (OTP service)) sp "_"
    else [] in
  (* Get account (keep spaces in account names) *)
  let account :=
    if negb (bytes_eqb (Account (OTP service)) []) then Account (OTP service)
    else if negb (bytes_eqb (Label (OTP service)) []) then Label (OTP service)
    else [] in
  (* Build name in format: serviceName/account *)
  if negb (bytes_eqb serviceName []) && negb (bytes_eqb account [])
  then serviceName ++ "/"%char :: account
  else if negb (bytes_eqb serviceName []) then serviceName
  else if negb (bytes_eqb account []) then account
  else [].

(** [fmt.Sprintf("%d", n)] *)
Definition Sprintf_d (n : Z) : gostring :=
  if n <? 0 then "-"%char :: Itoa (- n) else Itoa n.

(** The logger as [main] sets it up: prefix [2fa: ], no flags, output on
    the standard error.  In [import2fas] and [main] a logged line keeps
    its text and the name it reports; the quoting of [%q] and the text of
    an error value ([%v]) are not modelled. *)
Definition log_line (msg : gostring) : M unit :=
  Fprintf_stderr (lit "2fa: " ++ msg ++ [nl]).

(** [log.Fatalf]: the line is logged, then [os.Exit(1)]. *)
Definition log_exit {A} (msg : gostring) : M A :=
  do _ <- log_line msg; os_Exit 1.

(** The variables [imported] and [newEntries] of [import2fas]. *)
Record importing := mkImporting {
  imported : Z;
  newEntries : list gostring
}.

(** The body of the loop over the services. *)
Definition import_service (c : Keychain) (st : importing) (service : TwoFASService)
  : M importing :=
  let name := getServiceName service in
  if bytes_eqb name [] then
    do _ <- log_line (lit "skipping service with no name");
    ret st
  else
    (* Check if key already exists *)
    match keys c !! name with
    | Some _ =>
        do _ <- log_line (lit "skipping " ++ name ++ lit ": already exists");
        ret st
    | None =>
        (* Validate and format the secret key *)
        let secret := strip_space (Secret service) in
        let secret := secret ++ Repeat "="%char (Z.land (- len secret) 7) in
        match decodeKey secret with
        | None =>
            do _ <- log_line (lit "skipping " ++ name ++ lit ": invalid secret key");
            ret st
        | Some _ =>
            (* Default to 6 digits if not specified *)
            let digits := Digits (OTP service) in
            let digits := if digits =? 0 then 6 else digits in
            (* Build the key line *)
            let line := name ++ sp :: Sprintf_d digits ++ sp :: secret in
            (* Add counter for HOTP *)
            let line := if bytes_eqb (TokenType (OTP service)) (lit "HOTP")
                        then line ++ sp :: Repeat "0"%char 20 else line in
            do _ <- Printf (lit "imported: " ++ name ++ [nl]);
            ret (mkImporting (imported st + 1) (newEntries st ++ [line]))
        end
    end.

Fixpoint import_services (c : Keychain) (st : importing) (services : list TwoFASService)
  : M importing :=
  match services with
  | [] => ret st
  | service :: rest =>
      do st <- import_service c st service;
      import_services c st rest
  end.

(** The loop that adds the new entries to the map of the keychain. *)
Definition temporary_entries (keys : gmap gostring Key) (newEntries : list gostring)
  : gmap gostring Key :=
  fold_left (fun keys line =>
               let parts := Split line sp in
               if 3 <=? len parts then <[nth 0 parts [] := Key_zero]> keys else keys)
            newEntries keys.

(** import2fas imports keys from a 2FAS JSON export file.  [decoded] is
    what [json.Unmarshal] makes of the bytes of the file ([None]: an
    error); the decoder itself is not part of the model. *)
Definition import2fas (rt : Runtime) (decoded : option TwoFASExport) (c : Keychain)
  : M Keychain :=
  do e <- syscall rt;                   (* os.ReadFile(filename) *)
  if io_fails e then log_exit (lit "reading import file")
  else
    match decoded with
    | None => log_exit (lit "parsing 2fas JSON")
    | Some export =>
        do st <- import_services c (mkImporting 0 []) (Services export);
        do c <- (if 0 <? imported st then
                   (* Add new entries to keychain map *)
                   let c := mkKeychain (file c) (data c)
                              (temporary_entries (keys c) (newEntries st)) in
                   (* Rewrite entire file in sorted order *)
                   do err <- rewriteSorted rt c (newEntries st);
                   match err with
                   | Some _ => log_exit (lit "rewriting keychain")
                   | None => ret c
                   end
                 else ret c);
        do _ <- Printf (nl :: lit "Successfully imported " ++ Sprintf_d (imported st)
                           ++ lit " key(s)" ++ [nl]);
        ret c
    end.

(** ** main *)

(** The command line after [flag.Parse]: the flags and the remaining
    arguments. *)
Record CommandLine := mkCommandLine {
  flagAdd : bool;
  flagList : bool;
  flagImport : bool;
  addFlags : Flags;                     (* -7, -8 and -hotp *)
  args : list gostring
}.

Definition usage {A} : M A :=
  do _ <- Fprintf_stderr (lit "usage:" ++ [nl]);
  do _ <- Fprintf_stderr (tab :: lit "2fa -add [-7] [-8] [-hotp] keyname" ++ [nl]);
  do _ <- Fprintf_stderr (tab :: lit "2fa -list" ++ [nl]);
  do _ <- Fprintf_stderr (tab :: lit "2fa keyname" ++ [nl]);
  do _ <- Fprintf_stderr (tab :: lit "2fa -import 2fas <file>" ++ [nl]);
  os_Exit 2.

(** [main]; [home_file] is [filepath.Join(os.Getenv("HOME"), ".2fa")],
    [stdin] the standard input and [decode] what reading and decoding the
    file of that name gives. *)
Definition main (rt : Runtime) (cl : CommandLine) (home_file stdin : gostring)
    (decode : gostring -> option TwoFASExport) : M unit :=
  do k <- readKeychain rt home_file;
  if flagList cl then
    do _ <- (if negb (len (args cl) =? 0) then usage else ret tt);
    Keychain_list rt k
  else if flagImport cl then
    do _ <- (if negb (len (args cl) =? 2) then usage else ret tt);
    let format := nth 0 (args cl) [] in
    let file := nth 1 (args cl) [] in
    do _ <- (if negb (bytes_eqb format (lit "2fas"))
             then log_exit (lit "unsupported import format: " ++ format)
             else ret tt);
    do _ <- import2fas rt (decode file) k;
    ret tt
  else if (len (args cl) =? 0) && negb (flagAdd cl) then showAll rt k
  else
    do _ <- (if negb (len (args cl) =? 1) then usage else ret tt);
    let name := nth 0 (args cl) [] in
    if flagAdd cl then
      do _ <- add rt (addFlags cl) stdin k name;
      ret tt
    else show rt k name.

(** ** Runs of the program *)

(** One run of the command for a name that is a key of the file: the
    keychain is loaded, then [code] is called. *)
Definition run_code (rt : Runtime) (file name : gostring) : M gostring :=
  do c <- readKeychain rt file;
  code rt c name.

(** Two calls of [code] on one loaded keychain. *)
Definition code_twice (rt : Runtime) (file name : gostring) : M (gostring * gostring) :=
  do c <- readKeychain rt file;
  do s1 <- code rt c name;
  do s2 <- code rt c name;
  ret (s1, s2).


(** One run of [2fa -add name]: the keychain is loaded, then [add] is
    called. *)
Definition run_add (rt : Runtime) (fl : Flags) (stdin file name : gostring)
  : M Keychain :=
  do c <- readKeychain rt file;
  add rt fl stdin c name.

(** The bytes of a file written line by line. *)
Definition unlines (ls : list gostring) : gostring :=
  flat_map (fun l => l ++ [nl]) ls.

(** No system call fails. *)
Definition no_faults (rt : Runtime) : Prop :=
  forall t, io_fails (oracle rt t) = false.

(** A file given by its lines. *)
Definition file_of (ls : list string) : gostring :=
  flat_map (fun l => lit l ++ [nl]) ls.

(** A world that holds the keychain file and nothing else. *)
Definition world_of (content : gostring) : World :=
  mkWorld (Some content) [] [] [] None 0.

(** A run-time without failures, whose clock stands at [now] and whose
    maps are enumerated as [map_to_list] lists them. *)
Definition quiet (now : Z) : Runtime :=
  mkRuntime (fun m => (map_to_list m).*1) (fun _ => mkEnv false 0 now).

Definition home_2fa : gostring := lit "/home/user/.2fa".

(** A run-time that enumerates a map by descending name. *)
Definition descending : Runtime :=
  mkRuntime (fun m => rev (sort_Strings (map_to_list m).*1))
            (fun _ => mkEnv false 0 0).

(** A keychain with the three names of the specification's example. *)
Definition three_keys (k1 k2 k3 : Key) : Keychain :=
  mkKeychain home_2fa []
    (list_to_map [(lit "github", k1); (lit "google", k2); (lit "gojek", k3)]).

(** ** The specification's wording of the code generator *)

(** The 8-byte big-endian encoding of [counter]. *)
Definition counter_bytes (counter : Z) : list Z :=
  map (fun i => (counter / 256 ^ i) mod 256) [7; 6; 5; 4; 3; 2; 1; 0].

(** HMAC-SHA1 of the counter bytes; dynamic truncation at the offset in
    the low 4 bits of the last byte; 31 bits; modulo a power of ten. *)
Definition hotp_spec (secret : gostring) (counter digitCount : Z) : Z :=
  let mac := hmac.sum_sha1 (map byte_val secret) (counter_bytes counter) in
  let off := Z.to_nat (Z.land (nth 19 mac 0) 15) in
  let p := nth off mac 0 * 2 ^ 24 + nth (off + 1) mac 0 * 2 ^ 16
           + nth (off + 2) mac 0 * 2 ^ 8 + nth (off + 3) mac 0 in
  Z.land p 0x7FFFFFFF mod 10 ^ Z.min digitCount 8.

(** The secret of the test vectors of RFC 4226 and RFC 6238 (SHA-1). *)
Definition rfc_secret : gostring := lit "12345678901234567890".

(** ** The vocabulary of the properties *)

(** A list of lines: every element but the last is ended by its only
    separator, the last holds none. *)
Inductive lines_of (sep : ascii) : list gostring -> Prop :=
| lines_last (l : gostring) : sep ∉ l -> lines_of sep [l]
| lines_cons (body : gostring) (ls : list gostring) :
    sep ∉ body -> lines_of sep ls -> lines_of sep ((body ++ [sep]) :: ls).

(** The specification's wording: a field made of the single digit 6, 7 or
    8 and immediately followed by a non-empty field. *)
Definition digit_marker (f : list gostring) (i : nat) : Prop :=
  (exists c, f !! i = Some [c] /\ c ∈ ["6"; "7"; "8"]%char)
  /\ exists s, f !! S i = Some s /\ s <> [].

Definition rightmost_marker (f : list gostring) (i : nat) : Prop :=
  digit_marker f i /\ forall j, digit_marker f j -> (j <= i)%nat.

(** The test made by the loop of [findDigitPos_from]. *)
Definition markerb (f : list gostring) (i : nat) : bool :=
  is_digit_field (nth i f [])
  && (Z.of_nat i + 1 <? len f) && (0 <? len (nth (S i) f [])).

(** The offset recorded for a counter that ends [off] bytes into the file. *)
Definition counter_offset (off : Z) (line : gostring) : Z :=
  if bool_decide (List.last line zero = nl)
  then off - counterLen - 1 else off - counterLen.

Definition parse_lines (file : gostring) (ls : list gostring) : loader :=
  fold_left (readKeychain_step file) (imap (fun i line => (i, line)) ls)
            (mkLoader ∅ 0 []).

(** The number of bytes up to the end of line [i]. *)
Definition offset_after (ls : list gostring) (i : nat) : Z :=
  len (concat (take (S i) ls)).

(** What the loop does with line [i] of [ls]. *)
Definition line_at (ls : list gostring) (i : nat) (r : line_result) : Prop :=
  exists line, ls !! i = Some line /\ readLine (offset_after ls i) line = r.

(** The specification's malformed lines: a line that is not empty and has
    the wrong shape (no digit field after a name, or not one or two fields
    after it), or whose secret does not decode, or whose trailing counter
    is not made of exactly 20 decimal digits. *)
Inductive malformed_line (line : gostring) : Prop :=
| wrong_shape :
    TrimSuffix line nl <> [] ->
    (forall p, (1 <= p)%nat -> rightmost_marker (Split (TrimSuffix line nl) sp) p ->
               length (Split (TrimSuffix line nl) sp) <> (p + 2)%nat
               /\ length (Split (TrimSuffix line nl) sp) <> (p + 3)%nat) ->
    malformed_line line
| bad_secret (p : nat) (s : gostring) :
    rightmost_marker (Split (TrimSuffix line nl) sp) p ->
    Split (TrimSuffix line nl) sp !! S p = Some s ->
    decodeKey s = None ->
    malformed_line line
| bad_counter (p : nat) (ctr : gostring) :
    rightmost_marker (Split (TrimSuffix line nl) sp) p ->
    length (Split (TrimSuffix line nl) sp) = (p + 3)%nat ->
    Split (TrimSuffix line nl) sp !! (p + 2)%nat = Some ctr ->
    ~ (length ctr = 20%nat /\ Forall (fun c => is_digit c = true) ctr) ->
    malformed_line line.

Definition decimal_value (s : gostring) : Z :=
  fold_left (fun acc c => acc * 10 + (byte_val c - 48)) s 0.

(** A line with a counter: two fields follow its digit field. *)
Definition has_counter (line : gostring) : Prop :=
  exists p, rightmost_marker (Split (TrimSuffix line nl) sp) p
            /\ length (Split (TrimSuffix line nl) sp) = (p + 3)%nat.

(** Two lines that end the same way. *)
Definition same_ending (l l' : gostring) : Prop :=
  ((nl ∉ l) /\ (nl ∉ l'))
  \/ exists x x', l = x ++ [nl] /\ l' = x' ++ [nl] /\ (nl ∉ x) /\ (nl ∉ x').

(** The counter that [code] would use for [name]: one more than the
    counter in the retained bytes, as a [uint64]. *)
Definition next_counter (c : Keychain) (name : gostring) : option Z :=
  match keys c !! name with
  | Some k =>
      match slice (data c) (offset k) (offset k + counterLen) with
      | Some field =>
          match ParseUint field with
          | Some n => Some (uint64 (n + 1))
          | None => None
          end
      | None => None
      end
  | None => None
  end.


(** The stored names that contain the query as a subsequence, letter case
    apart, in the order in which the map is enumerated. *)
Definition candidates (rt : Runtime) (c : Keychain) (query : gostring) : list gostring :=
  filter (fun name => fuzzy.Match (ToLower query) (ToLower name) = true)
         (range_keys rt (keys c)).

(** A string of ASCII bytes; on such strings the case mapping and the
    white space of this model are those of Go. *)
Definition ascii_only (s : gostring) : Prop :=
  Forall (fun c => byte_val c < 128) s.

(** [a <= b] on Go strings. *)
Definition bytes_le (a b : gostring) : Prop := bytes_ltb b a = false.

(** The failures of [code] for a name that is a key. *)
Definition code_failure (e : failure) : Prop :=
  (exists name field, e = MalformedCounter name field)
  \/ e = OpeningKeychain \/ e = UpdatingKeychain.

(** The key text that [add] makes of the standard input: the first line,
    without white space, padded with [=] to a multiple of 8 bytes. *)
Definition padded (text : gostring) : gostring :=
  text ++ Repeat "="%char (Z.land (- len text) 7).

Definition key_text (stdin : gostring) : option gostring :=
  match ReadString stdin nl with
  | Some text => Some (padded (strip_space text))
  | None => None
  end.

(** The digit count that the flags select. *)
Definition key_size (fl : Flags) : Z :=
  if flag7 fl then 7 else if flag8 fl then 8 else 6.

(** A line that the loader would store under [name]. *)
Definition stores (name line : gostring) : Prop :=
  exists off k, readLine off line = Stored name k.

(** The secret of a service as [import2fas] writes it. *)
Definition import_secret (service : TwoFASService) : gostring :=
  padded (strip_space (Secret service)).

(** The services that [import2fas] does not skip: those with a name that
    is not a key of the keychain and a secret that decodes. *)
Definition accepted (c : Keychain) (service : TwoFASService) : bool :=
  negb (bytes_eqb (getServiceName service) [])
  && bool_decide (keys c !! getServiceName service = None)
  && bool_decide (is_Some (decodeKey (import_secret service))).

(** An export whose secrets are ASCII; on these the white space that the
    model removes from a secret is the white space that Go removes. *)
Definition ascii_secrets (export : TwoFASExport) : Prop :=
  Forall (fun s => ascii_only (Secret s)) (Services export).

(** The line written for a service. *)
Definition import_line (service : TwoFASService) : gostring :=
  let digits := if Digits (OTP service) =? 0 then 6 else Digits (OTP service) in
  let line := getServiceName service ++ sp :: Sprintf_d digits
                ++ sp :: import_secret service in
  if bytes_eqb (TokenType (OTP service)) (lit "HOTP")
  then line ++ sp :: Repeat "0"%char 20 else line.

(** The line printed for an imported service and the closing line. *)
Definition imported_message (service : TwoFASService) : gostring :=
  lit "imported: " ++ getServiceName service ++ [nl].

Definition import_summary (n : Z) : gostring :=
  nl :: lit "Successfully imported " ++ Sprintf_d n ++ lit " key(s)" ++ [nl].

(** The lines that [usage] writes to the standard error. *)
Definition usage_text : list gostring :=
  [lit "usage:" ++ [nl];
   tab :: lit "2fa -add [-7] [-8] [-hotp] keyname" ++ [nl];
   tab :: lit "2fa -list" ++ [nl];
   tab :: lit "2fa keyname" ++ [nl];
   tab :: lit "2fa -import 2fas <file>" ++ [nl]].

(** The command lines that [main] answers with [usage]: arguments after
    -list, other than two arguments after -import, other than one name
    after -add, more than one name. *)
Definition wrong_command_line (cl : CommandLine) : bool :=
  if flagList cl then negb (len (args cl) =? 0)
  else if flagImport cl then negb (len (args cl) =? 2)
  else if flagAdd cl then negb (len (args cl) =? 1)
  else 1 <? len (args cl).

(** The commands that only list: -list, and no argument without -add and
    -import. *)
Definition listing_command (cl : CommandLine) : bool :=
  flagList cl
  || (negb (flagImport cl) && negb (flagAdd cl) && (len (args cl) =? 0)).

(** The keychains that [readKeychain] returns. *)
Definition as_loaded (c : Keychain) : Prop :=
  c = mkKeychain (file c) [] ∅
  \/ c = mkKeychain (file c) (data c) (ld_keys (parseKeychain (file c) (data c))).

(** A service of an export, given by its name, secret, token type and
    digit count. *)
Definition a_service (name secret tokenType : string) (digits : Z) : TwoFASService :=
  mkTwoFASService (lit name) (lit secret)
    (mkTwoFASOTP [] [] [] digits 30 (lit "SHA1") (lit tokenType)).

(** A keychain loaded from a file that holds the key GitHub. *)
Definition github_file : gostring := file_of ["GitHub 6 ORSXG5A="].

Definition github_keychain : Keychain :=
  mkKeychain home_2fa github_file (ld_keys (parseKeychain home_2fa github_file)).

(** The digit count written for a service. *)
Definition import_digits (service : TwoFASService) : Z :=
  if Digits (OTP service) =? 0 then 6 else Digits (OTP service).

(** A service whose line the loader can read: a name without newline, a
    secret that is not empty, and 6, 7 or 8 digits (or none given). *)
Definition loadable (service : TwoFASService) : Prop :=
  (nl ∉ getServiceName service)
  /\ import_secret service <> []
  /\ (import_digits service = 6 \/ import_digits service = 7
      \/ import_digits service = 8).

(** * Properties *)

(** ** The code generator *)

Lemma sha1_sum_length (msg : list Z) : length (sha1.sum msg) = 20%nat.
Proof. unfold sha1.sum. rewrite !length_app. reflexivity. Qed.

Lemma hmac_sum_length (key msg : list Z) :
  length (hmac.sum_sha1 key msg) = 20%nat.
Proof. unfold hmac.sum_sha1. apply sha1_sum_length. Qed.

Lemma be_bytes_8 (x : Z) : sha1.be_bytes 8 x = counter_bytes x.
Proof.
  unfold counter_bytes. cbn [sha1.be_bytes map].
  rewrite !Z.shiftr_div_pow2 by lia. reflexivity.
Qed.

Lemma hotp_loop_pow (digits : Z) :
  0 <= digits -> hotp_loop 8 0 1 digits = 10 ^ Z.min digits 8.
Proof.
  intros Hd. destruct (Z_lt_dec digits 8) as [Hlt|Hge].
  - assert (digits = 0 \/ digits = 1 \/ digits = 2 \/ digits = 3 \/ digits = 4
            \/ digits = 5 \/ digits = 6 \/ digits = 7) as Hc by lia.
    repeat (destruct Hc as [->|Hc]; [reflexivity|]). subst. reflexivity.
  - rewrite Z.min_r by lia.
    assert (forall i, i < 8 -> (i <? digits) = true) as Hi
      by (intros; apply Z.ltb_lt; lia).
    cbn -[Z.ltb Z.pow]. rewrite !Hi by lia. reflexivity.
Qed.

Lemma hotp_loop_neg (digits : Z) : digits <= 0 -> hotp_loop 8 0 1 digits = 1.
Proof.
  intros Hd. cbn -[Z.ltb]. replace (0 <? digits) with false; [reflexivity|].
  symmetry. apply Z.ltb_ge. lia.
Qed.

Lemma Uint32_at (l : list Z) (off : nat) :
  (off + 4 <= length l)%nat ->
  BigEndian_Uint32 (drop off l)
  = nth off l 0 * 2 ^ 24 + nth (off + 1) l 0 * 2 ^ 16
    + nth (off + 2) l 0 * 2 ^ 8 + nth (off + 3) l 0.
Proof.
  intros Hl. unfold BigEndian_Uint32.
  assert (forall i, nth (off + i) l 0 = nth i (drop off l) 0) as Hn.
  { intros i. now rewrite !nth_lookup, lookup_drop. }
  rewrite <- (Nat.add_0_r off) at 2. rewrite !Hn.
  assert (4 <= length (drop off l))%nat as Hl' by (rewrite length_drop; lia).
  destruct (drop off l) as [|a [|b [|c [|d r]]]]; simpl in Hl'; try lia.
  unfold sha1.be_val. rewrite (firstn_cons 3), (firstn_cons 2), (firstn_cons 1),
    (firstn_cons 0), firstn_O.
  cbn [fold_left nth]. lia.
Qed.

Lemma last_nth19 (l : list Z) : length l = 20%nat -> List.last l 0 = nth 19 l 0.
Proof.
  intros Hl. do 20 (destruct l as [|? l]; [discriminate|]).
  destruct l; [reflexivity|discriminate].
Qed.

Lemma hotp_value (key : gostring) (counter digits : Z) :
  hotp key counter digits
  = (let mac := hmac.sum_sha1 (map byte_val key) (counter_bytes counter) in
     let off := Z.to_nat (Z.land (nth 19 mac 0) 15) in
     let p := nth off mac 0 * 2 ^ 24 + nth (off + 1) mac 0 * 2 ^ 16
              + nth (off + 2) mac 0 * 2 ^ 8 + nth (off + 3) mac 0 in
     Z.land p 0x7FFFFFFF mod hotp_loop 8 0 1 digits).
Proof.
  unfold hotp, BigEndian_uint64. rewrite be_bytes_8.
  set (mac := hmac.sum_sha1 _ _).
  assert (length mac = 20%nat) as Hlen by apply hmac_sum_length.
  cbv zeta. rewrite (last_nth19 mac Hlen).
  assert (0 <= Z.land (nth 19 mac 0) 15 <= 15) as Hoff.
  { assert (0 <= Z.land (nth 19 mac 0) 15) by (apply Z.land_nonneg; lia).
    assert (Z.land (nth 19 mac 0) 15 = nth 19 mac 0 mod 2 ^ 4) as ->
      by (apply (Z.land_ones _ 4); lia).
    pose proof (Z.mod_pos_bound (nth 19 mac 0) (2 ^ 4)). lia. }
  rewrite Uint32_at by lia. reflexivity.
Qed.

(** C3.  [hotp] is the HMAC-SHA1 of the 8-byte big-endian counter under
    the secret, truncated dynamically at the offset given by the low four
    bits of the last byte, with the sign bit masked, modulo
    [10 ^ min digitCount 8] (a digit count below zero gives the modulus 1);
    being a function it is deterministic, and for the secret of RFC 4226
    it yields the ten published 6-digit values. *)
Theorem hotp_correct :
  (forall secret counter digitCount, 0 <= digitCount ->
     hotp secret counter digitCount = hotp_spec secret counter digitCount)
  /\ (forall secret counter digitCount, digitCount < 0 ->
        hotp secret counter digitCount = 0)
  /\ map (fun counter => hotp rfc_secret counter 6) [0; 1; 2; 3; 4; 5; 6; 7; 8; 9]
     = [755224; 287082; 359152; 969429; 338314;
        254676; 287922; 162583; 399871; 520489].
Proof.
  split; [|split].
  - intros secret counter digitCount Hd.
    rewrite hotp_value. unfold hotp_spec. now rewrite hotp_loop_pow.
  - intros secret counter digitCount Hd.
    rewrite hotp_value. cbv zeta. rewrite hotp_loop_neg by lia.
    apply Z.mod_1_r.
  - vm_compute. reflexivity.
Qed.

Lemma hotp_correct_witness :
  (0 <= 6 /\ hotp rfc_secret 1 6 = hotp_spec rfc_secret 1 6)
  /\ (-1 < 0 /\ hotp rfc_secret 1 (-1) = 0).
Proof.
  split; (split; [lia|]).
  - apply (proj1 hotp_correct); lia.
  - apply (proj1 (proj2 hotp_correct)); lia.
Defined.

(** The claim of C4 fails for a time before 1970: [uint64] of a negative
    [UnixNano] is not negative, so the step count is not the floor. *)
Lemma totp_before_epoch :
  totp rfc_secret (-1) 6 <> hotp rfc_secret (-1 / 30000000000) 6.
Proof. vm_compute. discriminate. Qed.

(** C4 (amended).  From the Unix epoch on, [totp] is [hotp] at the
    number of whole 30-second steps since the epoch; with the secret of
    RFC 6238 it yields the published values at 59 s, 1111111109 s and
    1111111111 s, at 8 digits and cut to 6. *)
Theorem totp_correct :
  (forall secret unixNano digitCount, 0 <= unixNano < 2 ^ 63 ->
     totp secret unixNano digitCount
     = hotp secret (unixNano / 30000000000) digitCount)
  /\ map (fun sec => totp rfc_secret (sec * 1000000000) 8)
         [59; 1111111109; 1111111111] = [94287082; 7081804; 14050471]
  /\ map (fun sec => totp rfc_secret (sec * 1000000000) 6)
         [59; 1111111109; 1111111111] = [287082; 81804; 50471].
Proof.
  split; [|split].
  - intros secret unixNano digitCount Ht. unfold totp, uint64.
    rewrite Z.mod_small by lia. reflexivity.
  - vm_compute. reflexivity.
  - vm_compute. reflexivity.
Qed.

Lemma totp_correct_witness :
  0 <= 59000000000 < 2 ^ 63
  /\ totp rfc_secret 59000000000 6 = hotp rfc_secret (59000000000 / 30000000000) 6.
Proof. split; [lia | apply (proj1 totp_correct); lia]. Defined.

(** ** Splitting and joining *)

Section split.
Variable sep : ascii.

Lemma Split_not_nil (s : gostring) : Split s sep <> [].
Proof.
  destruct s as [|c s]; cbn; [discriminate|].
  destruct (Ascii.eqb c sep); [discriminate|].
  destruct (Split s sep); discriminate.
Qed.

Lemma SplitAfter_not_nil (s : gostring) : SplitAfter s sep <> [].
Proof.
  destruct s as [|c s]; cbn; [discriminate|].
  destruct (Ascii.eqb c sep); [discriminate|].
  destruct (SplitAfter s sep); discriminate.
Qed.

Lemma Split_cons_sep (s : gostring) : Split (sep :: s) sep = [] :: Split s sep.
Proof. cbn. now rewrite Ascii.eqb_refl. Qed.

Lemma Split_app_sep (a s : gostring) :
  sep ∉ a -> Split (a ++ sep :: s) sep = a :: Split s sep.
Proof.
  induction a as [|c a IH]; intros Ha; [apply Split_cons_sep|].
  apply not_elem_of_cons in Ha as [Hc Ha].
  cbn [app Split]. rewrite (IH Ha).
  destruct (Ascii.eqb_spec c sep); [congruence|reflexivity].
Qed.

Lemma Split_no_sep (a : gostring) : sep ∉ a -> Split a sep = [a].
Proof.
  induction a as [|c a IH]; intros Ha; [reflexivity|].
  apply not_elem_of_cons in Ha as [Hc Ha].
  cbn [Split]. rewrite (IH Ha).
  destruct (Ascii.eqb_spec c sep); [congruence|reflexivity].
Qed.

Lemma Split_Join (fs : list gostring) :
  fs <> [] -> Forall (fun x => sep ∉ x) fs -> Split (Join fs sep) sep = fs.
Proof.
  induction fs as [|x fs IH]; intros Hne Hfs; [congruence|].
  apply Forall_cons in Hfs as [Hx Hfs].
  destruct fs as [|y fs]; [now apply Split_no_sep|].
  cbn [Join]. rewrite Split_app_sep by assumption.
  f_equal. now apply IH.
Qed.

Lemma Join_Split (s : gostring) : Join (Split s sep) sep = s.
Proof.
  induction s as [|c s IH]; [reflexivity|].
  cbn [Split]. pose proof (Split_not_nil s) as Hne.
  destruct (Ascii.eqb_spec c sep) as [->|Hc].
  - destruct (Split s sep) as [|f fs]; [congruence|].
    change (Join ([] :: f :: fs) sep) with (sep :: Join (f :: fs) sep).
    now rewrite IH.
  - destruct (Split s sep) as [|f fs]; [congruence|].
    rewrite <- IH. now destruct fs.
Qed.

Lemma Split_fields (s : gostring) : Forall (fun x => sep ∉ x) (Split s sep).
Proof.
  induction s as [|c s IH]; cbn [Split].
  - repeat constructor. apply not_elem_of_nil.
  - destruct (Ascii.eqb_spec c sep) as [->|Hc].
    + constructor; [apply not_elem_of_nil|assumption].
    + destruct (Split s sep) as [|f fs].
      * repeat constructor. now apply not_elem_of_cons; split; [|apply not_elem_of_nil].
      * apply Forall_cons in IH as [Hf Hfs]. constructor; [|assumption].
        now apply not_elem_of_cons.
Qed.

Lemma Join_app (fs gs : list gostring) :
  fs <> [] -> gs <> [] -> Join (fs ++ gs) sep = Join fs sep ++ sep :: Join gs sep.
Proof.
  induction fs as [|x fs IH]; intros Hf Hg; [congruence|].
  destruct fs as [|y fs].
  - destruct gs; [congruence|reflexivity].
  - change (Join ((x :: y :: fs) ++ gs) sep)
      with (x ++ sep :: Join ((y :: fs) ++ gs) sep).
    rewrite IH by (assumption || discriminate).
    cbn [Join]. now rewrite <- app_assoc.
Qed.

Lemma SplitAfter_concat (s : gostring) : concat (SplitAfter s sep) = s.
Proof.
  induction s as [|c s IH]; [reflexivity|].
  cbn [SplitAfter]. pose proof (SplitAfter_not_nil s) as Hne.
  destruct (Ascii.eqb c sep).
  - cbn. now rewrite IH.
  - destruct (SplitAfter s sep) as [|f fs]; [congruence|].
    cbn in *. now rewrite IH.
Qed.

Lemma SplitAfter_no_sep (a : gostring) : sep ∉ a -> SplitAfter a sep = [a].
Proof.
  induction a as [|c a IH]; intros Ha; [reflexivity|].
  apply not_elem_of_cons in Ha as [Hc Ha].
  cbn [SplitAfter]. rewrite (IH Ha).
  destruct (Ascii.eqb_spec c sep); [congruence|reflexivity].
Qed.

Lemma SplitAfter_app_sep (a s : gostring) :
  sep ∉ a -> SplitAfter (a ++ sep :: s) sep = (a ++ [sep]) :: SplitAfter s sep.
Proof.
  induction a as [|c a IH]; intros Ha.
  - cbn. now rewrite Ascii.eqb_refl.
  - apply not_elem_of_cons in Ha as [Hc Ha].
    cbn [app SplitAfter]. rewrite (IH Ha).
    destruct (Ascii.eqb_spec c sep); [congruence|reflexivity].
Qed.

Lemma SplitAfter_lines (s : gostring) : lines_of sep (SplitAfter s sep).
Proof.
  induction s as [|c s IH]; cbn [SplitAfter].
  - constructor. apply not_elem_of_nil.
  - destruct (Ascii.eqb_spec c sep) as [->|Hc].
    + apply (lines_cons sep []); [apply not_elem_of_nil|assumption].
    + inversion IH as [l Hl Heq|body ls Hb Hls Heq].
      * constructor. now apply not_elem_of_cons.
      * apply (lines_cons sep (c :: body)); [|assumption].
        now apply not_elem_of_cons.
Qed.

Lemma SplitAfter_unique (ls : list gostring) :
  lines_of sep ls -> SplitAfter (concat ls) sep = ls.
Proof.
  induction 1 as [l Hl|body ls Hb Hls IH].
  - cbn. rewrite app_nil_r. now apply SplitAfter_no_sep.
  - cbn [concat]. rewrite <- app_assoc. cbn [app].
    rewrite SplitAfter_app_sep by assumption. now rewrite IH.
Qed.

Lemma TrimSuffix_snoc (s : gostring) : TrimSuffix (s ++ [sep]) sep = s.
Proof.
  induction s as [|c s IH]; cbn.
  - now rewrite Ascii.eqb_refl.
  - rewrite IH. now destruct s.
Qed.

Lemma TrimSuffix_no_sep (s : gostring) : sep ∉ s -> TrimSuffix s sep = s.
Proof.
  induction s as [|c s IH]; intros Hs; [reflexivity|].
  apply not_elem_of_cons in Hs as [Hc Hs]. cbn [TrimSuffix].
  rewrite (IH Hs). destruct s; [|reflexivity].
  destruct (Ascii.eqb_spec c sep); congruence.
Qed.

End split.

(** ** The digit field of a line *)

Lemma byte_val_inj (c d : ascii) : byte_val c = byte_val d -> c = d.
Proof.
  unfold byte_val. intros H. apply N2Z.inj in H.
  rewrite <- (ascii_N_embedding c), <- (ascii_N_embedding d). now rewrite H.
Qed.

Lemma is_digit_field_spec (x : gostring) :
  is_digit_field x = true <-> exists c, x = [c] /\ c ∈ ["6"; "7"; "8"]%char.
Proof.
  split.
  - destruct x as [|c [|d x]]; cbn; try discriminate.
    intros H. apply andb_true_iff in H as [H1 H2].
    apply Z.leb_le in H1, H2. exists c. split; [reflexivity|].
    assert (byte_val c = 54 \/ byte_val c = 55 \/ byte_val c = 56) as Hc by lia.
    destruct Hc as [Hc|[Hc|Hc]].
    + rewrite (byte_val_inj c "6" Hc). set_solver.
    + rewrite (byte_val_inj c "7" Hc). set_solver.
    + rewrite (byte_val_inj c "8" Hc). set_solver.
  - intros (c & -> & Hc).
    repeat (apply elem_of_cons in Hc as [->|Hc]; [reflexivity|]).
    now apply elem_of_nil in Hc.
Qed.

Lemma markerb_spec (f : list gostring) (i : nat) :
  markerb f i = true <-> digit_marker f i.
Proof.
  unfold markerb, digit_marker, len. rewrite !andb_true_iff, is_digit_field_spec.
  rewrite Z.ltb_lt, Z.ltb_lt. split.
  - intros [[(c & Hc & Hin) Hlt] Hne].
    assert (S i < length f)%nat as Hlt' by lia.
    destruct (lookup_lt_is_Some_2 f i) as [x Hx]; [lia|].
    destruct (lookup_lt_is_Some_2 f (S i) Hlt') as [y Hy].
    rewrite (nth_lookup_Some _ _ _ _ Hx) in Hc.
    rewrite (nth_lookup_Some _ _ _ _ Hy) in Hne.
    split; [exists c; now subst|].
    exists y. split; [assumption|]. intros ->. cbn in Hne. lia.
  - intros [(c & Hc & Hin) (y & Hy & Hne)].
    rewrite (nth_lookup_Some _ _ _ _ Hc), (nth_lookup_Some _ _ _ _ Hy).
    apply lookup_lt_Some in Hy. split; [split; [eauto|lia]|].
    destruct y; [congruence|cbn; lia].
Qed.

Lemma findDigitPos_from_spec (f : list gostring) (i : nat) :
  (findDigitPos_from f i = -1 /\ forall j, (1 <= j <= i)%nat -> markerb f j = false)
  \/ exists p, findDigitPos_from f i = Z.of_nat p /\ (1 <= p <= i)%nat
               /\ markerb f p = true
               /\ forall j, (p < j <= i)%nat -> markerb f j = false.
Proof.
  induction i as [|i IH].
  - left. split; [reflexivity|]. intros j Hj. lia.
  - cbn [findDigitPos_from]. fold (markerb f (S i)).
    destruct (markerb f (S i)) eqn:Hm.
    + right. exists (S i). repeat split; try lia; try assumption.
    + destruct IH as [[Hr Hall]|(p & Hr & Hp & Hmp & Hall)].
      * left. split; [assumption|]. intros j Hj.
        destruct (decide (j = S i)) as [->|]; [assumption|apply Hall; lia].
      * right. exists p. repeat split; try lia; try assumption.
        intros j Hj.
        destruct (decide (j = S i)) as [->|]; [assumption|apply Hall; lia].
Qed.

Lemma markerb_range (f : list gostring) (j : nat) :
  markerb f j = true -> (S j < length f)%nat.
Proof.
  unfold markerb, len. rewrite !andb_true_iff, Z.ltb_lt. lia.
Qed.

(** [findDigitPos] finds the right-most digit field that is not the first
    field of the line. *)
Lemma findDigitPos_spec (f : list gostring) :
  (findDigitPos f = -1 /\ forall j, (1 <= j)%nat -> ~ digit_marker f j)
  \/ exists p, findDigitPos f = Z.of_nat p /\ (1 <= p)%nat /\ rightmost_marker f p.
Proof.
  unfold findDigitPos.
  destruct (findDigitPos_from_spec f (length f - 1))
    as [[Hr Hall]|(p & Hr & Hp & Hmp & Hall)].
  - left. split; [assumption|]. intros j Hj Hm.
    apply markerb_spec in Hm. pose proof (markerb_range _ _ Hm).
    rewrite Hall in Hm by lia. discriminate.
  - right. exists p. split; [assumption|]. split; [lia|].
    split; [now apply markerb_spec|].
    intros j Hm. apply markerb_spec in Hm. pose proof (markerb_range _ _ Hm).
    destruct (decide (j <= p)%nat); [assumption|].
    rewrite Hall in Hm by lia. discriminate.
Qed.

(** ** One line of the keychain file *)

Lemma rightmost_marker_unique (f : list gostring) (p q : nat) :
  rightmost_marker f p -> rightmost_marker f q -> p = q.
Proof.
  intros [Hp Hpmax] [Hq Hqmax]. pose proof (Hpmax q Hq). pose proof (Hqmax p Hp). lia.
Qed.

Lemma findDigitPos_rightmost (f : list gostring) (p : nat) :
  (1 <= p)%nat -> rightmost_marker f p -> findDigitPos f = Z.of_nat p.
Proof.
  intros Hp Hr. destruct (findDigitPos_spec f) as [[_ Hno]|(q & Hq & _ & Hrq)].
  - destruct (Hno p Hp). apply Hr.
  - now rewrite (rightmost_marker_unique f p q).
Qed.

(** What a stored line looks like. *)
Lemma readLine_Stored (off : Z) (line name : gostring) (k : Key) :
  readLine off line = Stored name k ->
  let f := Split (TrimSuffix line nl) sp in
  exists p, (1 <= p)%nat /\ rightmost_marker f p
    /\ name = Join (take p f) sp
    /\ digits k = byte_val (nth 0 (nth p f []) zero) - 48
    /\ decodeKey (nth (S p) f []) = Some (raw k)
    /\ ((length f = (p + 2)%nat /\ offset k = 0)
        \/ (length f = (p + 3)%nat /\ length (nth (p + 2) f []) = 20%nat
            /\ is_Some (ParseUint (nth (p + 2) f []))
            /\ offset k = counter_offset off line)).
Proof.
  intros H. unfold readLine in H.
  set (f := Split (TrimSuffix line nl) sp) in *. cbv zeta.
  destruct ((len f =? 1) && (len (nth 0 f []) =? 0)); [discriminate|].
  destruct (findDigitPos_spec f) as [[Hr _]|(p & Hr & Hp & Hright)];
    rewrite Hr in H.
  { discriminate. }
  destruct ((Z.of_nat p >=? 1) && (Z.of_nat p + 1 <? len f)); [|discriminate].
  replace (Z.to_nat (Z.of_nat p + 1)) with (S p) in H by lia.
  replace (Z.to_nat (Z.of_nat p + 2)) with (p + 2)%nat in H by lia.
  rewrite Nat2Z.id in H.
  destruct (decodeKey (nth (S p) f [])) as [r|] eqn:Hdec; [|discriminate].
  exists p. unfold len, counterLen in H.
  destruct (Z.eqb_spec (Z.of_nat (length f)) (Z.of_nat p + 2)) as [Hl|Hl].
  - injection H as <- <-. cbn. repeat split; try assumption; try apply Hright.
    left. split; [lia|reflexivity].
  - destruct (Z.eqb_spec (Z.of_nat (length f)) (Z.of_nat p + 3)) as [Hl3|];
      [|discriminate].
    destruct (Z.eqb_spec (Z.of_nat (length (nth (p + 2) f []))) 20) as [Hc|];
      [|discriminate].
    cbn [andb] in H.
    destruct (ParseUint (nth (p + 2) f [])) as [n|] eqn:Hn; [|discriminate].
    injection H as <- <-. cbn [digits raw offset].
    repeat split; try assumption; try apply Hright.
    right. repeat split; try lia. eauto.
Qed.

(** A line of the stored shape is stored. *)
Lemma readLine_complete (off : Z) (line : gostring) (p : nat) (r : gostring) :
  let f := Split (TrimSuffix line nl) sp in
  (1 <= p)%nat -> rightmost_marker f p ->
  decodeKey (nth (S p) f []) = Some r ->
  readLine off line
  = if decide (length f = (p + 2)%nat) then
      Stored (Join (take p f) sp)
             (mkKey r (byte_val (nth 0 (nth p f []) zero) - 48) 0)
    else if decide (length f = (p + 3)%nat /\ length (nth (p + 2) f []) = 20%nat
                    /\ is_Some (ParseUint (nth (p + 2) f []))) then
      Stored (Join (take p f) sp)
             (mkKey r (byte_val (nth 0 (nth p f []) zero) - 48)
                    (counter_offset off line))
    else Malformed.
Proof.
  unfold readLine. set (f := Split (TrimSuffix line nl) sp).
  intros Hp Hright Hdec.
  assert (S p < length f)%nat as Hlen.
  { destruct Hright as [[_ (s & Hs & _)] _]. now apply lookup_lt_Some in Hs. }
  replace ((len f =? 1) && (len (nth 0 f []) =? 0)) with false; cycle 1.
  { symmetry. apply andb_false_iff. left. apply Z.eqb_neq. unfold len. lia. }
  rewrite (findDigitPos_rightmost f p Hp Hright).
  replace ((Z.of_nat p >=? 1) && (Z.of_nat p + 1 <? len f)) with true; cycle 1.
  { symmetry. apply andb_true_iff. unfold len. split; [|apply Z.ltb_lt]; lia. }
  replace (Z.to_nat (Z.of_nat p + 1)) with (S p) by lia.
  replace (Z.to_nat (Z.of_nat p + 2)) with (p + 2)%nat by lia.
  rewrite Nat2Z.id, Hdec. unfold len, counterLen.
  destruct (Z.eqb_spec (Z.of_nat (length f)) (Z.of_nat p + 2)) as [Hl|Hl].
  { rewrite decide_True by lia. reflexivity. }
  rewrite decide_False by lia.
  destruct (Z.eqb_spec (Z.of_nat (length f)) (Z.of_nat p + 3)) as [Hl3|Hl3];
    cycle 1.
  { rewrite decide_False by lia. reflexivity. }
  destruct (Z.eqb_spec (Z.of_nat (length (nth (p + 2) f []))) 20) as [Hc|Hc];
    cycle 1.
  { rewrite decide_False by lia. reflexivity. }
  cbn [andb]. destruct (ParseUint (nth (p + 2) f [])) as [n|] eqn:Hn.
  - rewrite decide_True by (repeat split; eauto; lia).
    unfold counter_offset, counterLen. now destruct (bool_decide _).
  - rewrite decide_False; [reflexivity|].
    intros (_ & _ & [? ?]). discriminate.
Qed.

Lemma decodeKey_digit_field (s : gostring) :
  is_digit_field s = true -> decodeKey s = None.
Proof.
  intros (c & -> & Hc)%is_digit_field_spec.
  repeat (apply elem_of_cons in Hc as [->|Hc]; [reflexivity|]).
  now apply elem_of_nil in Hc.
Qed.

Lemma Join_no_char (c sep : ascii) (fs : list gostring) :
  c <> sep -> Forall (fun x => c ∉ x) fs -> c ∉ Join fs sep.
Proof.
  intros Hc. induction fs as [|x fs IH]; intros Hfs; [apply not_elem_of_nil|].
  apply Forall_cons in Hfs as [Hx Hfs]. destruct fs as [|y fs]; [assumption|].
  cbn [Join]. rewrite elem_of_app, elem_of_cons. intros [?|[?|?]]; try done.
  now apply IH.
Qed.

(** The fields of a line written as fields joined by single spaces, with
    or without the line terminator. *)
Lemma fields_of_joined (fs : list gostring) (eol : gostring) :
  fs <> [] -> Forall (fun x => (sp ∉ x) /\ (nl ∉ x)) fs ->
  eol = [] \/ eol = [nl] ->
  Split (TrimSuffix (Join fs sp ++ eol) nl) sp = fs.
Proof.
  intros Hne Hfs Heol.
  assert (TrimSuffix (Join fs sp ++ eol) nl = Join fs sp) as ->.
  { destruct Heol as [->| ->]; [|apply TrimSuffix_snoc].
    rewrite app_nil_r. apply TrimSuffix_no_sep, Join_no_char; [discriminate|].
    eapply Forall_impl; [exact Hfs|]. now intros x [_ ?]. }
  apply Split_Join; [assumption|].
  eapply Forall_impl; [exact Hfs|]. now intros x [? _].
Qed.

(** The digit field of a line of the stored shape is the right-most one. *)
Lemma shape_rightmost (nameFields : list gostring) (d : ascii)
    (secret : gostring) (tail : list gostring) :
  d ∈ ["6"; "7"; "8"]%char -> secret <> [] -> is_Some (decodeKey secret) ->
  (tail = [] \/ exists ctr, tail = [ctr] /\ length ctr = 20%nat) ->
  rightmost_marker (nameFields ++ ([d] :: secret :: tail)) (length nameFields).
Proof.
  intros Hd Hs [r Hr] Htail. split.
  - split.
    + exists d. split; [|assumption]. now apply list_lookup_middle.
    + exists secret. split; [|assumption].
      rewrite lookup_app_r by lia.
      now replace (S (length nameFields) - length nameFields)%nat with 1%nat by lia.
  - intros j [(c & Hc & Hin) (s & Hsj & Hne)].
    destruct (decide (j <= length nameFields)%nat) as [|Hj]; [assumption|exfalso].
    rewrite lookup_app_r in Hc, Hsj by lia.
    remember (j - length nameFields)%nat as i eqn:Hi.
    replace (S j - length nameFields)%nat with (S i) in Hsj by lia.
    destruct i as [|[|[|i]]]; [lia| | |].
    + cbn in Hc. injection Hc as ->.
      rewrite decodeKey_digit_field in Hr; [discriminate|].
      apply is_digit_field_spec. eauto.
    + destruct Htail as [->|(ctr & -> & Hlen)]; [discriminate|].
      cbn in Hc. injection Hc as ->. discriminate.
    + destruct Htail as [->|(ctr & -> & Hlen)]; discriminate.
Qed.

(** C7.  A line is stored under the fields left of its right-most digit
    field (a single 6, 7 or 8 immediately followed by a non-empty field),
    rejoined with single spaces, with that digit count and the decoded
    field after it; and every line [name digitCount secret [counter]],
    whatever spaces the name holds, is stored as that record. *)
Theorem name_with_spaces :
  (forall off line name k, readLine off line = Stored name k ->
     exists p c s,
       rightmost_marker (Split (TrimSuffix line nl) sp) p
       /\ name = Join (take p (Split (TrimSuffix line nl) sp)) sp
       /\ Split (TrimSuffix line nl) sp !! p = Some [c]
       /\ digits k = byte_val c - 48
       /\ Split (TrimSuffix line nl) sp !! S p = Some s
       /\ decodeKey s = Some (raw k))
  /\ (forall off nameFields d secret r tail eol,
        nameFields <> [] ->
        Forall (fun x => (sp ∉ x) /\ (nl ∉ x)) (nameFields ++ secret :: tail) ->
        d ∈ ["6"; "7"; "8"]%char ->
        secret <> [] -> decodeKey secret = Some r ->
        (tail = [] \/ exists ctr, tail = [ctr] /\ length ctr = 20%nat
                                  /\ is_Some (ParseUint ctr)) ->
        eol = [] \/ eol = [nl] ->
        exists o,
          readLine off (Join (nameFields ++ ([d] :: secret :: tail)) sp ++ eol)
          = Stored (Join nameFields sp) (mkKey r (byte_val d - 48) o)).
Proof.
  split.
  - intros off line name k H.
    destruct (readLine_Stored _ _ _ _ H) as (p & Hp & Hright & Hname & Hdig & Hdec & _).
    destruct Hright as [[(c & Hc & Hin) (s & Hs & Hne)] Hmax].
    exists p, c, s.
    rewrite (nth_lookup_Some _ _ _ _ Hc) in Hdig.
    rewrite (nth_lookup_Some _ _ _ _ Hs) in Hdec.
    repeat split; try assumption; eauto.
  - intros off nameFields d secret r tail eol Hne Hfs Hd Hs Hdec Htail Heol.
    set (f := nameFields ++ ([d] :: secret :: tail)).
    set (p := length nameFields).
    assert (Forall (fun x => (sp ∉ x) /\ (nl ∉ x)) f) as Hf.
    { apply Forall_app in Hfs as [Hn Hst]. apply Forall_app. split; [assumption|].
      constructor; [|assumption].
      split; intros Hin; apply list_elem_of_singleton in Hin; subst;
        repeat (apply elem_of_cons in Hd as [Hd|Hd]; [discriminate|]);
        now apply elem_of_nil in Hd. }
    assert (Split (TrimSuffix (Join f sp ++ eol) nl) sp = f) as Hsplit.
    { apply fields_of_joined; [|assumption..]. subst f. now destruct nameFields. }
    assert (rightmost_marker f p) as Hright.
    { apply shape_rightmost; eauto. destruct Htail as [|(ctr & ? & ? & _)]; eauto. }
    assert (1 <= p)%nat as Hp.
    { subst p. destruct nameFields; [congruence|cbn; lia]. }
    assert (f !! p = Some [d]) as Hfp by now apply list_lookup_middle.
    assert (f !! S p = Some secret) as Hfs'.
    { subst f p. rewrite lookup_app_r by lia.
      now replace (S (length nameFields) - length nameFields)%nat with 1%nat by lia. }
    assert (take p f = nameFields) as Htake by (subst f p; now rewrite take_app_length).
    pose proof (readLine_complete off (Join f sp ++ eol) p r) as Hc.
    cbv zeta in Hc. rewrite Hsplit in Hc.
    rewrite (nth_lookup_Some _ _ _ _ Hfp), (nth_lookup_Some _ _ _ _ Hfs'), Htake in Hc.
    specialize (Hc Hp Hright Hdec). rewrite Hc. cbn [nth].
    assert (length f = (p + 2 + length tail)%nat) as Hlen.
    { subst f p. rewrite length_app. cbn. lia. }
    destruct Htail as [->|(ctr & -> & Hctr & Hparse)]; cbn in Hlen.
    + rewrite decide_True by lia. eauto.
    + rewrite decide_False by lia.
      assert (f !! (p + 2)%nat = Some ctr) as Hf2.
      { subst f p. rewrite lookup_app_r by lia.
        now replace (length nameFields + 2 - length nameFields)%nat with 2%nat by lia. }
      rewrite (nth_lookup_Some _ _ _ _ Hf2).
      rewrite decide_True by (repeat split; try assumption; lia). eauto.
Qed.

Lemma name_with_spaces_witness :
  (exists p c s,
     rightmost_marker (Split (TrimSuffix (lit "my bank 7 ORSXG5A=" ++ [nl]) nl) sp) p
     /\ lit "my bank"
        = Join (take p (Split (TrimSuffix (lit "my bank 7 ORSXG5A=" ++ [nl]) nl) sp)) sp
     /\ Split (TrimSuffix (lit "my bank 7 ORSXG5A=" ++ [nl]) nl) sp !! p = Some [c]
     /\ digits (mkKey (lit "test") 7 0) = byte_val c - 48
     /\ Split (TrimSuffix (lit "my bank 7 ORSXG5A=" ++ [nl]) nl) sp !! S p = Some s
     /\ decodeKey s = Some (raw (mkKey (lit "test") 7 0)))
  /\ exists o,
       readLine 19
         (Join ([lit "my"; lit "bank"] ++ (["7"%char] :: lit "ORSXG5A=" :: [])) sp ++ [nl])
       = Stored (Join [lit "my"; lit "bank"] sp)
                (mkKey (lit "test") (byte_val "7" - 48) o).
Proof.
  split.
  - apply (proj1 name_with_spaces 19). vm_compute. reflexivity.
  - apply (proj2 name_with_spaces).
    + discriminate.
    + refine (bool_decide_unpack _ _). vm_compute. exact I.
    + refine (bool_decide_unpack _ _). vm_compute. exact I.
    + discriminate.
    + vm_compute. reflexivity.
    + left. reflexivity.
    + right. reflexivity.
Defined.

(** ** The loop over the lines *)

Lemma parseKeychain_lines (file data : gostring) :
  parseKeychain file data = parse_lines file (SplitAfter data nl).
Proof. reflexivity. Qed.

Lemma parse_lines_snoc (file : gostring) (ls : list gostring) (l : gostring) :
  parse_lines file (ls ++ [l])
  = readKeychain_step file (parse_lines file ls) (length ls, l).
Proof.
  unfold parse_lines. rewrite imap_app, fold_left_app. cbn.
  now rewrite Nat.add_0_r.
Qed.

Lemma parse_lines_offset (file : gostring) (ls : list gostring) :
  ld_offset (parse_lines file ls) = len (concat ls).
Proof.
  induction ls as [|l ls IH] using rev_ind; [reflexivity|].
  rewrite parse_lines_snoc. unfold readKeychain_step.
  rewrite IH, concat_app. cbn [concat]. rewrite app_nil_r.
  unfold len. rewrite length_app.
  destruct (readLine _ l); cbn; lia.
Qed.

Lemma offset_after_snoc_l (ls : list gostring) (l : gostring) (i : nat) :
  (i < length ls)%nat -> offset_after (ls ++ [l]) i = offset_after ls i.
Proof. intros Hi. unfold offset_after. now rewrite take_app_le by lia. Qed.

Lemma offset_after_snoc_r (ls : list gostring) (l : gostring) :
  offset_after (ls ++ [l]) (length ls) = len (concat ls) + len l.
Proof.
  unfold offset_after, len. rewrite take_ge by (rewrite length_app; cbn; lia).
  rewrite concat_app, length_app. cbn. rewrite app_nil_r. lia.
Qed.

Lemma line_at_snoc (ls : list gostring) (l : gostring) (i : nat) (r : line_result) :
  line_at (ls ++ [l]) i r
  <-> line_at ls i r
      \/ (i = length ls /\ readLine (len (concat ls) + len l) l = r).
Proof.
  unfold line_at. split.
  - intros (line & Hl & Hr). apply lookup_snoc_Some in Hl as [[Hi Hl]|[-> ->]].
    + left. exists line. now rewrite <- (offset_after_snoc_l ls l i).
    + right. now rewrite offset_after_snoc_r in Hr.
  - intros [(line & Hl & Hr)|[-> Hr]].
    + exists line. pose proof (lookup_lt_Some _ _ _ Hl).
      rewrite offset_after_snoc_l by assumption.
      split; [now apply lookup_app_l_Some|assumption].
    + exists l. rewrite offset_after_snoc_r.
      split; [now apply list_lookup_middle|assumption].
Qed.

Lemma line_at_range (ls : list gostring) (i : nat) (r : line_result) :
  line_at ls i r -> (i < length ls)%nat.
Proof. intros (line & Hl & _). now apply lookup_lt_Some in Hl. Qed.

Lemma parse_lines_step (file : gostring) (ls : list gostring) (l : gostring) :
  parse_lines file (ls ++ [l])
  = let st := parse_lines file ls in
    let off := len (concat ls) + len l in
    match readLine off l with
    | Blank => mkLoader (ld_keys st) off (ld_log st)
    | Stored name k => mkLoader (<[name := k]> (ld_keys st)) off (ld_log st)
    | Malformed =>
        mkLoader (ld_keys st) off
                 (ld_log st ++ [MalformedKey file (Z.of_nat (length ls) + 1)])
    end.
Proof.
  rewrite parse_lines_snoc. unfold readKeychain_step.
  now rewrite parse_lines_offset.
Qed.

(** The records of the map are those of the stored lines, a later line
    replacing an earlier one of the same name. *)
Lemma parse_lines_keys (file : gostring) (ls : list gostring)
    (name : gostring) (k : Key) :
  ld_keys (parse_lines file ls) !! name = Some k
  <-> exists i, line_at ls i (Stored name k)
        /\ forall j k', (i < j)%nat -> ~ line_at ls j (Stored name k').
Proof.
  induction ls as [|l ls IH] using rev_ind.
  - cbn. rewrite lookup_empty. split; [discriminate|].
    intros (i & (line & Hl & _) & _). discriminate.
  - rewrite parse_lines_step. cbv zeta.
    assert ((forall k', readLine (len (concat ls) + len l) l <> Stored name k') ->
      (ld_keys (parse_lines file ls) !! name = Some k
       <-> exists i, line_at (ls ++ [l]) i (Stored name k)
             /\ forall j k', (i < j)%nat -> ~ line_at (ls ++ [l]) j (Stored name k')))
      as Hskip.
    { intros Hno. rewrite IH. split.
      - intros (i & Hi & Hlater). exists i. split; [apply line_at_snoc; now left|].
        intros j k' Hj [Hat|[-> Hr]]%line_at_snoc; [now apply (Hlater j k')|].
        now apply (Hno k').
      - intros (i & [Hi|[-> Hr]]%line_at_snoc & Hlater).
        + exists i. split; [assumption|]. intros j k' Hj Hat.
          apply (Hlater j k' Hj). apply line_at_snoc. now left.
        + now destruct (Hno k). }
    destruct (readLine (len (concat ls) + len l) l) as [|n k0|] eqn:Hr; cbn [ld_keys].
    + apply Hskip. discriminate.
    + destruct (decide (n = name)) as [->|Hn].
      * rewrite lookup_insert_eq. split.
        -- intros [= ->]. exists (length ls). split; [apply line_at_snoc; now right|].
           intros j k' Hj Hat. apply line_at_range in Hat.
           rewrite length_app in Hat. cbn in Hat. lia.
        -- intros (i & [Hi|[-> Hr']]%line_at_snoc & Hlater); [|congruence].
           exfalso. apply (Hlater (length ls) k0); [now apply line_at_range in Hi|].
           apply line_at_snoc. now right.
      * rewrite lookup_insert_ne by assumption.
        apply Hskip. congruence.
    + apply Hskip. discriminate.
Qed.


(** ** Malformed lines *)

Lemma ParseUint_Some (s : gostring) (n : Z) :
  ParseUint s = Some n ->
  s <> [] /\ forallb is_digit s = true
  /\ n = fold_left (fun acc c => acc * 10 + (byte_val c - 48)) s 0 /\ n < 2 ^ 64.
Proof.
  unfold ParseUint. case_bool_decide as Hs; [discriminate|].
  destruct (forallb is_digit s); [|discriminate].
  destruct (Z.ltb_spec (fold_left (fun acc c => acc * 10 + (byte_val c - 48)) s 0) (2 ^ 64));
    [|discriminate].
  intros [= <-]. auto.
Qed.

Lemma readLine_Blank (off : Z) (line : gostring) :
  readLine off line = Blank -> TrimSuffix line nl = [].
Proof.
  intros H. unfold readLine in H.
  set (f := Split (TrimSuffix line nl) sp) in *.
  destruct ((len f =? 1) && (len (nth 0 f []) =? 0)) eqn:Hb; cycle 1.
  { repeat (match type of H with
            | (if ?b then _ else _) = _ => destruct b
            | match ?o with _ => _ end = _ => destruct o
            end; try discriminate). }
  apply andb_true_iff in Hb as [H1 H2]. apply Z.eqb_eq in H1, H2.
  rewrite <- (Join_Split sp (TrimSuffix line nl)). fold f.
  unfold len in H1, H2.
  destruct f as [|[|c x] [|y f]]; cbn in H1, H2; try lia. reflexivity.
Qed.

Lemma malformed_line_Malformed (off : Z) (line : gostring) :
  malformed_line line -> readLine off line = Malformed.
Proof.
  intros Hm. destruct (readLine off line) as [|name k|] eqn:Hr; [| |reflexivity]; exfalso.
  - apply readLine_Blank in Hr. destruct Hm as [Hne _|p s Hright Hs _|p c Hright Hl _ _].
    + contradiction.
    + rewrite Hr in Hs. discriminate.
    + rewrite Hr in Hl. cbn in Hl. lia.
  - apply readLine_Stored in Hr as (q & Hq & Hrq & _ & _ & Hdec & Hshape).
    destruct Hm as [_ Hno|p s Hright Hs Hbad|p c Hright Hl Hc Hbad].
    + destruct (Hno q Hq Hrq). lia.
    + rewrite (rightmost_marker_unique _ _ _ Hright Hrq) in Hs.
      rewrite (nth_lookup_Some _ _ _ _ Hs) in Hdec. congruence.
    + rewrite (rightmost_marker_unique _ _ _ Hright Hrq) in Hl, Hc.
      rewrite (nth_lookup_Some _ _ _ _ Hc) in Hshape.
      destruct Hshape as [[? _]|(_ & Hlen & [n Hn] & _)]; [lia|].
      apply Hbad. split; [assumption|].
      apply ParseUint_Some in Hn as (_ & Hd & _).
      apply Forall_forall. intros x Hx%list_elem_of_In.
      now apply (proj1 (forallb_forall is_digit c) Hd).
Qed.

Lemma readKeychain_Ok (rt : Runtime) (file content : gostring) (w : World) :
  disk w = Some content -> io_fails (oracle rt (ticks w)) = false ->
  readKeychain rt file w
  = Ok (mkKeychain file content (ld_keys (parseKeychain file content)))
       (with_log (ld_log (parseKeychain file content)) (tick w)).
Proof.
  intros Hd He. unfold readKeychain, bind, syscall, get_disk. cbn.
  now rewrite Hd, He.
Qed.




(** ** Sorting *)

Lemma rev_reverse {A} (l : list A) : rev l = reverse l.
Proof. apply rev_alt. Qed.

Section sorting.
Context {A : Type} (less : A -> A -> bool).

Lemma insert_left_perm (x : A) (rp : list A) : insert_left less x rp ≡ₚ x :: rp.
Proof.
  induction rp as [|y rp IH]; [reflexivity|]. cbn.
  destruct (less x y); [|reflexivity].
  rewrite IH. apply perm_swap.
Qed.

Lemma sort_Slice_perm (l : list A) : sort_Slice less l ≡ₚ l.
Proof.
  unfold sort_Slice. rewrite rev_reverse, reverse_Permutation.
  assert (forall acc, fold_left (fun rp x => insert_left less x rp) l acc ≡ₚ l ++ acc)
    as H.
  { induction l as [|x l IH]; intros acc; [reflexivity|]. cbn.
    rewrite IH, insert_left_perm. now rewrite Permutation_middle. }
  now rewrite H, app_nil_r.
Qed.

Hypothesis less_asym : forall x y, less x y = true -> less y x = false.

Lemma insert_left_sorted (x : A) (rp : list A) :
  Sorted (fun a b => less a b = false) rp ->
  Sorted (fun a b => less a b = false) (insert_left less x rp).
Proof.
  induction 1 as [|y rp Hs IH Hhd]; cbn; [repeat constructor|].
  destruct (less x y) eqn:Hxy.
  - constructor; [assumption|].
    destruct Hhd as [|z rp Hyz]; cbn.
    + constructor. now apply less_asym.
    + destruct (less x z); constructor; [assumption|now apply less_asym].
  - repeat constructor; assumption.
Qed.

(** No element of the result is [less] than its predecessor. *)
Lemma sort_Slice_sorted (l : list A) :
  Sorted (fun a b => less b a = false) (sort_Slice less l).
Proof.
  unfold sort_Slice. rewrite rev_reverse.
  apply (Sorted_reverse (fun a b => less a b = false)).
  assert (forall acc, Sorted (fun a b => less a b = false) acc ->
            Sorted (fun a b => less a b = false)
                   (fold_left (fun rp x => insert_left less x rp) l acc)) as H.
  { induction l as [|x l IH]; intros acc Hacc; [assumption|].
    cbn. apply IH. now apply insert_left_sorted. }
  apply H. constructor.
Qed.

End sorting.

Lemma bytes_ltb_asym (a b : gostring) : bytes_ltb a b = true -> bytes_ltb b a = false.
Proof.
  revert b. induction a as [|c a IH]; intros [|d b]; cbn; try done.
  intros H. apply orb_true_iff in H as [H|[H1 H2]%andb_true_iff].
  - apply Z.ltb_lt in H.
    replace (byte_val d <? byte_val c) with false by (symmetry; apply Z.ltb_ge; lia).
    replace (byte_val d =? byte_val c) with false by (symmetry; apply Z.eqb_neq; lia).
    reflexivity.
  - apply Z.eqb_eq in H1. rewrite (IH b H2), andb_false_r, orb_false_r.
    apply Z.ltb_ge. lia.
Qed.

Lemma sort_Strings_perm (l : list gostring) : sort_Strings l ≡ₚ l.
Proof. apply sort_Slice_perm. Qed.

(** [sort.Strings] leaves the strings in lexicographic order. *)
Lemma sort_Strings_sorted (l : list gostring) :
  Sorted (fun a b => bytes_ltb b a = false) (sort_Strings l).
Proof. apply sort_Slice_sorted, bytes_ltb_asym. Qed.

(** ** The place of a counter in its line *)

Lemma TrimSuffix_cases (s : gostring) :
  (s = TrimSuffix s nl ++ [nl] /\ List.last s zero = nl)
  \/ (TrimSuffix s nl = s /\ List.last s zero <> nl).
Proof.
  induction s as [|c s IH]; [right; split; [reflexivity|discriminate]|].
  destruct s as [|d s].
  - cbn. destruct (Ascii.eqb_spec c nl) as [->|Hc]; [left|right]; done.
  - change (TrimSuffix (c :: d :: s) nl) with (c :: TrimSuffix (d :: s) nl).
    change (List.last (c :: d :: s) zero) with (List.last (d :: s) zero).
    destruct IH as [[IH1 IH2]|[IH1 IH2]]; [left|right]; split; try assumption.
    + cbn [app]. now rewrite <- IH1.
    + now rewrite IH1.
Qed.

Lemma digits_plain (s : gostring) (c : ascii) :
  forallb is_digit s = true -> c = sp \/ c = nl -> c ∉ s.
Proof.
  intros Hs Hc Hin%list_elem_of_In.
  pose proof (proj1 (forallb_forall is_digit s) Hs c Hin) as Hd.
  destruct Hc as [-> | ->]; discriminate.
Qed.

Lemma last_app_ne {A} (l1 l2 : list A) (d : A) :
  l2 <> [] -> List.last (l1 ++ l2) d = List.last l2 d.
Proof.
  intros H. induction l1 as [|x l1 IH]; [reflexivity|].
  cbn [app]. destruct (l1 ++ l2) eqn:E; [|exact IH].
  apply app_eq_nil in E as [_ ?]. congruence.
Qed.

Lemma last_elem_of {A} (l : list A) (d : A) : l <> [] -> List.last l d ∈ l.
Proof.
  induction l as [|x [|y l] IH]; intros H; [congruence|cbn; set_solver|].
  change (List.last (x :: y :: l) d) with (List.last (y :: l) d).
  apply elem_of_cons. right. now apply IH.
Qed.

Lemma Join_length_ge (fs : list gostring) (sep : ascii) :
  (length fs + length (concat fs) <= S (length (Join fs sep)))%nat.
Proof.
  induction fs as [|x fs IH]; [cbn; lia|]. destruct fs as [|y fs].
  - cbn. rewrite app_nil_r. lia.
  - change (Join (x :: y :: fs) sep) with (x ++ sep :: Join (y :: fs) sep).
    cbn [concat length] in *. rewrite !length_app in *. cbn [length]. lia.
Qed.

(** Only the fields before the last one decide where the digit field is. *)
Lemma digit_marker_last (g : list gostring) (x y : gostring) (j : nat) :
  x <> [] -> y <> [] -> digit_marker (g ++ [x]) j -> digit_marker (g ++ [y]) j.
Proof.
  intros Hx Hy [(c & Hc & Hin) (s & Hs & Hne)].
  assert (S j < length (g ++ [x]))%nat as Hj by now apply lookup_lt_Some in Hs.
  rewrite length_app in Hj. cbn in Hj.
  rewrite lookup_app_l in Hc by lia. split.
  - exists c. split; [|assumption]. now apply lookup_app_l_Some.
  - destruct (decide (S j < length g)%nat).
    + rewrite lookup_app_l in Hs by lia. exists s. split; [|assumption].
      now apply lookup_app_l_Some.
    + exists y. split; [|assumption]. apply list_lookup_middle. lia.
Qed.

Lemma rightmost_marker_last (g : list gostring) (x y : gostring) (p : nat) :
  x <> [] -> y <> [] ->
  rightmost_marker (g ++ [x]) p -> rightmost_marker (g ++ [y]) p.
Proof.
  intros Hx Hy [Hp Hmax]. split; [now apply (digit_marker_last g x y)|].
  intros j Hj. apply Hmax. now apply (digit_marker_last g y x).
Qed.

(** A stored line with a counter is [body ++ ctr ++ eol]; the recorded
    offset is that of [ctr] in the file, and the line is stored the same
    way whatever valid counter stands there. *)
Lemma counter_line_layout (off : Z) (line name : gostring) (k : Key) :
  readLine off line = Stored name k -> has_counter line ->
  exists body ctr eol,
    line = body ++ ctr ++ eol /\ (eol = [] \/ eol = [nl])
    /\ length ctr = 20%nat /\ is_Some (ParseUint ctr)
    /\ (5 <= length body)%nat
    /\ offset k = off - len line + len body
    /\ forall ctr', length ctr' = 20%nat -> is_Some (ParseUint ctr') ->
         readLine off (body ++ ctr' ++ eol) = Stored name k.
Proof.
  intros Hr (p0 & Hright0 & Hlen0).
  destruct (readLine_Stored _ _ _ _ Hr)
    as (p & Hp & Hright & Hname & Hdig & Hdec & Hcase).
  rewrite (rightmost_marker_unique _ _ _ Hright0 Hright) in Hlen0.
  destruct Hcase as [[? _]|(Hlen & Hclen & Hparse & Hko)]; [lia|].
  clear p0 Hright0 Hlen0.
  set (f := Split (TrimSuffix line nl) sp) in *.
  set (g := take (p + 2) f).
  set (ctr := nth (p + 2) f []) in *.
  assert (f !! (p + 2)%nat = Some ctr) as Hctr.
  { destruct (lookup_lt_is_Some_2 f (p + 2)) as [x Hx]; [lia|].
    subst ctr. now rewrite (nth_lookup_Some _ _ _ _ Hx). }
  assert (f = g ++ [ctr]) as Hf.
  { subst g. rewrite <- (take_drop (p + 2) f) at 1. f_equal.
    rewrite (drop_S _ _ _ Hctr), drop_ge by lia. reflexivity. }
  assert (length g = (p + 2)%nat) as Hg by (subst g; rewrite length_take; lia).
  assert (g <> []) as Hgne by (intros Hg0; rewrite Hg0 in Hg; cbn in Hg; lia).
  assert (ctr <> []) as Hcne by (intros Hc0; rewrite Hc0 in Hclen; discriminate).
  assert (TrimSuffix line nl = (Join g sp ++ [sp]) ++ ctr) as Htrim.
  { rewrite <- (Join_Split sp (TrimSuffix line nl)). fold f. rewrite Hf.
    rewrite Join_app by (assumption || discriminate). now rewrite <- app_assoc. }
  set (eol := if bool_decide (List.last line zero = nl) then [nl] else []).
  assert (line = (Join g sp ++ [sp]) ++ ctr ++ eol
          /\ (eol = [] \/ eol = [nl])) as [Hline Heol].
  { subst eol. destruct (TrimSuffix_cases line) as [[H1 H2]|[H1 H2]].
    - rewrite bool_decide_true by assumption. split; [|now right].
      rewrite H1 at 1. rewrite Htrim. now rewrite <- !app_assoc.
    - rewrite bool_decide_false by assumption. split; [|now left].
      rewrite <- H1 at 1. rewrite Htrim. now rewrite app_nil_r. }
  assert (Forall (fun x => sp ∉ x) g) as Hgsp.
  { pose proof (Split_fields sp (TrimSuffix line nl)) as Hall. fold f in Hall.
    rewrite Hf in Hall. now apply Forall_app in Hall as [? _]. }
  assert (length (Join g sp ++ [sp]) >= 5)%nat as Hbody.
  { pose proof (Join_length_ge g sp) as Hj. rewrite length_app. cbn.
    destruct Hright as [[(c & Hc & _) (s & Hs & Hsne)] _].
    assert (g !! p = Some [c]) as Hgp.
    { rewrite Hf, lookup_app_l in Hc by lia. assumption. }
    assert (g !! S p = Some s) as Hgs.
    { rewrite Hf, lookup_app_l in Hs by lia. assumption. }
    assert (g = take p g ++ [[c]; s]) as Hg2.
    { rewrite <- (take_drop p g) at 1. f_equal.
      rewrite (drop_S _ _ _ Hgp), (drop_S _ _ _ Hgs), drop_ge by lia. reflexivity. }
    rewrite Hg2, concat_app, length_app in Hj. cbn in Hj.
    rewrite length_app in Hj. cbn in Hj. rewrite <- Hg2 in Hj.
    destruct s; [congruence|]. cbn in Hj. rewrite length_take in Hj. lia. }
  exists (Join g sp ++ [sp]), ctr, eol.
  split; [assumption|]. split; [assumption|]. split; [assumption|].
  split; [assumption|]. split; [lia|]. split.
  { pose proof (f_equal length Hline) as Hll.
    rewrite !length_app, Hclen in Hll.
    rewrite Hko. unfold counter_offset, counterLen, len. rewrite length_app.
    subst eol. destruct (bool_decide (List.last line zero = nl)); cbn in *; lia. }
  intros ctr' Hclen' [n' Hparse'].
  assert (ctr' <> []) as Hcne' by (intros Hc0; rewrite Hc0 in Hclen'; discriminate).
  pose proof (ParseUint_Some _ _ Hparse') as (_ & Hdig' & _).
  set (line' := (Join g sp ++ [sp]) ++ ctr' ++ eol).
  assert (TrimSuffix line' nl = Join (g ++ [ctr']) sp
          /\ bool_decide (List.last line' zero = nl)
             = bool_decide (List.last line zero = nl)) as [Htrim' Hlast'].
  { rewrite Join_app by (assumption || discriminate). cbn [Join].
    subst line' eol. destruct (bool_decide (List.last line zero = nl)) eqn:Hb.
    - split.
      + rewrite !app_assoc. rewrite TrimSuffix_snoc. now rewrite <- app_assoc.
      + apply bool_decide_true. rewrite !app_assoc. now rewrite last_last.
    - rewrite app_nil_r.
      assert (List.last ((Join g sp ++ [sp]) ++ ctr') zero <> nl) as Hl.
      { rewrite last_app_ne by assumption. intros Hnl.
        apply (digits_plain ctr' nl Hdig'); [now right|].
        rewrite <- Hnl. now apply last_elem_of. }
      split; [|now apply bool_decide_false].
      destruct (TrimSuffix_cases ((Join g sp ++ [sp]) ++ ctr')) as [[_ ?]|[H1 _]];
        [contradiction|].
      rewrite H1. now rewrite <- app_assoc. }
  assert (Split (TrimSuffix line' nl) sp = g ++ [ctr']) as Hsplit'.
  { rewrite Htrim'. apply Split_Join; [now destruct g|].
    apply Forall_app. split; [assumption|]. constructor; [|constructor].
    apply digits_plain; [assumption|now left]. }
  pose proof (readLine_complete off line' p (raw k)) as Hc.
  cbv zeta in Hc. rewrite Hsplit' in Hc.
  assert (forall i, (i < p + 2)%nat -> nth i (g ++ [ctr']) [] = nth i f []) as Hnth.
  { intros i Hi. rewrite Hf, !nth_lookup, !lookup_app_l by lia. reflexivity. }
  rewrite (Hnth p), (Hnth (S p)) in Hc by lia.
  assert (nth (p + 2) (g ++ [ctr']) [] = ctr') as Hnc.
  { apply nth_lookup_Some with (d := []). apply list_lookup_middle. lia. }
  rewrite Hnc in Hc. rewrite Hc; [|assumption| |assumption].
  - rewrite decide_False by (rewrite length_app; cbn; lia).
    rewrite decide_True by (rewrite length_app; cbn; repeat split; eauto; lia).
    assert (take p (g ++ [ctr']) = take p f) as ->.
    { rewrite Hf, !take_app_le by lia. reflexivity. }
    rewrite <- Hname, <- Hdig. unfold counter_offset in *. rewrite Hlast', <- Hko.
    now destruct k.
  - rewrite Hf in Hright. now apply (rightmost_marker_last g ctr ctr').
Qed.

Lemma stored_has_counter (off : Z) (line name : gostring) (k : Key) :
  readLine off line = Stored name k -> offset k <> 0 -> has_counter line.
Proof.
  intros Hr Ho.
  destruct (readLine_Stored _ _ _ _ Hr)
    as (p & _ & Hright & _ & _ & _ & [[_ ?]|(Hlen & _)]); [contradiction|].
  now exists p.
Qed.

Lemma stored_counter_layout (off : Z) (line name : gostring) (k : Key) :
  readLine off line = Stored name k -> offset k <> 0 ->
  exists body ctr eol,
    line = body ++ ctr ++ eol /\ (eol = [] \/ eol = [nl])
    /\ length ctr = 20%nat /\ is_Some (ParseUint ctr)
    /\ (5 <= length body)%nat
    /\ offset k = off - len line + len body
    /\ forall ctr', length ctr' = 20%nat -> is_Some (ParseUint ctr') ->
         readLine off (body ++ ctr' ++ eol) = Stored name k.
Proof.
  intros Hr Ho. eapply counter_line_layout; eauto using stored_has_counter.
Qed.


(** ** Decimal counters *)

Lemma byte_val_of (z : Z) : 0 <= z < 256 -> byte_val (byte_of z) = z.
Proof.
  intros Hz. unfold byte_val, byte_of. rewrite Z.mod_small by lia.
  rewrite N_ascii_embedding by lia. lia.
Qed.

Lemma digit_char_val (d : Z) : 0 <= d <= 9 -> byte_val (digit_char d) = 48 + d.
Proof. intros Hd. unfold digit_char. apply byte_val_of. lia. Qed.

Lemma digit_char_is_digit (d : Z) : 0 <= d <= 9 -> is_digit (digit_char d) = true.
Proof.
  intros Hd. unfold is_digit. rewrite digit_char_val by assumption.
  apply andb_true_iff. split; apply Z.leb_le; lia.
Qed.

Lemma decimal_value_snoc (s : gostring) (c : ascii) :
  decimal_value (s ++ [c]) = decimal_value s * 10 + (byte_val c - 48).
Proof. unfold decimal_value. now rewrite fold_left_app. Qed.

Lemma decimal_aux_spec (fuel : nat) (n : Z) :
  0 <= n < 2 ^ Z.of_nat fuel ->
  decimal_value (decimal_aux fuel n) = n
  /\ forallb is_digit (decimal_aux fuel n) = true.
Proof.
  revert n. induction fuel as [|fuel IH]; intros n Hn.
  - cbn in *. split; [unfold decimal_value; cbn; lia|reflexivity].
  - cbn [decimal_aux]. destruct (Z.leb_spec n 0) as [H0|H0].
    + split; [unfold decimal_value; cbn; lia|reflexivity].
    + rewrite Nat2Z.inj_succ, Z.pow_succ_r in Hn by lia.
      destruct (IH (n / 10)) as [IH1 IH2].
      { split; [apply Z.div_pos; lia|].
        apply Z.div_lt_upper_bound; lia. }
      pose proof (Z.mod_pos_bound n 10 ltac:(lia)) as Hm.
      split.
      * rewrite decimal_value_snoc, IH1, digit_char_val by lia.
        pose proof (Z.div_mod n 10 ltac:(lia)). lia.
      * rewrite forallb_app, IH2. cbn. rewrite digit_char_is_digit by lia. reflexivity.
Qed.

Lemma decimal_aux_length (fuel : nat) (n : Z) (k : nat) :
  n < 10 ^ Z.of_nat k -> (length (decimal_aux fuel n) <= k)%nat.
Proof.
  revert n k. induction fuel as [|fuel IH]; intros n k Hn; [cbn; lia|].
  cbn [decimal_aux]. destruct (Z.leb_spec n 0) as [H0|H0]; [cbn; lia|].
  destruct k as [|k]; [cbn in Hn; lia|].
  rewrite Nat2Z.inj_succ, Z.pow_succ_r in Hn by lia.
  rewrite length_app. cbn.
  assert (length (decimal_aux fuel (n / 10)) <= k)%nat; [|lia].
  apply IH. apply Z.div_lt_upper_bound; lia.
Qed.

Lemma Itoa_spec (n : Z) :
  0 <= n ->
  decimal_value (Itoa n) = n /\ forallb is_digit (Itoa n) = true /\ Itoa n <> [].
Proof.
  intros Hn. unfold Itoa. destruct (Z.leb_spec n 0) as [H0|H0].
  - assert (n = 0) as -> by lia. repeat split; discriminate.
  - destruct (decimal_aux_spec (S (Z.to_nat (Z.log2 n))) n) as [H1 H2].
    { pose proof (Z.log2_spec n H0) as Hl. pose proof (Z.log2_nonneg n).
      rewrite Nat2Z.inj_succ, Z2Nat.id by lia. lia. }
    repeat split; try assumption.
    intros He. rewrite He in H1. unfold decimal_value in H1. cbn in H1. lia.
Qed.

Lemma decimal_value_zeros (j : nat) (s : gostring) :
  decimal_value (repeat (digit_char 0) j ++ s) = decimal_value s.
Proof.
  unfold decimal_value. rewrite fold_left_app. f_equal.
  induction j as [|j IH]; [reflexivity|]. cbn [repeat fold_left].
  exact IH.
Qed.

(** A 64-bit counter is written on exactly 20 digits and read back. *)
Lemma counter_roundtrip (m : Z) :
  0 <= m < 2 ^ 64 ->
  length (Sprintf_0d counterLen m) = 20%nat
  /\ ParseUint (Sprintf_0d counterLen m) = Some m.
Proof.
  intros Hm. destruct (Itoa_spec m) as (Hv & Hd & Hne); [lia|].
  assert (length (Itoa m) <= 20)%nat as Hlen.
  { unfold Itoa. destruct (Z.leb_spec m 0); [cbn; lia|].
    apply decimal_aux_length. change (10 ^ Z.of_nat 20) with 100000000000000000000.
    change (2 ^ 64) with 18446744073709551616 in Hm. lia. }
  unfold Sprintf_0d, Repeat, counterLen, len. change (20 <? 0) with false. cbv iota.
  split.
  - rewrite length_app, repeat_length. lia.
  - unfold ParseUint. rewrite bool_decide_false; cycle 1.
    { intros He. apply app_eq_nil in He as [_ ?]. contradiction. }
    rewrite forallb_app, Hd, andb_true_r.
    replace (forallb is_digit (repeat (digit_char 0) _)) with true; cycle 1.
    { symmetry. apply forallb_forall. intros x Hx. apply repeat_spec in Hx. now subst. }
    fold (decimal_value (repeat (digit_char 0) (Z.to_nat (20 - Z.of_nat (length (Itoa m))))
                         ++ Itoa m)).
    rewrite decimal_value_zeros, Hv.
    destruct (Z.ltb_spec m (2 ^ 64)); [reflexivity|lia].
Qed.

(** ** Positioned writes *)

Lemma WriteAt_inside (pre old post b : gostring) :
  length old = length b ->
  WriteAt (pre ++ old ++ post) b (len pre) = pre ++ b ++ post.
Proof.
  intros Hl. unfold WriteAt, len. rewrite Nat2Z.id.
  rewrite take_app_length, length_app.
  replace (length pre - (length pre + length (old ++ post)))%nat with 0%nat by lia.
  cbn [repeat app]. rewrite drop_app_add', <- Hl by reflexivity.
  now rewrite drop_app_length.
Qed.

Lemma slice_inside {A} (pre x post : list A) :
  slice (pre ++ x ++ post) (len pre) (len pre + len x) = Some x.
Proof.
  unfold slice, len. rewrite !length_app.
  replace ((0 <=? Z.of_nat (length pre))
           && (Z.of_nat (length pre) <=? Z.of_nat (length pre) + Z.of_nat (length x))
           && (Z.of_nat (length pre) + Z.of_nat (length x)
               <=? Z.of_nat (length pre + (length x + length post))))
    with true; cycle 1.
  { symmetry. rewrite !andb_true_iff, !Z.leb_le. lia. }
  rewrite Nat2Z.id, drop_app_length.
  replace (Z.to_nat (Z.of_nat (length pre) + Z.of_nat (length x) - Z.of_nat (length pre)))
    with (length x) by lia.
  now rewrite take_app_length.
Qed.

(** Whatever the file holds, the bytes written are found at the offset. *)
Lemma WriteAt_read (content b : gostring) (off : Z) :
  0 <= off -> slice (WriteAt content b off) off (off + len b) = Some b.
Proof.
  intros Hoff. unfold WriteAt.
  set (pre := take (Z.to_nat off) content
              ++ repeat zero (Z.to_nat off - length content)).
  assert (len pre = off) as Hpre.
  { subst pre. unfold len. rewrite length_app, length_take, repeat_length. lia. }
  rewrite app_assoc. fold pre. rewrite <- Hpre at 2 3. apply slice_inside.
Qed.

(** ** code *)

Lemma code_totp (rt : Runtime) (c : Keychain) (name : gostring) (k : Key) (w : World) :
  keys c !! name = Some k -> offset k = 0 ->
  code rt c name w
  = Ok (Sprintf_0d (digits k)
          (totp (raw k) (clock (oracle rt (ticks w))) (digits k)))
       (tick w).
Proof. intros Hk Ho. unfold code. rewrite Hk, Ho. reflexivity. Qed.

(** The successful run of [code] for a counter-based key. *)
Lemma code_hotp (rt : Runtime) (c : Keychain) (name : gostring) (k : Key)
    (m : Z) (content : gostring) (w : World) :
  keys c !! name = Some k -> offset k <> 0 ->
  next_counter c name = Some m ->
  disk w = Some content ->
  io_fails (oracle rt (ticks w)) = false ->
  io_fails (oracle rt (S (ticks w))) = false ->
  io_fails (oracle rt (S (S (ticks w)))) = false ->
  code rt c name w
  = Ok (Sprintf_0d (digits k) (hotp (raw k) m (digits k)))
       (tick (with_disk (Some (WriteAt content (Sprintf_0d counterLen m) (offset k)))
                        (tick (tick w)))).
Proof.
  intros Hk Ho Hm Hd H1 H2 H3. unfold next_counter in Hm. rewrite Hk in Hm.
  unfold code. rewrite Hk.
  destruct (Z.eqb_spec (offset k) 0) as [|_]; [contradiction|]. cbn [negb].
  destruct (slice (data c) (offset k) (offset k + counterLen)) as [field|];
    [|discriminate].
  destruct (ParseUint field) as [n|]; [|discriminate]. injection Hm as <-.
  unfold bind, syscall, get_disk, set_disk, ret, tick, with_disk, log_Fatalf.
  cbn. rewrite Hd. cbn. rewrite H1. cbn. rewrite H2. cbn. rewrite H3. reflexivity.
Qed.

(** Every way in which [code] ends for a counter-based key. *)
Lemma code_hotp_cases (rt : Runtime) (c : Keychain) (name : gostring) (k : Key)
    (w : World) :
  keys c !! name = Some k -> offset k <> 0 ->
  match code rt c name w with
  | Ok s w' =>
      exists m content,
        next_counter c name = Some m /\ disk w = Some content
        /\ s = Sprintf_0d (digits k) (hotp (raw k) m (digits k))
        /\ disk w' = Some (WriteAt content (Sprintf_0d counterLen m) (offset k))
        /\ stdout w' = stdout w
        /\ io_fails (oracle rt (ticks w)) = false
        /\ io_fails (oracle rt (S (ticks w))) = false
        /\ io_fails (oracle rt (S (S (ticks w)))) = false
  | Fatal e w' =>
      stdout w' = stdout w
      /\ ((exists field, e = MalformedCounter name field
             /\ slice (data c) (offset k) (offset k + counterLen) = Some field
             /\ ParseUint field = None /\ w' = w)
          \/ (e = OpeningKeychain /\ disk w' = disk w
              /\ (disk w = None \/ io_fails (oracle rt (ticks w)) = true))
          \/ (e = UpdatingKeychain
              /\ (io_fails (oracle rt (S (ticks w))) = true
                  \/ io_fails (oracle rt (S (S (ticks w)))) = true)))
  | Exit _ _ => False
  | Panic => slice (data c) (offset k) (offset k + counterLen) = None
  end.
Proof.
  intros Hk Ho. unfold next_counter, code. rewrite Hk.
  destruct (Z.eqb_spec (offset k) 0) as [|_]; [contradiction|]. cbn [negb].
  unfold bind, syscall, get_disk, set_disk, ret, tick, with_disk, log_Fatalf, panic.
  destruct (slice (data c) (offset k) (offset k + counterLen)) as [field|];
    [|reflexivity].
  destruct (ParseUint field) as [n|] eqn:Hn.
  2:{ cbn. split; [reflexivity|]. left. eauto. }
  destruct (disk w) as [content|] eqn:Hd;
    destruct (io_fails (oracle rt (ticks w))) eqn:H1;
    destruct (io_fails (oracle rt (S (ticks w)))) eqn:H2;
    destruct (io_fails (oracle rt (S (S (ticks w))))) eqn:H3;
    cbn; rewrite ?Hd; cbn; rewrite ?H1; cbn; rewrite ?H2; cbn; rewrite ?H3; cbn;
    try (split; [reflexivity|];
         first [ right; left; repeat split; auto; fail
               | right; right; repeat split; auto; fail ]).
  exists (uint64 (n + 1)), content. repeat split; reflexivity.
Qed.

(** ** Loading the file again after a counter was written *)

Lemma parse_lines_ext (file : gostring) (ls ls' : list gostring) :
  length ls = length ls' ->
  (forall j l l', ls !! j = Some l -> ls' !! j = Some l' ->
     length l = length l'
     /\ readLine (offset_after ls j) l = readLine (offset_after ls j) l') ->
  parse_lines file ls = parse_lines file ls'.
Proof.
  revert ls'. induction ls as [|l ls IH] using rev_ind; intros ls' Hlen Hall.
  - destruct ls'; [reflexivity|discriminate].
  - destruct ls' as [|l' ls' _] using rev_ind.
    { rewrite length_app in Hlen. cbn in Hlen. lia. }
    rewrite !length_app in Hlen. cbn in Hlen.
    assert (parse_lines file ls = parse_lines file ls') as Heq.
    { apply IH; [lia|]. intros j x x' Hx Hx'.
      pose proof (lookup_lt_Some _ _ _ Hx) as Hj.
      destruct (Hall j x x') as [H1 H2];
        [now apply lookup_app_l_Some|now apply lookup_app_l_Some|].
      rewrite offset_after_snoc_l in H2 by assumption. auto. }
    destruct (Hall (length ls) l l') as [H1 H2].
    { now apply list_lookup_middle. }
    { apply list_lookup_middle. lia. }
    rewrite offset_after_snoc_r in H2.
    rewrite !parse_lines_step. cbv zeta.
    pose proof (f_equal ld_offset Heq) as Hoff. rewrite !parse_lines_offset in Hoff.
    rewrite <- Heq, <- Hoff.
    replace (len l') with (len l) by (unfold len; lia).
    replace (length ls') with (length ls) by lia.
    now rewrite <- H2.
Qed.

Lemma lines_of_lookup (ls : list gostring) (i : nat) (l : gostring) :
  lines_of nl ls -> ls !! i = Some l ->
  nl ∉ l \/ exists x, l = x ++ [nl] /\ nl ∉ x.
Proof.
  intros Hls. revert i. induction Hls as [x Hx|body ls Hb Hls IH]; intros [|i] Hl;
    cbn in Hl; try discriminate.
  - injection Hl as <-. now left.
  - injection Hl as <-. right. eauto.
  - eauto.
Qed.

Lemma lines_of_insert (ls : list gostring) (i : nat) (l l' : gostring) :
  lines_of nl ls -> ls !! i = Some l -> same_ending l l' ->
  lines_of nl (<[i := l']> ls).
Proof.
  intros Hls. revert i. induction Hls as [x Hx|body ls Hb Hls IH]; intros [|i] Hl Hsame;
    cbn in Hl; try discriminate.
  - injection Hl as <-. cbn. constructor.
    destruct Hsame as [[_ ?]|(y & y' & -> & _)]; [assumption|].
    destruct Hx. apply elem_of_app. right. set_solver.
  - injection Hl as <-. cbn.
    destruct Hsame as [[Hn _]|(y & y' & Hy & -> & _ & Hy')].
    + destruct Hn. apply elem_of_app. right. set_solver.
    + now constructor.
  - cbn. constructor; [assumption|]. now apply IH.
Qed.

Lemma nl_not_digit (s : gostring) (n : Z) : ParseUint s = Some n -> nl ∉ s.
Proof.
  intros (_ & Hd & _)%ParseUint_Some. apply digits_plain; [assumption|now right].
Qed.

(** Where the counter of a loaded key lies in the file. *)
Lemma loaded_counter_position (file content name : gostring) (k : Key) :
  ld_keys (parseKeychain file content) !! name = Some k -> offset k <> 0 ->
  exists i body ctr eol,
    SplitAfter content nl !! i = Some (body ++ ctr ++ eol)
    /\ offset k = len (concat (take i (SplitAfter content nl)) ++ body)
    /\ length ctr = 20%nat /\ is_Some (ParseUint ctr)
    /\ (forall ctr', length ctr' = 20%nat -> is_Some (ParseUint ctr') ->
          same_ending (body ++ ctr ++ eol) (body ++ ctr' ++ eol)
          /\ readLine (offset_after (SplitAfter content nl) i) (body ++ ctr' ++ eol)
             = readLine (offset_after (SplitAfter content nl) i) (body ++ ctr ++ eol)).
Proof.
  intros Hk Ho. rewrite parseKeychain_lines in Hk.
  apply parse_lines_keys in Hk as (i & (line & Hl & Hr) & _).
  destruct (stored_counter_layout _ _ _ _ Hr Ho)
    as (body & ctr & eol & -> & Heol & Hclen & Hparse & _ & Hoff & Hany).
  exists i, body, ctr, eol. split; [assumption|]. split.
  { rewrite Hoff. unfold offset_after. rewrite (take_S_r _ _ _ Hl), concat_app.
    cbn [concat]. rewrite app_nil_r. unfold len. rewrite !length_app. lia. }
  split; [assumption|]. split; [assumption|].
  intros ctr' Hclen' Hparse'. split; [|now rewrite Hr, Hany].
  destruct Hparse as [n Hn], Hparse' as [n' Hn'].
  pose proof (nl_not_digit _ _ Hn) as Hc. pose proof (nl_not_digit _ _ Hn') as Hc'.
  assert (ctr <> []) as Hcne by (intros ->; discriminate).
  destruct (lines_of_lookup _ _ _ (SplitAfter_lines nl content) Hl)
    as [Hno|(x & Hx & Hxno)].
  - assert (eol = []) as ->.
    { destruct Heol as [->| ->]; [reflexivity|]. destruct Hno.
      rewrite !elem_of_app. right. right. set_solver. }
    left. split; [assumption|]. rewrite app_nil_r in *.
    rewrite elem_of_app in *. tauto.
  - destruct Heol as [->| ->].
    + rewrite app_nil_r in Hx. destruct Hc.
      assert (List.last (body ++ ctr) zero = nl) as Hlast by (rewrite Hx; apply last_last).
      rewrite last_app_ne in Hlast by assumption.
      rewrite <- Hlast. now apply last_elem_of.
    + right. exists (body ++ ctr), (body ++ ctr').
      rewrite !app_assoc in Hx. apply app_inj_tail in Hx as [Hx _].
      rewrite <- !app_assoc. repeat split; try reflexivity.
      * now rewrite Hx.
      * rewrite <- Hx, elem_of_app in Hxno. rewrite elem_of_app. tauto.
Qed.

(** The counter that the loader accepted is the one [code] reads. *)
Lemma loaded_counter_valid (file content name : gostring) (k : Key) :
  ld_keys (parseKeychain file content) !! name = Some k -> offset k <> 0 ->
  exists ctr n,
    slice content (offset k) (offset k + counterLen) = Some ctr
    /\ ParseUint ctr = Some n /\ 5 <= offset k.
Proof.
  intros Hk Ho. rewrite parseKeychain_lines in Hk.
  apply parse_lines_keys in Hk as (i & (line & Hl & Hr) & _).
  destruct (stored_counter_layout _ _ _ _ Hr Ho)
    as (body & ctr & eol & -> & Heol & Hclen & [n Hparse] & Hbody & Hoff & _).
  exists ctr, n. split; [|split; [assumption|]].
  - rewrite <- (SplitAfter_concat nl content) at 1.
    rewrite <- (take_drop_middle _ _ _ Hl), concat_app. cbn [concat].
    assert (offset k = len (concat (take i (SplitAfter content nl)) ++ body)) as ->.
    { rewrite Hoff. unfold offset_after. rewrite (take_S_r _ _ _ Hl), concat_app.
      cbn [concat]. rewrite app_nil_r. unfold len. rewrite !length_app. lia. }
    replace counterLen with (len ctr) by (unfold len, counterLen; lia).
    rewrite <- !app_assoc, (app_assoc (concat _) body). apply slice_inside.
  - rewrite Hoff. unfold offset_after. rewrite (take_S_r _ _ _ Hl), concat_app.
    cbn [concat]. rewrite app_nil_r. unfold len. rewrite !length_app. lia.
Qed.

(** Writing a valid counter over the counter of a loaded key changes
    nothing in what the loader reads from the file. *)
Lemma reload_after_write (file content name b : gostring) (k : Key) :
  ld_keys (parseKeychain file content) !! name = Some k -> offset k <> 0 ->
  length b = 20%nat -> is_Some (ParseUint b) ->
  parseKeychain file (WriteAt content b (offset k)) = parseKeychain file content
  /\ length (WriteAt content b (offset k)) = length content.
Proof.
  intros Hk Ho Hb Hparse.
  destruct (loaded_counter_position _ _ _ _ Hk Ho)
    as (i & body & ctr & eol & Hl & Hoff & Hclen & _ & Hany).
  destruct (Hany b Hb Hparse) as [Hsame Hread].
  pose proof (SplitAfter_concat nl content) as Hcat.
  pose proof (SplitAfter_lines nl content) as Hlines.
  rewrite !parseKeychain_lines.
  remember (SplitAfter content nl) as ls eqn:Hls.
  set (line' := body ++ b ++ eol) in *.
  assert (i < length ls)%nat as Hi by now apply lookup_lt_Some in Hl.
  assert (content = concat (take i ls) ++ body ++ ctr ++ eol ++ concat (drop (S i) ls))
    as Hcontent.
  { rewrite <- Hcat. rewrite <- (take_drop_middle _ _ _ Hl) at 1.
    rewrite concat_app. cbn [concat]. now rewrite <- !app_assoc. }
  assert (WriteAt content b (offset k) = concat (<[i := line']> ls)) as Hw.
  { rewrite Hcontent, Hoff, (app_assoc (concat _) body).
    rewrite WriteAt_inside by lia.
    rewrite insert_take_drop by assumption.
    rewrite concat_app. cbn [concat]. subst line'. now rewrite <- !app_assoc. }
  split.
  - rewrite Hw.
    rewrite SplitAfter_unique by (eapply lines_of_insert; eauto).
    symmetry. apply parse_lines_ext; [now rewrite length_insert|].
    intros j l l' Hj Hj'. destruct (decide (j = i)) as [->|Hne].
    + rewrite list_lookup_insert_eq in Hj' by assumption.
      injection Hj' as <-. rewrite Hl in Hj. injection Hj as <-.
      split; [|now rewrite Hread]. subst line'. rewrite !length_app. lia.
    + rewrite list_lookup_insert_ne in Hj' by congruence.
      rewrite Hj in Hj'. injection Hj' as <-. auto.
  - rewrite Hw, insert_take_drop by assumption. rewrite Hcontent.
    rewrite !concat_app. cbn [concat]. subst line'.
    rewrite !length_app. lia.
Qed.

(** ** Advancing a counter *)

Lemma uint64_range (x : Z) : 0 <= uint64 x < 2 ^ 64.
Proof. unfold uint64. apply Z.mod_pos_bound. lia. Qed.

Lemma uint64_succ_ne (m : Z) : 0 <= m < 2 ^ 64 -> uint64 (m + 1) <> m.
Proof.
  intros Hm. unfold uint64. destruct (decide (m + 1 < 2 ^ 64)).
  - rewrite Z.mod_small by lia. lia.
  - replace (m + 1) with (2 ^ 64) by lia. rewrite Z.mod_same by lia. lia.
Qed.

Lemma WriteAt_frame (content b : gostring) (off : Z) :
  0 <= off -> off + len b <= len content ->
  WriteAt content b off
  = take (Z.to_nat off) content ++ b ++ drop (Z.to_nat off + length b) content.
Proof.
  intros H0 Hle. unfold WriteAt, len in *.
  replace (Z.to_nat off - length content)%nat with 0%nat by lia. reflexivity.
Qed.

Lemma slice_Some_range {A} (s x : list A) (lo hi : Z) :
  slice s lo hi = Some x -> 0 <= lo /\ lo <= hi /\ hi <= len s.
Proof.
  unfold slice. destruct ((0 <=? lo) && (lo <=? hi) && (hi <=? len s)) eqn:H;
    [|discriminate].
  intros _. apply andb_true_iff in H as [[H1 H2]%andb_true_iff H3].
  apply Z.leb_le in H1, H2, H3. auto.
Qed.

(** One run on a loaded file: the counter [n] of the file is replaced by
    [n + 1] and the code is computed from [n + 1]. *)
Lemma run_code_hotp (rt : Runtime) (file content name : gostring) (k : Key) (w : World) :
  no_faults rt -> disk w = Some content ->
  ld_keys (parseKeychain file content) !! name = Some k -> offset k <> 0 ->
  exists ctr n w',
    slice content (offset k) (offset k + counterLen) = Some ctr
    /\ ParseUint ctr = Some n
    /\ run_code rt file name w
       = Ok (Sprintf_0d (digits k) (hotp (raw k) (uint64 (n + 1)) (digits k))) w'
    /\ disk w'
       = Some (WriteAt content (Sprintf_0d counterLen (uint64 (n + 1))) (offset k))
    /\ parseKeychain file
         (WriteAt content (Sprintf_0d counterLen (uint64 (n + 1))) (offset k))
       = parseKeychain file content
    /\ slice (WriteAt content (Sprintf_0d counterLen (uint64 (n + 1))) (offset k))
             (offset k) (offset k + counterLen)
       = Some (Sprintf_0d counterLen (uint64 (n + 1))).
Proof.
  intros Hrt Hd Hk Ho.
  destruct (loaded_counter_valid _ _ _ _ Hk Ho) as (ctr & n & Hs & Hn & Hpos).
  destruct (counter_roundtrip (uint64 (n + 1)) (uint64_range _)) as [Hlen Hparse].
  exists ctr, n. eexists. split; [assumption|]. split; [assumption|].
  unfold run_code, bind. rewrite (readKeychain_Ok rt file content w Hd (Hrt _)).
  erewrite code_hotp; cbn [keys data disk with_log tick ticks]; eauto.
  2:{ unfold next_counter. cbn [keys data]. now rewrite Hk, Hs, Hn. }
  split; [reflexivity|]. split; [reflexivity|]. split.
  - eapply proj1, reload_after_write; eauto.
  - pose proof (WriteAt_read content (Sprintf_0d counterLen (uint64 (n + 1)))
                              (offset k)) as Hread.
    unfold len in Hread. rewrite Hlen in Hread. apply Hread. lia.
Qed.

(** Two calls of [code] on one loaded keychain use the same counter: the
    second call reads the bytes retained at load time, not the file, whose
    counter the first call has advanced; and the counter after
    18446744073709551615 is 0. *)
Lemma advance_twice_same_counter :
  (exists w,
     code_twice (quiet 0) home_2fa (lit "acme")
       (world_of (file_of ["acme 6 ORSXG5A= 00000000000000000007"]))
     = Ok (lit "724925", lit "724925") w
     /\ disk w = Some (file_of ["acme 6 ORSXG5A= 00000000000000000008"]))
  /\ decodeKey (lit "ORSXG5A=") = Some (lit "test")
  /\ hotp (lit "test") 8 6 = 724925 /\ hotp (lit "test") 9 6 = 773742
  /\ (exists w,
        run_code (quiet 0) home_2fa (lit "acme")
          (world_of (file_of ["acme 6 ORSXG5A= 18446744073709551615"]))
        = Ok (Sprintf_0d 6 (hotp (lit "test") 0 6)) w
        /\ disk w = Some (file_of ["acme 6 ORSXG5A= 00000000000000000000"])).
Proof.
  split; [|split; [|split; [|split]]].
  - eexists. split; vm_compute; reflexivity.
  - vm_compute. reflexivity.
  - vm_compute. reflexivity.
  - vm_compute. reflexivity.
  - eexists. split; vm_compute; reflexivity.
Qed.

(** C1 (amended).  For a counter-based key of a loaded file, a run reads
    the 20-digit counter [n] at the recorded offset of the bytes it
    loaded, computes the code from [n + 1] (as a [uint64]) and writes
    [n + 1] on 20 digits at that offset of the file, all other bytes
    staying as they are; a second run, which loads the file again, does
    the same from [n + 1].  The two counters differ, and they are [n + 1]
    and [n + 2] unless the 64-bit counter wraps. *)
Theorem counter_advance (rt : Runtime) (file content name : gostring)
    (k : Key) (w : World) :
  no_faults rt -> disk w = Some content ->
  ld_keys (parseKeychain file content) !! name = Some k -> offset k <> 0 ->
  exists ctr n s1 w1 s2 w2,
    slice content (offset k) (offset k + counterLen) = Some ctr
    /\ ParseUint ctr = Some n
    /\ run_code rt file name w = Ok s1 w1
    /\ s1 = Sprintf_0d (digits k) (hotp (raw k) (uint64 (n + 1)) (digits k))
    /\ disk w1
       = Some (take (Z.to_nat (offset k)) content
               ++ Sprintf_0d counterLen (uint64 (n + 1))
               ++ drop (Z.to_nat (offset k) + 20) content)
    /\ run_code rt file name w1 = Ok s2 w2
    /\ s2 = Sprintf_0d (digits k)
              (hotp (raw k) (uint64 (uint64 (n + 1) + 1)) (digits k))
    /\ disk w2
       = Some (take (Z.to_nat (offset k)) content
               ++ Sprintf_0d counterLen (uint64 (uint64 (n + 1) + 1))
               ++ drop (Z.to_nat (offset k) + 20) content)
    /\ length (Sprintf_0d counterLen (uint64 (n + 1))) = 20%nat
    /\ length (Sprintf_0d counterLen (uint64 (uint64 (n + 1) + 1))) = 20%nat
    /\ uint64 (n + 1) <> uint64 (uint64 (n + 1) + 1)
    /\ (n + 2 < 2 ^ 64 ->
        uint64 (n + 1) = n + 1 /\ uint64 (uint64 (n + 1) + 1) = n + 2).
Proof.
  intros Hrt Hd Hk Ho.
  destruct (run_code_hotp rt file content name k w Hrt Hd Hk Ho)
    as (ctr & n & w1 & Hs & Hn & Hrun1 & Hd1 & Hre1 & Hs1).
  set (m1 := uint64 (n + 1)) in *.
  set (content1 := WriteAt content (Sprintf_0d counterLen m1) (offset k)) in *.
  assert (ld_keys (parseKeychain file content1) !! name = Some k) as Hk1
    by now rewrite Hre1.
  destruct (run_code_hotp rt file content1 name k w1 Hrt Hd1 Hk1 Ho)
    as (ctr' & n' & w2 & Hs' & Hn' & Hrun2 & Hd2 & _ & _).
  destruct (counter_roundtrip m1 (uint64_range _)) as [Hlen1 Hparse1].
  rewrite Hs1 in Hs'. injection Hs' as <-.
  rewrite Hparse1 in Hn'. injection Hn' as <-.
  set (m2 := uint64 (m1 + 1)) in *.
  destruct (counter_roundtrip m2 (uint64_range _)) as [Hlen2 _].
  destruct (slice_Some_range _ _ _ _ Hs) as (H0 & _ & Hhi).
  unfold counterLen in Hhi.
  assert (content1 = take (Z.to_nat (offset k)) content
                     ++ Sprintf_0d counterLen m1
                     ++ drop (Z.to_nat (offset k) + 20) content) as Hc1.
  { subst content1. rewrite WriteAt_frame; [now rewrite Hlen1|lia|].
    unfold len in *. rewrite Hlen1. lia. }
  assert (length content1 = length content) as Hl1.
  { eapply proj2, reload_after_write; eauto. }
  assert (WriteAt content1 (Sprintf_0d counterLen m2) (offset k)
          = take (Z.to_nat (offset k)) content
            ++ Sprintf_0d counterLen m2
            ++ drop (Z.to_nat (offset k) + 20) content) as Hc2.
  { rewrite WriteAt_frame; [|lia|unfold len in *; rewrite Hlen2; lia].
    rewrite Hlen2. rewrite Hc1 at 1. rewrite take_app_length'; cycle 1.
    { rewrite length_take. unfold len in Hhi. lia. }
    f_equal. f_equal. rewrite Hc1.
    rewrite drop_app_add'; cycle 1.
    { rewrite length_take. unfold len in Hhi. lia. }
    rewrite <- Hlen1 at 1. now rewrite drop_app_length. }
  exists ctr, n. eexists _, w1, _, w2.
  split; [assumption|]. split; [assumption|]. split; [exact Hrun1|].
  split; [reflexivity|]. split; [now rewrite Hd1, Hc1|].
  split; [exact Hrun2|]. split; [reflexivity|]. split; [now rewrite Hd2, Hc2|].
  split; [assumption|]. split; [assumption|]. split.
  - intros Heq. apply (uint64_succ_ne m1 (uint64_range _)). now symmetry.
  - intros Hlt. apply ParseUint_Some in Hn as (_ & Hdig & Hval & _).
    assert (0 <= n) as Hn0.
    { rewrite Hval. clear -Hdig. fold (decimal_value ctr).
      induction ctr as [|c ctr IH] using rev_ind; [unfold decimal_value; cbn; lia|].
      rewrite forallb_app in Hdig. apply andb_true_iff in Hdig as [H1 H2].
      rewrite decimal_value_snoc. specialize (IH H1). cbn in H2.
      unfold is_digit in H2. rewrite andb_true_r in H2.
      apply andb_true_iff in H2 as [H2 _]. apply Z.leb_le in H2. lia. }
    subst m2 m1. unfold uint64. rewrite !Z.mod_small by (rewrite ?Z.mod_small; lia).
    lia.
Qed.

Lemma counter_advance_witness :
  exists s1 w1 s2 w2,
    run_code (quiet 0) home_2fa (lit "acme")
      (world_of (file_of ["acme 6 ORSXG5A= 00000000000000000007"])) = Ok s1 w1
    /\ run_code (quiet 0) home_2fa (lit "acme") w1 = Ok s2 w2.
Proof.
  destruct (counter_advance (quiet 0) home_2fa
              (file_of ["acme 6 ORSXG5A= 00000000000000000007"]) (lit "acme")
              (mkKey (lit "test") 6 16)
              (world_of (file_of ["acme 6 ORSXG5A= 00000000000000000007"])))
    as (ctr & n & s1 & w1 & s2 & w2 & _ & _ & H1 & _ & _ & H2 & _).
  - intros t. reflexivity.
  - reflexivity.
  - vm_compute. reflexivity.
  - discriminate.
  - exists s1, w1, s2, w2. split; assumption.
Defined.

(** ** A code is returned only after its counter is written *)





(** ** showAll *)




(** ** Resolving a name *)

Lemma RankFind_targets (source : gostring) (targets : list gostring) :
  fuzzy.Target <$> fuzzy.RankFind source targets
  = filter (fun t => fuzzy.Match source t = true) targets.
Proof.
  unfold fuzzy.RankFind.
  assert (forall (h : nat -> nat),
    fuzzy.Target <$>
      omap (fun it : nat * gostring =>
              let '(index, target) := it in
              if fuzzy.Match source target
              then Some (fuzzy.mkRank source target
                           (fuzzy.LevenshteinDistance source target) (Z.of_nat index))
              else None)
           (imap (fun i t => (h i, t)) targets)
    = filter (fun t => fuzzy.Match source t = true) targets) as H.
  { induction targets as [|t ts IH]; intros h; [reflexivity|].
    rewrite imap_cons. cbn [omap list_omap]. rewrite filter_cons.
    specialize (IH (h ∘ S)). unfold compose in IH.
    destruct (fuzzy.Match source t) eqn:Hm.
    - rewrite decide_True by reflexivity. cbn. f_equal. exact IH.
    - rewrite decide_False by discriminate. exact IH. }
  exact (H (fun i => i)).
Qed.

Lemma filter_fmap_comm {A B} (f : A -> B) (P : B -> Prop)
    `{forall y, Decision (P y)} (l : list A) :
  filter P (f <$> l) = f <$> filter (fun x => P (f x)) l.
Proof.
  induction l as [|x l IH]; [reflexivity|]. cbn [fmap list_fmap].
  rewrite !filter_cons. destruct (decide (P (f x))); cbn; now rewrite IH.
Qed.

Lemma flat_map_fmap {A B C} (f : B -> list C) (g : A -> B) (l : list A) :
  flat_map f (g <$> l) = flat_map (fun x => f (g x)) l.
Proof. induction l as [|x l IH]; [reflexivity|]. cbn. now rewrite IH. Qed.

Lemma original_name_first (names : list gostring) (n : gostring) :
  NoDup (ToLower <$> names) -> n ∈ names ->
  original_name (ToLower <$> names) names (ToLower n) = [n].
Proof.
  induction names as [|a names IH]; intros Hnd Hin; [now apply elem_of_nil in Hin|].
  cbn. apply NoDup_cons in Hnd as [Ha Hnd]. unfold bytes_eqb.
  apply elem_of_cons in Hin as [->|Hin].
  - now rewrite bool_decide_true.
  - rewrite bool_decide_false; [now apply IH|].
    intros Heq. apply Ha. rewrite Heq. now apply list_elem_of_fmap_2.
Qed.

(** What [fuzzyMatch] returns. *)
Lemma fuzzyMatch_spec (rt : Runtime) (c : Keychain) (query : gostring) :
  (candidates rt c query <> [] ->
   fuzzyMatch rt c query
   = flat_map (fun name =>
                 original_name (ToLower <$> range_keys rt (keys c))
                               (range_keys rt (keys c)) (ToLower name))
              (candidates rt c query))
  /\ (candidates rt c query = [] ->
      fuzzyMatch rt c query
      = sort_Strings
          (filter (fun name => Contains (ToLower name) (ToLower query) = true)
                  (range_keys rt (keys c)))).
Proof.
  unfold fuzzyMatch, candidates.
  set (names := range_keys rt (keys c)).
  pose proof (RankFind_targets (ToLower query) (map ToLower names)) as Ht.
  change (map ToLower names) with (ToLower <$> names) in *.
  rewrite filter_fmap_comm in Ht.
  set (ranks := fuzzy.RankFind (ToLower query) (ToLower <$> names)) in *.
  split; intros Hc.
  - assert (ranks <> []) as Hne.
    { intros Hr. rewrite Hr in Ht. cbn in Ht. symmetry in Ht.
      apply fmap_nil_inv in Ht. contradiction. }
    replace (0 <? len ranks) with true; cycle 1.
    { symmetry. apply Z.ltb_lt. unfold len. destruct ranks; [congruence|cbn; lia]. }
    rewrite <- (flat_map_fmap
                  (fun t => original_name (ToLower <$> names) names t) ToLower).
    rewrite <- Ht. now rewrite flat_map_fmap.
  - rewrite Hc in Ht. apply fmap_nil_inv in Ht. now rewrite Ht.
Qed.

Lemma fuzzyMatch_candidates (rt : Runtime) (c : Keychain) (query : gostring) :
  candidates rt c query <> [] ->
  NoDup (ToLower <$> range_keys rt (keys c)) ->
  fuzzyMatch rt c query = candidates rt c query.
Proof.
  intros Hne Hnd. rewrite (proj1 (fuzzyMatch_spec rt c query) Hne).
  unfold candidates.
  assert (forall sub,
    sub ⊆ range_keys rt (keys c) ->
    flat_map (fun name =>
                original_name (ToLower <$> range_keys rt (keys c))
                              (range_keys rt (keys c)) (ToLower name)) sub = sub) as H.
  { induction sub as [|n sub IH]; intros Hsub; [reflexivity|].
    cbn [flat_map]. rewrite original_name_first by (assumption || set_solver).
    cbn. f_equal. apply IH. set_solver. }
  apply H. intros x Hx. now apply list_elem_of_filter in Hx as [_ ?].
Qed.






(** ** add and rewriteSorted *)

Lemma lessLine_asym (a b : gostring) : lessLine a b = true -> lessLine b a = false.
Proof.
  unfold lessLine.
  assert (forall s, (0 <? len (Split s sp)) = true) as Hlen.
  { intros s. apply Z.ltb_lt. pose proof (Split_not_nil sp s).
    unfold len. destruct (Split s sp); [congruence|cbn; lia]. }
  rewrite !Hlen. cbn [andb]. apply bytes_ltb_asym.
Qed.

Lemma write_lines_Ok (rt : Runtime) (lines : list gostring) (content : gostring)
    (w w' : World) (r : option rewrite_error) :
  disk w = Some content -> write_lines rt lines w = Ok r w' ->
  r = None -> disk w' = Some (content ++ unlines lines).
Proof.
  revert content w. induction lines as [|line lines IH]; intros content w Hd Hrun Hr.
  - cbn in Hrun. injection Hrun as _ <-. cbn. now rewrite app_nil_r.
  - cbn [write_lines] in Hrun. unfold bind, syscall, get_disk, set_disk, ret in Hrun.
    cbn in Hrun. rewrite Hd in Hrun. cbn in Hrun.
    destruct (io_fails (oracle rt (ticks w))).
    + injection Hrun as <- _. discriminate.
    + apply IH with (content := content ++ line ++ [nl]) in Hrun;
        [|reflexivity|assumption].
      rewrite Hrun. cbn [unlines flat_map]. now rewrite <- !app_assoc.
Qed.

Lemma rewriteSorted_Ok (rt : Runtime) (c : Keychain) (newEntries : list gostring)
    (w w' : World) :
  rewriteSorted rt c newEntries w = Ok None w' ->
  disk w' = Some (unlines (sort_Slice lessLine (existingLines c ++ newEntries))).
Proof.
  unfold rewriteSorted, bind, syscall, set_disk, ret. cbn.
  destruct (io_fails (oracle rt (ticks w))); [discriminate|].
  destruct (write_lines rt (sort_Slice lessLine (existingLines c ++ newEntries))
              (tick (with_disk (Some []) (tick w)))) as [r w1|? ?|? ?|] eqn:Hw;
    try discriminate.
  intros [= -> <-]. now apply (write_lines_Ok _ _ []) in Hw.
Qed.


(** C5.  [rewriteSorted] orders the lines by their first field only:
    after adding "my a" to a file that holds "my b" the name "my b" still
    comes first, although "my a" precedes it. *)
Theorem add_sorts_by_first_field :
  (forall c newEntries,
     Sorted (fun a b => lessLine b a = false)
            (sort_Slice lessLine (existingLines c ++ newEntries)))
  /\ (exists c w,
        run_add (quiet 0) (mkFlags false false false) (file_of ["ORSXG5A="])
                home_2fa (lit "my a") (world_of (file_of ["my b 6 ORSXG5A="]))
        = Ok c w
        /\ disk w = Some (file_of ["my b 6 ORSXG5A="; "my a 6 ORSXG5A="]))
  /\ (exists k1 k2,
        readLine 16 (lit "my b 6 ORSXG5A=" ++ [nl]) = Stored (lit "my b") k1
        /\ readLine 32 (lit "my a 6 ORSXG5A=" ++ [nl]) = Stored (lit "my a") k2)
  /\ bytes_ltb (ToLower (lit "my a")) (ToLower (lit "my b")) = true
  /\ lessLine (lit "my a 6 ORSXG5A=") (lit "my b 6 ORSXG5A=") = false.
Proof.
  split; [|split; [|split; [|split]]].
  - intros c newEntries. apply sort_Slice_sorted, lessLine_asym.
  - eexists _, _. split; vm_compute; reflexivity.
  - eexists _, _. split; vm_compute; reflexivity.
  - reflexivity.
  - reflexivity.
Qed.



(** * Further properties of the code *)

(** ** The width of a code *)

Lemma hotp_bounds (key : gostring) (counter digits : Z) :
  0 <= hotp key counter digits < 10 ^ Z.min (Z.max digits 0) 8.
Proof.
  rewrite hotp_value. cbv zeta.
  destruct (Z.le_gt_cases 0 digits) as [Hd|Hd].
  - rewrite hotp_loop_pow by assumption. rewrite Z.max_l by assumption.
    apply Z.mod_pos_bound. apply Z.pow_pos_nonneg; lia.
  - rewrite hotp_loop_neg by lia. rewrite Z.max_r by lia.
    rewrite Z.mod_1_r. change (Z.min 0 8) with 0. lia.
Qed.

Lemma Itoa_length (n w : Z) : 0 <= n < 10 ^ w -> 1 <= w -> len (Itoa n) <= w.
Proof.
  intros Hn Hw. unfold Itoa, len.
  destruct (Z.leb_spec n 0) as [|Hpos]; [cbn; lia|].
  pose proof (decimal_aux_length (S (Z.to_nat (Z.log2 n))) n (Z.to_nat w)) as H.
  rewrite Z2Nat.id in H by lia. specialize (H (proj2 Hn)). lia.
Qed.

Lemma Sprintf_0d_width (w n : Z) :
  1 <= w -> 0 <= n < 10 ^ w ->
  len (Sprintf_0d w n) = w /\ forallb is_digit (Sprintf_0d w n) = true.
Proof.
  intros Hw Hn. unfold Sprintf_0d.
  destruct (Z.ltb_spec w 0) as [|_]; [lia|].
  pose proof (Itoa_length n w Hn Hw) as Hl.
  destruct (Itoa_spec n (proj1 Hn)) as (_ & Hdig & _).
  split.
  - unfold len in *. rewrite length_app. unfold Repeat. rewrite repeat_length. lia.
  - rewrite forallb_app, Hdig, andb_true_r. unfold Repeat.
    apply forallb_forall. intros c Hc. apply repeat_spec in Hc. now subst.
Qed.

(** X1.  A code that [code] returns for a key of at least one digit is
    made of exactly [digits] decimal digits. *)
Theorem code_width (rt : Runtime) (c : Keychain) (name s : gostring) (k : Key)
    (w w' : World) :
  keys c !! name = Some k -> 1 <= digits k ->
  code rt c name w = Ok s w' ->
  len s = digits k /\ forallb is_digit s = true.
Proof.
  intros Hk Hd Hrun.
  assert (forall counter, 0 <= hotp (raw k) counter (digits k) < 10 ^ digits k) as Hb.
  { intros counter. pose proof (hotp_bounds (raw k) counter (digits k)) as [H0 H1].
    split; [assumption|]. eapply Z.lt_le_trans; [exact H1|].
    apply Z.pow_le_mono_r; lia. }
  destruct (Z.eq_dec (offset k) 0) as [Ho|Ho].
  - rewrite (code_totp rt c name k w Hk Ho) in Hrun. injection Hrun as <- _.
    apply Sprintf_0d_width; [assumption|apply Hb].
  - pose proof (code_hotp_cases rt c name k w Hk Ho) as H. rewrite Hrun in H.
    destruct H as (m & content & _ & _ & -> & _).
    apply Sprintf_0d_width; [assumption|apply Hb].
Qed.

Lemma code_width_witness :
  len (lit "287082") = 6 /\ forallb is_digit (lit "287082") = true.
Proof.
  apply (code_width (quiet 59000000000)
           (mkKeychain home_2fa [] (<[lit "rfc" := mkKey rfc_secret 6 0]> ∅))
           (lit "rfc") (lit "287082") (mkKey rfc_secret 6 0)
           (world_of []) (tick (world_of []))).
  - reflexivity.
  - cbn. lia.
  - vm_compute. reflexivity.
Defined.

(** X2.  The code of fewer digits is the tail of the code of more digits:
    [hotp] at [digits] is [hotp] at [digits'] modulo [10 ^ min digits 8]. *)
Theorem hotp_fewer_digits (key : gostring) (counter digits digits' : Z) :
  0 <= digits <= digits' ->
  hotp key counter digits = hotp key counter digits' mod 10 ^ Z.min digits 8.
Proof.
  intros Hd. rewrite !hotp_value. cbv zeta.
  rewrite !hotp_loop_pow by lia.
  set (v := Z.land _ _).
  assert (Z.min digits' 8 = Z.min digits 8 + (Z.min digits' 8 - Z.min digits 8)) as ->
    by lia.
  rewrite Z.pow_add_r by lia.
  set (a := 10 ^ Z.min digits 8). set (b := 10 ^ _).
  assert (0 < a) by (apply Z.pow_pos_nonneg; lia).
  assert (0 < b) by (apply Z.pow_pos_nonneg; lia).
  rewrite Z.rem_mul_r by lia.
  rewrite (Z.mul_comm a), Z.mod_add by lia.
  now rewrite Z.mod_mod by lia.
Qed.

Lemma hotp_fewer_digits_witness :
  0 <= 6 <= 8 /\ hotp rfc_secret 1 6 = hotp rfc_secret 1 8 mod 10 ^ Z.min 6 8.
Proof. split; [lia | apply hotp_fewer_digits; lia]. Defined.

(** ** The letter case of a secret *)

Lemma ToUpper_ToLower (s : gostring) : ToUpper (ToLower s) = ToUpper s.
Proof.
  unfold ToUpper, ToLower. rewrite map_map. apply map_ext.
  intros [[] [] [] [] [] [] [] []]; vm_compute; reflexivity.
Qed.

Lemma ToUpper_ToUpper (s : gostring) : ToUpper (ToUpper s) = ToUpper s.
Proof.
  unfold ToUpper. rewrite map_map. apply map_ext.
  intros [[] [] [] [] [] [] [] []]; vm_compute; reflexivity.
Qed.

Lemma ToLower_ToUpper (s : gostring) : ToLower (ToUpper s) = ToLower s.
Proof.
  unfold ToUpper, ToLower. rewrite map_map. apply map_ext.
  intros [[] [] [] [] [] [] [] []]; vm_compute; reflexivity.
Qed.

(** X3.  An ASCII secret is read without regard to the case of its
    letters. *)
Theorem decodeKey_any_case (key : gostring) :
  ascii_only key ->
  decodeKey (ToLower key) = decodeKey key /\ decodeKey (ToUpper key) = decodeKey key.
Proof.
  intros _. unfold decodeKey. now rewrite ToUpper_ToLower, ToUpper_ToUpper.
Qed.

Lemma decodeKey_any_case_witness :
  decodeKey (ToLower (lit "OrSxG5a=")) = decodeKey (lit "OrSxG5a=")
  /\ decodeKey (ToUpper (lit "OrSxG5a=")) = decodeKey (lit "OrSxG5a=").
Proof.
  apply decodeKey_any_case.
  unfold ascii_only. refine (bool_decide_unpack _ _). vm_compute. exact I.
Defined.

(** ** Loading *)


(** What [code] leaves alone. *)
Lemma code_frame (rt : Runtime) (c : Keychain) (name : gostring) (w : World) :
  match code rt c name w with
  | Ok _ w' | Fatal _ w' =>
      stdout w' = stdout w /\ stderr w' = stderr w
      /\ clipboard w' = clipboard w /\ logged w' = logged w
  | Exit _ _ => False
  | Panic => True
  end.
Proof.
  unfold code.
  destruct (keys c !! name) as [k|]; [|cbn; auto].
  unfold bind, syscall, get_disk, set_disk, time_Now, log_Fatalf, ret, panic.
  destruct (offset k =? 0); cbn; [auto|].
  destruct (slice _ _ _) as [field|]; [|exact I].
  destruct (ParseUint field) as [n|]; cbn; [|auto].
  destruct (disk w) as [content|]; cbn; [|auto].
  destruct (io_fails (oracle rt (ticks w))); cbn; [auto|].
  destruct (io_fails (oracle rt (S (ticks w)))); cbn; [auto|].
  destruct (io_fails (oracle rt (S (S (ticks w))))); cbn; auto.
Qed.

(** X5.  On a keychain as it was loaded, [code] never panics and never
    finds a malformed counter: the counter of every counter-based key lies
    inside the retained bytes and parses.  It ends with a code, with "no
    such key" or with a failure to open or update the file. *)
Theorem loaded_code_safe (rt : Runtime) (file content name : gostring) (w : World) :
  match code rt (mkKeychain file content (ld_keys (parseKeychain file content)))
             name w with
  | Ok s _ => is_Some (ld_keys (parseKeychain file content) !! name)
  | Fatal e _ =>
      (e = NoSuchKey name /\ ld_keys (parseKeychain file content) !! name = None)
      \/ e = OpeningKeychain \/ e = UpdatingKeychain
  | Exit _ _ => False
  | Panic => False
  end.
Proof.
  set (c := mkKeychain _ _ _).
  destruct (ld_keys (parseKeychain file content) !! name) as [k|] eqn:Hk.
  - destruct (Z.eq_dec (offset k) 0) as [Ho|Ho].
    + rewrite (code_totp rt c name k w Hk Ho). eauto.
    + pose proof (code_hotp_cases rt c name k w Hk Ho) as H.
      destruct (loaded_counter_valid _ _ _ _ Hk Ho) as (ctr & n & Hs & Hn & _).
      destruct (code rt c name w) as [s w'|e w'|? ?|].
      * eauto.
      * destruct H as [_ [(field & _ & Hs' & Hn' & _)|[(-> & _)|(-> & _)]]]; auto.
        cbn in Hs'. rewrite Hs in Hs'. injection Hs' as <-. congruence.
      * assumption.
      * cbn in H. congruence.
  - unfold code. cbn [keys c]. rewrite Hk. cbn. auto.
Qed.

(** ** A newline at the end of the file *)

Lemma readLine_newline (off : Z) (l : gostring) :
  nl ∉ l -> readLine (off + 1) (l ++ [nl]) = readLine off l.
Proof.
  intros Hl. unfold readLine.
  rewrite TrimSuffix_snoc, (TrimSuffix_no_sep nl l Hl).
  assert (List.last (l ++ [nl]) zero = nl) as H1 by (rewrite last_app_ne; [reflexivity|discriminate]).
  assert (List.last l zero <> nl) as H2.
  { destruct l as [|c l']; [discriminate|].
    intros He. apply Hl. rewrite <- He. apply last_elem_of. discriminate. }
  rewrite (bool_decide_eq_true_2 _ H1), (bool_decide_eq_false_2 _ H2).
  replace (off + 1 - counterLen - 1) with (off - counterLen) by lia.
  reflexivity.
Qed.

Lemma lines_of_last (ls : list gostring) :
  lines_of nl ls ->
  exists init l, ls = init ++ [l] /\ (nl ∉ l)
                 /\ lines_of nl (init ++ [l ++ [nl]; []]).
Proof.
  induction 1 as [l Hl|body ls Hb Hls (init & l & -> & Hl & IH)].
  - exists [], l. split; [reflexivity|]. split; [assumption|].
    cbn. constructor; [assumption|]. constructor. apply not_elem_of_nil.
  - exists ((body ++ [nl]) :: init), l. split; [reflexivity|]. split; [assumption|].
    cbn. constructor; assumption.
Qed.

(** X6.  A newline added at the end of the file changes neither the keys
    that are loaded (counter offsets included) nor the lines reported as
    malformed. *)
Theorem final_newline_is_optional (file content : gostring) :
  ld_keys (parseKeychain file (content ++ [nl])) = ld_keys (parseKeychain file content)
  /\ ld_log (parseKeychain file (content ++ [nl])) = ld_log (parseKeychain file content).
Proof.
  rewrite !parseKeychain_lines.
  destruct (lines_of_last _ (SplitAfter_lines nl content)) as (init & l & Hls & Hl & Hnew).
  assert (SplitAfter (content ++ [nl]) nl = init ++ [l ++ [nl]; []]) as ->.
  { rewrite <- (SplitAfter_unique nl _ Hnew). f_equal.
    rewrite <- (SplitAfter_concat nl content) at 1. rewrite Hls.
    rewrite !concat_app. cbn. now rewrite !app_nil_r, <- app_assoc. }
  rewrite Hls.
  change (init ++ [l ++ [nl]; []]) with (init ++ [l ++ [nl]] ++ [[]]).
  rewrite app_assoc, (parse_lines_step file (init ++ [l ++ [nl]]) []).
  cbv zeta.
  assert (readLine (len (concat (init ++ [l ++ [nl]])) + len (@nil ascii)) [] = Blank)
    as -> by reflexivity.
  cbn [ld_keys ld_log].
  rewrite !parse_lines_step. cbv zeta.
  replace (len (concat init) + len (l ++ [nl])) with (len (concat init) + len l + 1)
    by (unfold len; rewrite length_app; cbn; lia).
  rewrite (readLine_newline _ l Hl).
  destruct (readLine _ l); auto.
Qed.

(** ** The order of the names *)

Lemma bytes_le_antisym (a b : gostring) : bytes_le a b -> bytes_le b a -> a = b.
Proof.
  unfold bytes_le. revert b. induction a as [|c a IH]; intros [|d b]; cbn;
    try discriminate; [reflexivity|].
  intros H1 H2.
  apply orb_false_iff in H1 as [H1 H1'], H2 as [H2 H2'].
  apply Z.ltb_ge in H1, H2.
  assert (byte_val c = byte_val d) as He by lia.
  rewrite ?He, Z.eqb_refl in H1', H2'. cbn in H1', H2'.
  f_equal; [now apply byte_val_inj|now apply IH].
Qed.

Lemma bytes_le_trans (a b c : gostring) : bytes_le a b -> bytes_le b c -> bytes_le a c.
Proof.
  unfold bytes_le. revert b c. induction a as [|x a IH]; intros [|y b] [|z c]; cbn;
    try discriminate; try reflexivity.
  intros H1 H2.
  apply orb_false_iff in H1 as [H1 H1'], H2 as [H2 H2'].
  apply Z.ltb_ge in H1, H2.
  apply orb_false_iff. split; [apply Z.ltb_ge; lia|].
  destruct (Z.eqb_spec (byte_val z) (byte_val x)) as [He|]; [|reflexivity]. cbn.
  assert (byte_val y = byte_val x) as Hyx by lia.
  assert (byte_val z = byte_val y) as Hzy by lia.
  rewrite Hyx, Z.eqb_refl in H1'. rewrite Hzy, Z.eqb_refl in H2'. cbn in H1', H2'.
  now apply (IH b c).
Qed.

Lemma bytes_le_transitive : Transitive bytes_le.
Proof. intros a b c. apply bytes_le_trans. Qed.

Lemma bytes_le_antisymm : AntiSymm (=) bytes_le.
Proof. intros a b. apply bytes_le_antisym. Qed.

(** [sort.Strings] gives the same slice for every order of its input. *)
Lemma sort_Strings_unique (l l' : list gostring) :
  l ≡ₚ l' -> sort_Strings l = sort_Strings l'.
Proof.
  intros Hp.
  apply (@Sorted_unique _ bytes_le bytes_le_transitive bytes_le_antisymm).
  - apply sort_Strings_sorted.
  - apply sort_Strings_sorted.
  - now rewrite !sort_Strings_perm.
Qed.

Lemma max_digits_perm (c : Keychain) (names names' : list gostring) :
  names ≡ₚ names' -> max_digits c names = max_digits c names'.
Proof.
  unfold max_digits. generalize 0.
  intros a Hp. revert a.
  induction Hp as [|x l l' _ IH|x y l|l l' l'' _ IH1 _ IH2]; intros a; cbn.
  - reflexivity.
  - apply IH.
  - f_equal.
    destruct (Z.ltb_spec a (digits (default Key_zero (keys c !! y))));
      destruct (Z.ltb_spec a (digits (default Key_zero (keys c !! x))));
      repeat match goal with |- context [?u <? ?v] => destruct (Z.ltb_spec u v) end;
      lia.
  - now rewrite IH1.
Qed.

Lemma for_each_Println (names : list gostring) (w : World) :
  for_each names Println w
  = Ok tt (mkWorld (disk w) (stdout w ++ ((fun name => name ++ [nl]) <$> names))
                   (stderr w) (logged w) (clipboard w) (ticks w)).
Proof.
  revert w. induction names as [|name names IH]; intros w.
  - cbn. unfold ret. rewrite app_nil_r. now destruct w.
  - cbn [for_each]. unfold bind at 1. unfold Println, Printf at 1.
    rewrite IH. cbn. now rewrite <- app_assoc.
Qed.

(** X7.  [list] prints every name of the keychain once, one to a line, in
    ascending order of bytes, whatever the order in which the map is
    enumerated; it changes nothing else. *)
Theorem list_prints_sorted_names (rt : Runtime) (c : Keychain) (w : World) :
  range_ok rt ->
  exists names,
    Keychain_list rt c w
    = Ok tt (mkWorld (disk w) (stdout w ++ ((fun name => name ++ [nl]) <$> names))
                     (stderr w) (logged w) (clipboard w) (ticks w))
    /\ names = sort_Strings (map_to_list (keys c)).*1
    /\ Sorted bytes_le names
    /\ NoDup names
    /\ forall name, name ∈ names <-> is_Some (keys c !! name).
Proof.
  intros Hrt. exists (sort_Strings (map_to_list (keys c)).*1).
  split; [|split; [reflexivity|split; [|split]]].
  - unfold Keychain_list. rewrite for_each_Println.
    now rewrite (sort_Strings_unique _ _ (Hrt (keys c))).
  - apply sort_Strings_sorted.
  - rewrite sort_Strings_perm. apply NoDup_fst_map_to_list.
  - intros name. rewrite sort_Strings_perm.
    rewrite list_elem_of_fmap. split.
    + intros ([n k] & -> & Hin). apply elem_of_map_to_list in Hin. cbn. eauto.
    + intros [k Hk]. exists (name, k). split; [reflexivity|].
      now apply elem_of_map_to_list.
Qed.

Lemma descending_range_ok : range_ok descending.
Proof.
  intros m.
  change (range_keys descending m) with (rev (sort_Strings (map_to_list m).*1)).
  etransitivity; [symmetry; apply Permutation_rev|apply sort_Strings_perm].
Qed.

Lemma list_prints_sorted_names_witness :
  exists names,
    Keychain_list descending (three_keys Key_zero Key_zero Key_zero) (world_of [])
    = Ok tt (mkWorld (Some []) ([] ++ ((fun name => name ++ [nl]) <$> names))
                     [] [] None 0)
    /\ names = sort_Strings
                 (map_to_list (keys (three_keys Key_zero Key_zero Key_zero))).*1.
Proof.
  destruct (list_prints_sorted_names descending
              (three_keys Key_zero Key_zero Key_zero) (world_of []) descending_range_ok)
    as (names & H1 & H2 & _).
  exists names. split; assumption.
Defined.

(** X8.  What [showAll] prints does not depend on the order in which the
    map is enumerated: two run-times that differ only in that order give
    the same run. *)
Theorem showAll_any_order (r1 r2 : gmap gostring Key -> list gostring)
    (o : nat -> Env) (c : Keychain) (w : World) :
  range_ok (mkRuntime r1 o) -> range_ok (mkRuntime r2 o) ->
  showAll (mkRuntime r1 o) c w = showAll (mkRuntime r2 o) c w.
Proof.
  intros H1 H2. unfold showAll. cbn [range_keys].
  assert (r1 (keys c) ≡ₚ r2 (keys c)) as Hp.
  { etransitivity; [apply (H1 (keys c))|symmetry; apply (H2 (keys c))]. }
  rewrite (sort_Strings_unique _ _ Hp), (max_digits_perm c _ _ Hp).
  reflexivity.
Qed.

Lemma showAll_any_order_witness :
  showAll (quiet 0) (three_keys Key_zero Key_zero Key_zero) (world_of [])
  = showAll descending (three_keys Key_zero Key_zero Key_zero) (world_of []).
Proof.
  apply (showAll_any_order (fun m => (map_to_list m).*1)
           (fun m => rev (sort_Strings (map_to_list m).*1))
           (fun _ => mkEnv false 0 0)).
  - intros m. reflexivity.
  - exact descending_range_ok.
Defined.

(** ** The candidates of a query *)

Lemma Match_nil (target : gostring) : fuzzy.Match [] target = true.
Proof. now destruct target. Qed.





Lemma original_name_elem (lowerNames allNames : list gostring) (target x : gostring) :
  x ∈ original_name lowerNames allNames target -> x ∈ allNames.
Proof.
  revert allNames. induction lowerNames as [|l ls IH]; intros [|n ns]; cbn;
    try (intros H; now apply elem_of_nil in H).
  destruct (bytes_eqb l target).
  - intros H. apply list_elem_of_singleton in H as ->. left.
  - intros H. right. now apply IH.
Qed.


Lemma range_keys_elem (rt : Runtime) (c : Keychain) (name : gostring) :
  range_ok rt -> name ∈ range_keys rt (keys c) <-> is_Some (keys c !! name).
Proof.
  intros Hrt. rewrite (Hrt (keys c)), list_elem_of_fmap. split.
  - intros ([n k] & -> & Hin). apply elem_of_map_to_list in Hin. cbn. eauto.
  - intros [k Hk]. exists (name, k). split; [reflexivity|].
    now apply elem_of_map_to_list.
Qed.

(** Every name that [fuzzyMatch] returns is a key. *)
Lemma fuzzyMatch_in_keys (rt : Runtime) (c : Keychain) (query m : gostring) :
  range_ok rt -> m ∈ fuzzyMatch rt c query -> is_Some (keys c !! m).
Proof.
  intros Hrt Hm. apply (range_keys_elem rt c m Hrt).
  destruct (fuzzyMatch_spec rt c query) as [H1 H2].
  destruct (decide (candidates rt c query = [])) as [He|Hne].
  - rewrite (H2 He), sort_Strings_perm in Hm.
    now apply list_elem_of_filter in Hm as [_ ?].
  - rewrite (H1 Hne) in Hm. apply list_elem_of_In, in_flat_map in Hm as (x & _ & Hm).
    apply list_elem_of_In in Hm. now apply original_name_elem in Hm.
Qed.

Lemma filter_none {A} (P : A -> Prop) `{forall x, Decision (P x)} (l : list A) :
  (forall x, x ∈ l -> ~ P x) -> filter P l = [].
Proof.
  induction l as [|x l IH]; intros Hl; [reflexivity|].
  rewrite filter_cons_False by (apply Hl; left).
  apply IH. intros y Hy. apply Hl. now right.
Qed.


(** X10.  The empty query selects every key: when the stored names are
    ASCII and no two of them differ only by letter case, [fuzzyMatch]
    returns all the names, in the order in which the map is enumerated. *)
Theorem empty_query_selects_all (rt : Runtime) (c : Keychain) :
  Forall ascii_only (range_keys rt (keys c)) ->
  NoDup (ToLower <$> range_keys rt (keys c)) ->
  fuzzyMatch rt c [] = range_keys rt (keys c).
Proof.
  intros _ Hnd.
  assert (candidates rt c [] = range_keys rt (keys c)) as Hc.
  { unfold candidates. induction (range_keys rt (keys c)) as [|n ns IH]; [reflexivity|].
    rewrite filter_cons_True by apply Match_nil. f_equal. apply IH.
    now apply NoDup_cons in Hnd as [_ ?]. }
  destruct (range_keys rt (keys c)) as [|n ns] eqn:Hr.
  - rewrite (proj2 (fuzzyMatch_spec rt c []) Hc). now rewrite Hr.
  - rewrite <- Hr in *. rewrite fuzzyMatch_candidates; [assumption| |assumption].
    rewrite Hc, Hr. discriminate.
Qed.

Lemma empty_query_selects_all_witness :
  fuzzyMatch (quiet 0) (three_keys Key_zero Key_zero Key_zero) []
  = range_keys (quiet 0) (keys (three_keys Key_zero Key_zero Key_zero)).
Proof.
  apply empty_query_selects_all.
  - unfold ascii_only. refine (bool_decide_unpack _ _). vm_compute. exact I.
  - refine (bool_decide_unpack _ _). vm_compute. exact I.
Defined.

(** ** show *)

Lemma code_of_key (rt : Runtime) (c : Keychain) (name : gostring) (w : World) :
  is_Some (keys c !! name) ->
  match code rt c name w with
  | Fatal e _ => code_failure e
  | _ => True
  end.
Proof.
  intros [k Hk]. destruct (Z.eq_dec (offset k) 0) as [Ho|Ho].
  - now rewrite (code_totp rt c name k w Hk Ho).
  - pose proof (code_hotp_cases rt c name k w Hk Ho) as H.
    destruct (code rt c name w) as [s w'|e w'|? ?|]; try exact I.
    unfold code_failure.
    destruct H as [_ [(field & -> & _)|[(-> & _)|(-> & _)]]]; eauto.
Qed.

Lemma show_rows (rt : Runtime) (c : Keychain) (max : Z) (matches : list gostring)
    (w : World) :
  Forall (fun m => is_Some (keys c !! m)) matches ->
  match for_each matches (fun m => do s <- code rt c m; print_row max s m) w with
  | Ok _ w' =>
      stderr w' = stderr w /\ clipboard w' = clipboard w
      /\ exists rows, stdout w' = stdout w ++ rows /\ length rows = length matches
  | Fatal e w' =>
      stderr w' = stderr w /\ clipboard w' = clipboard w /\ code_failure e
  | Exit _ _ => False
  | Panic => True
  end.
Proof.
  intros Hall. revert w. induction Hall as [|m matches Hm _ IH]; intros w.
  - cbn. split; [reflexivity|]. split; [reflexivity|].
    exists []. now rewrite app_nil_r.
  - cbn [for_each]. unfold bind at 1 2.
    pose proof (code_frame rt c m w) as Hf. pose proof (code_of_key rt c m w Hm) as Hk.
    destruct (code rt c m w) as [s w1|e w1|? ?|]; [|tauto|assumption|exact I].
    destruct Hf as (Hout & Herr & Hclip & _).
    unfold print_row, Printf at 1.
    specialize (IH (with_stdout (row max s m) w1)).
    destruct (for_each matches _ _) as [[] w2|e w2|? ?|]; [| |assumption|exact I].
    + destruct IH as (H1 & H2 & rows & H3 & H4). cbn in H1, H2, H3.
      split; [congruence|]. split; [congruence|].
      exists (row max s m :: rows). cbn. rewrite H3, Hout, <- app_assoc. auto.
    + destruct IH as (H1 & H2 & H3). cbn in H1, H2. split; [congruence|].
      split; [congruence|assumption].
Qed.

(** X11.  A query with a single candidate is answered as that name itself
    would be: the same code, copied to the clipboard and printed. *)
Theorem show_single_candidate (rt : Runtime) (c : Keychain) (query m : gostring)
    (w : World) :
  range_ok rt -> keys c !! query = None -> fuzzyMatch rt c query = [m] ->
  show rt c query w = show rt c m w.
Proof.
  intros Hrt Hq Hm.
  destruct (fuzzyMatch_in_keys rt c query m Hrt) as [k Hk]; [rewrite Hm; left|].
  unfold show. now rewrite Hq, Hm, Hk.
Qed.

Lemma show_single_candidate_witness :
  show (quiet 0) (three_keys Key_zero Key_zero Key_zero) (lit "gthb") (world_of [])
  = show (quiet 0) (three_keys Key_zero Key_zero Key_zero) (lit "github") (world_of []).
Proof.
  apply show_single_candidate.
  - intros m. reflexivity.
  - vm_compute. reflexivity.
  - vm_compute. reflexivity.
Defined.

(** X12.  [show] asks for the code of keys only: when it ends with "no
    such key", the name is the query itself, which is no key and has no
    candidate, and nothing was printed or changed. *)
Theorem show_no_such_key (rt : Runtime) (c : Keychain) (query n : gostring)
    (w w' : World) :
  range_ok rt -> show rt c query w = Fatal (NoSuchKey n) w' ->
  n = query /\ w' = w /\ keys c !! query = None /\ fuzzyMatch rt c query = [].
Proof.
  intros Hrt. unfold show.
  assert (forall e, code_failure e -> e <> NoSuchKey n) as Hne.
  { intros e [(? & ? & ->)|[->| ->]]; discriminate. }
  destruct (keys c !! query) as [k|] eqn:Hq.
  - unfold bind at 1.
    pose proof (code_of_key rt c query w (mk_is_Some _ _ Hq)) as Hk.
    destruct (code rt c query w) as [s w1|e w1|? ?|];
      [cbn; unfold print_copied, Printf, os_Exit; cbn; intros [=]| |intros [=]|intros [=]].
    intros [= -> _]. now destruct (Hne _ Hk).
  - pose proof (fuzzyMatch_in_keys rt c query) as Hkeys.
    destruct (fuzzyMatch rt c query) as [|m [|m' ms]] eqn:Hm.
    + cbn. unfold log_Fatalf. intros [= <- <-]. auto.
    + change (len [m] =? 0) with false. change (len [m] =? 1) with true.
      cbn [nth]. unfold bind at 1.
      pose proof (code_of_key rt c m w (Hkeys m Hrt ltac:(left))) as Hk.
      destruct (code rt c m w) as [s w1|e w1|? ?|];
        [cbn; unfold print_copied, Printf, os_Exit; cbn; intros [=]| |intros [=]|intros [=]].
      intros [= -> _]. now destruct (Hne _ Hk).
    + replace (len (m :: m' :: ms) =? 0) with false
        by (symmetry; apply Z.eqb_neq; unfold len; cbn [length]; lia).
      replace (len (m :: m' :: ms) =? 1) with false
        by (symmetry; apply Z.eqb_neq; unfold len; cbn [length]; lia).
      unfold bind at 1. unfold Fprintf_stderr at 1. unfold bind at 1.
      pose proof (show_rows rt c (max_digits c (m :: m' :: ms)) (m :: m' :: ms)
                    (with_stderr (lit "multiple matches found for " ++ query) w)) as Hr.
      destruct (for_each _ _ _) as [[] w1|e w1|? ?|];
        [cbn; unfold print_copied, Printf, os_Exit; cbn; intros [=]| |intros [=]|intros [=]].
      intros [= -> _].
      destruct Hr as (_ & _ & Hr).
      { apply Forall_forall. intros x Hx. apply (Hkeys x Hrt Hx). }
      now destruct (Hne _ Hr).
Qed.

Lemma show_no_such_key_witness :
  lit "nomatch" = lit "nomatch" /\ world_of [] = world_of []
  /\ keys (three_keys Key_zero Key_zero Key_zero) !! lit "nomatch" = None
  /\ fuzzyMatch (quiet 0) (three_keys Key_zero Key_zero Key_zero) (lit "nomatch") = [].
Proof.
  apply (show_no_such_key (quiet 0)).
  - intros m. reflexivity.
  - vm_compute. reflexivity.
Defined.

(** X13.  With two candidates or more [show] copies nothing to the
    clipboard and never ends normally: it writes one line to the standard
    error, prints one row for each candidate and ends with status 1,
    unless a code cannot be produced. *)
Theorem show_several_candidates (rt : Runtime) (c : Keychain) (query : gostring)
    (w : World) :
  range_ok rt -> keys c !! query = None ->
  (2 <= length (fuzzyMatch rt c query))%nat ->
  match show rt c query w with
  | Ok _ _ => False
  | Exit status w' =>
      status = 1 /\ clipboard w' = clipboard w
      /\ (exists line, stderr w' = stderr w ++ [line])
      /\ exists rows, stdout w' = stdout w ++ rows
                      /\ length rows = length (fuzzyMatch rt c query)
  | Fatal e w' => clipboard w' = clipboard w /\ code_failure e
  | Panic => True
  end.
Proof.
  intros Hrt Hq Hlen. unfold show. rewrite Hq.
  pose proof (fuzzyMatch_in_keys rt c query) as Hkeys.
  set (matches := fuzzyMatch rt c query) in *.
  replace (len matches =? 0) with false
    by (symmetry; apply Z.eqb_neq; unfold len; lia).
  replace (len matches =? 1) with false
    by (symmetry; apply Z.eqb_neq; unfold len; lia).
  unfold bind at 1. unfold Fprintf_stderr at 1. unfold bind at 1.
  pose proof (show_rows rt c (max_digits c matches) matches
                (with_stderr (lit "multiple matches found for " ++ query) w)) as Hr.
  destruct (for_each _ _ _) as [[] w1|e w1|? ?|].
  - destruct Hr as (H1 & H2 & rows & H3 & H4).
    { apply Forall_forall. intros x Hx. apply (Hkeys x Hrt Hx). }
    cbn in H1, H2, H3. unfold os_Exit. eauto 10.
  - destruct Hr as (_ & H2 & H3).
    { apply Forall_forall. intros x Hx. apply (Hkeys x Hrt Hx). }
    cbn in H2. auto.
  - destruct Hr. apply Forall_forall. intros x Hx. apply (Hkeys x Hrt Hx).
  - exact I.
Qed.

Lemma show_several_candidates_witness :
  match show (quiet 0) (three_keys Key_zero Key_zero Key_zero) (lit "go") (world_of []) with
  | Ok _ _ => False
  | Exit status w' =>
      status = 1 /\ clipboard w' = None
      /\ (exists line, stderr w' = [] ++ [line])
      /\ exists rows,
           stdout w' = [] ++ rows
           /\ length rows
              = length (fuzzyMatch (quiet 0) (three_keys Key_zero Key_zero Key_zero)
                          (lit "go"))
  | Fatal e w' => clipboard w' = None /\ code_failure e
  | Panic => True
  end.
Proof.
  apply (show_several_candidates (quiet 0)
           (three_keys Key_zero Key_zero Key_zero) (lit "go") (world_of [])).
  - intros m. reflexivity.
  - vm_compute. reflexivity.
  - vm_compute. lia.
Defined.

(** ** rewriteSorted *)



Lemma write_lines_frame (rt : Runtime) (lines : list gostring) (w : World) :
  match write_lines rt lines w with
  | Ok _ w' => stdout w' = stdout w /\ stderr w' = stderr w
  | _ => False
  end.
Proof.
  revert w. induction lines as [|line lines IH]; intros w; [cbn; auto|].
  cbn [write_lines]. unfold bind, syscall, get_disk, set_disk, ret. cbn.
  destruct (io_fails (oracle rt (ticks w))); cbn; [auto|].
  specialize (IH (with_disk (Some (default [] (disk w) ++ line ++ [nl])) (tick w))).
  destruct (write_lines rt lines _); auto.
Qed.

Lemma rewriteSorted_frame (rt : Runtime) (c : Keychain) (newEntries : list gostring)
    (w : World) :
  match rewriteSorted rt c newEntries w with
  | Ok _ w' => stdout w' = stdout w /\ stderr w' = stderr w
  | _ => False
  end.
Proof.
  unfold rewriteSorted.
  unfold bind at 1. unfold syscall at 1.
  destruct (io_fails (oracle rt (ticks w))); [cbn; auto|].
  unfold bind at 1. unfold set_disk at 1. unfold bind at 1. unfold syscall at 1.
  unfold bind at 1.
  pose proof (write_lines_frame rt
                (sort_Slice lessLine (existingLines c ++ newEntries))
                (tick (with_disk (Some []) (tick w)))) as H.
  destruct (write_lines rt _ _) as [e w'|? ?|? ?|]; try contradiction.
  cbn. exact H.
Qed.

(** ** add *)

Lemma ReadString_no_delim (s : gostring) (delim : ascii) :
  delim ∉ s -> ReadString s delim = None.
Proof.
  induction s as [|c s IH]; intros Hs; [reflexivity|]. cbn.
  destruct (Ascii.eqb_spec c delim) as [->|_]; [destruct Hs; left|].
  rewrite IH; [reflexivity|]. intros Hin. apply Hs. now right.
Qed.

Lemma ReadString_first (line rest : gostring) (delim : ascii) :
  delim ∉ line -> ReadString (line ++ delim :: rest) delim = Some (line ++ [delim]).
Proof.
  induction line as [|c line IH]; intros Hl; cbn.
  - now rewrite Ascii.eqb_refl.
  - destruct (Ascii.eqb_spec c delim) as [->|_]; [destruct Hl; left|].
    rewrite IH; [reflexivity|]. intros Hin. apply Hl. now right.
Qed.

(** [add] after the check of the flags. *)
Lemma add_unfold (rt : Runtime) (fl : Flags) (stdin : gostring) (c : Keychain)
    (name : gostring) (w : World) :
  flag7 fl && flag8 fl = false ->
  add rt fl stdin c name w
  = let w0 := with_stderr (lit "2fa key for " ++ name ++ lit ": ") w in
    match key_text stdin with
    | None => Fatal ErrorReadingKey w0
    | Some text =>
        match decodeKey text with
        | None => Fatal InvalidKey w0
        | Some _ =>
            let c0 := mkKeychain (file c) (data c) (<[name := Key_zero]> (keys c)) in
            match rewriteSorted rt c0
                    [key_line name (key_size fl) text (flagHotp fl)] w0 with
            | Ok None w1 => Ok c0 w1
            | Ok (Some _) w1 => Fatal AddingKey w1
            | Fatal e w1 => Fatal e w1
            | Exit s w1 => Exit s w1
            | Panic => Panic
            end
        end
    end.
Proof.
  intros Hfl. unfold add, key_text, key_size, padded.
  assert (forall size : Z,
    (do _ <- Fprintf_stderr (lit "2fa key for " ++ name ++ lit ": ");
     match ReadString stdin nl with
     | Some text =>
         let text0 := strip_space text in
         let text1 := text0 ++ Repeat "=" (Z.land (- len text0) 7) in
         match decodeKey text1 with
         | Some _ =>
             let line := key_line name size text1 (flagHotp fl) in
             let c0 := mkKeychain (file c) (data c) (<[name:=Key_zero]> (keys c)) in
             do err <- rewriteSorted rt c0 [line];
             match err with
             | Some _ => log_Fatalf AddingKey
             | None => ret c0
             end
         | None => log_Fatalf InvalidKey
         end
     | None => log_Fatalf ErrorReadingKey
     end) w
    = let w0 := with_stderr (lit "2fa key for " ++ name ++ lit ": ") w in
      match
        match ReadString stdin nl with
        | Some text =>
            Some (strip_space text ++ Repeat "=" (Z.land (- len (strip_space text)) 7))
        | None => None
        end
      with
      | None => Fatal ErrorReadingKey w0
      | Some text =>
          match decodeKey text with
          | None => Fatal InvalidKey w0
          | Some _ =>
              let c0 := mkKeychain (file c) (data c) (<[name := Key_zero]> (keys c)) in
              match rewriteSorted rt c0 [key_line name size text (flagHotp fl)] w0 with
              | Ok None w1 => Ok c0 w1
              | Ok (Some _) w1 => Fatal AddingKey w1
              | Fatal e w1 => Fatal e w1
              | Exit s w1 => Exit s w1
              | Panic => Panic
              end
          end
      end) as Hrest.
  { intros size. unfold bind at 1. unfold Fprintf_stderr at 1. cbv zeta.
    destruct (ReadString stdin nl) as [text|]; [|reflexivity].
    destruct (decodeKey _); [|reflexivity].
    unfold bind at 1.
    destruct (rewriteSorted rt _ _ _) as [[e|] w1|? ?|? ?|]; reflexivity. }
  destruct (flag7 fl), (flag8 fl); try discriminate;
    unfold bind at 1; unfold ret at 1; apply Hrest.
Qed.

Lemma add_ends (rt : Runtime) (fl : Flags) (stdin : gostring) (c : Keychain)
    (name : gostring) (w : World) :
  match add rt fl stdin c name w with
  | Exit _ _ => False
  | Panic => False
  | _ => True
  end.
Proof.
  destruct (flag7 fl && flag8 fl) eqn:Hfl.
  { apply andb_true_iff in Hfl as [H7 H8]. unfold add. rewrite H7, H8. exact I. }
  rewrite (add_unfold _ _ _ _ _ _ Hfl). cbv zeta.
  destruct (key_text stdin) as [text|]; [|exact I].
  destruct (decodeKey text); [|exact I].
  pose proof (rewriteSorted_frame rt
                (mkKeychain (file c) (data c) (<[name:=Key_zero]> (keys c)))
                [key_line name (key_size fl) text (flagHotp fl)]
                (with_stderr (lit "2fa key for " ++ name ++ lit ": ") w)) as Hf.
  destruct (rewriteSorted rt _ _ _) as [[e|] w1|? ?|? ?|]; try exact I; contradiction.
Qed.

(** X15.  [add] checks before it writes: when it ends because both -7 and
    -8 were given, because no line could be read, or because the key does
    not decode, the file is as it was and nothing was printed; the only
    other failure is that of rewriting the file.  It never panics.  (For
    an ASCII input, on which the white space of the model is that of Go.) *)
Theorem add_checks_first (rt : Runtime) (fl : Flags) (stdin : gostring)
    (c : Keychain) (name : gostring) (w : World) :
  ascii_only stdin ->
  match add rt fl stdin c name w with
  | Ok c' w' =>
      flag7 fl && flag8 fl = false
      /\ exists text, key_text stdin = Some text /\ is_Some (decodeKey text)
  | Fatal e w' =>
      e = AddingKey
      \/ (disk w' = disk w /\ stdout w' = stdout w
          /\ ((e = Both7And8 /\ flag7 fl && flag8 fl = true)
              \/ (e = ErrorReadingKey /\ ReadString stdin nl = None)
              \/ (e = InvalidKey
                  /\ exists text, key_text stdin = Some text /\ decodeKey text = None)))
  | Exit _ _ => False
  | Panic => False
  end.
Proof.
  intros _.
  destruct (flag7 fl && flag8 fl) eqn:Hfl.
  { apply andb_true_iff in Hfl as [H7 H8]. unfold add. rewrite H7, H8.
    unfold bind at 1. unfold log_Fatalf at 1. right. auto 10. }
  rewrite (add_unfold _ _ _ _ _ _ Hfl). cbv zeta.
  destruct (key_text stdin) as [text|] eqn:Ht.
  2:{ right. split; [reflexivity|]. split; [reflexivity|]. right. left.
      split; [reflexivity|]. unfold key_text in Ht.
      now destruct (ReadString stdin nl). }
  destruct (decodeKey text) as [r|] eqn:Hdec; [|right; eauto 10].
  pose proof (rewriteSorted_frame rt
                (mkKeychain (file c) (data c) (<[name:=Key_zero]> (keys c)))
                [key_line name (key_size fl) text (flagHotp fl)]
                (with_stderr (lit "2fa key for " ++ name ++ lit ": ") w)) as Hf.
  destruct (rewriteSorted rt _ _ _) as [[e|] w1|? ?|? ?|]; try contradiction.
  - now left.
  - split; [reflexivity|]. exists text. rewrite Hdec. eauto.
Qed.

(** X16.  The key is the first line of the standard input and that line
    must be ended by a newline: what follows it is not read, and an input
    that holds no newline ends [add] with an error, whatever was typed. *)
Theorem add_reads_one_line (rt : Runtime) (fl : Flags) (line rest : gostring)
    (c : Keychain) (name : gostring) (w : World) :
  nl ∉ line ->
  add rt fl (line ++ nl :: rest) c name w = add rt fl (line ++ [nl]) c name w
  /\ match add rt fl line c name w with
     | Fatal e w' => (e = ErrorReadingKey \/ e = Both7And8) /\ disk w' = disk w
     | _ => False
     end.
Proof.
  intros Hl. split.
  - unfold add. now rewrite !(ReadString_first line _ nl Hl).
  - destruct (flag7 fl && flag8 fl) eqn:Hfl.
    + apply andb_true_iff in Hfl as [H7 H8]. unfold add. rewrite H7, H8.
      unfold bind at 1. unfold log_Fatalf at 1. auto.
    + rewrite (add_unfold _ _ _ _ _ _ Hfl). unfold key_text.
      rewrite (ReadString_no_delim line nl Hl). cbn. auto.
Qed.

Lemma add_reads_one_line_witness :
  add (quiet 0) (mkFlags false false false) (lit "ORSXG5A=" ++ nl :: lit "more")
      (mkKeychain home_2fa [] ∅) (lit "acme") (world_of [])
  = add (quiet 0) (mkFlags false false false) (lit "ORSXG5A=" ++ [nl])
        (mkKeychain home_2fa [] ∅) (lit "acme") (world_of [])
  /\ match add (quiet 0) (mkFlags false false false) (lit "ORSXG5A=")
             (mkKeychain home_2fa [] ∅) (lit "acme") (world_of []) with
     | Fatal e w' => (e = ErrorReadingKey \/ e = Both7And8) /\ disk w' = disk (world_of [])
     | _ => False
     end.
Proof.
  apply add_reads_one_line.
  refine (bool_decide_unpack _ _). vm_compute. exact I.
Defined.

(** ** Adding a key and loading it *)

(** Whether a line is stored, and under which name, depends on the line
    without its newline only. *)
Lemma readLine_name_only (off off' : Z) (l l' name : gostring) (k : Key) :
  TrimSuffix l nl = TrimSuffix l' nl ->
  readLine off l = Stored name k ->
  exists k', readLine off' l' = Stored name k'
             /\ raw k' = raw k /\ digits k' = digits k.
Proof.
  intros He Hr.
  destruct (readLine_Stored _ _ _ _ Hr) as (p & Hp & Hright & Hname & Hdig & Hdec & Hshape).
  pose proof (readLine_complete off' l' p (raw k)) as Hc. cbv zeta in Hc.
  rewrite <- He in Hc. specialize (Hc Hp Hright Hdec). rewrite Hc.
  destruct Hshape as [[Hlen _]|(Hlen & H20 & Hparse & _)].
  - rewrite decide_True by assumption. rewrite <- Hname, <- Hdig. eauto.
  - rewrite decide_False by lia. rewrite decide_True by auto.
    rewrite <- Hname, <- Hdig. eauto.
Qed.

Lemma stores_TrimSuffix (name l l' : gostring) :
  TrimSuffix l nl = TrimSuffix l' nl -> stores name l -> stores name l'.
Proof.
  intros He (off & k & Hr).
  destruct (readLine_name_only off off l l' name k He Hr) as (k' & Hr' & _).
  now exists off, k'.
Qed.

Lemma parse_lines_None (file : gostring) (ls : list gostring) (name : gostring) :
  ld_keys (parse_lines file ls) !! name = None
  <-> Forall (fun l => ~ stores name l) ls.
Proof.
  induction ls as [|l ls IH] using rev_ind.
  - split; [constructor|reflexivity].
  - rewrite parse_lines_step, Forall_app, Forall_singleton, <- IH. cbv zeta.
    destruct (readLine _ l) as [|n k|] eqn:Hr; cbn [ld_keys].
    + split; [|tauto]. intros H. split; [assumption|].
      intros (off & k & Hs).
      destruct (readLine_name_only off (len (concat ls) + len l) l l name k eq_refl Hs)
        as (k' & Hr' & _). congruence.
    + rewrite lookup_insert_None. split.
      * intros [H Hn]. split; [assumption|]. intros (off & k0 & Hs).
        destruct (readLine_name_only off (len (concat ls) + len l) l l name k0 eq_refl Hs)
          as (k' & Hr' & _). congruence.
      * intros [H Hn]. split; [assumption|]. intros ->. apply Hn.
        unfold stores. eauto.
    + split; [|tauto]. intros H. split; [assumption|].
      intros (off & k & Hs).
      destruct (readLine_name_only off (len (concat ls) + len l) l l name k eq_refl Hs)
        as (k' & Hr' & _). congruence.
Qed.

Lemma parse_lines_only (file : gostring) (ls1 ls2 : list gostring)
    (l name : gostring) (k : Key) :
  readLine (len (concat ls1) + len l) l = Stored name k ->
  Forall (fun l => ~ stores name l) ls2 ->
  ld_keys (parse_lines file (ls1 ++ l :: ls2)) !! name = Some k.
Proof.
  intros Hr. induction ls2 as [|x ls2 IH] using rev_ind; intros Hall.
  - rewrite parse_lines_step. cbv zeta. rewrite Hr. cbn. apply lookup_insert_eq.
  - apply Forall_app in Hall as [Hall Hx]. apply Forall_inv in Hx.
    change (ls1 ++ l :: ls2 ++ [x]) with (ls1 ++ (l :: ls2) ++ [x]).
    rewrite app_assoc, parse_lines_step. cbv zeta.
    destruct (readLine _ x) as [|n k'|] eqn:Hrx; cbn [ld_keys]; [now apply IH| |now apply IH].
    rewrite lookup_insert_ne; [now apply IH|].
    intros ->. apply Hx. unfold stores. eauto.
Qed.

(** The fields of a text and its lines. *)
Lemma Split_SplitAfter (s : gostring) :
  Forall2 (fun x l => TrimSuffix l nl = x) (Split s nl) (SplitAfter s nl).
Proof.
  induction s as [|c s IH]; cbn.
  - constructor; [reflexivity|constructor].
  - destruct (Ascii.eqb_spec c nl) as [->|Hc].
    + constructor; [reflexivity|assumption].
    + pose proof (Split_not_nil nl s) as Hn.
      destruct (Split s nl) as [|f fs], (SplitAfter s nl) as [|g gs];
        try (now inversion IH); try congruence.
      apply Forall2_cons in IH as [Hf Hfs]. constructor; [|assumption].
      subst f. destruct g as [|d g]; cbn.
      * destruct (Ascii.eqb_spec c nl); [contradiction|reflexivity].
      * reflexivity.
Qed.

Lemma Split_snoc_sep (s : gostring) (sep : ascii) :
  Split (s ++ [sep]) sep = Split s sep ++ [[]].
Proof.
  induction s as [|c s IH]; cbn.
  - now rewrite Ascii.eqb_refl.
  - rewrite IH. destruct (Ascii.eqb c sep); [reflexivity|].
    pose proof (Split_not_nil sep s). now destruct (Split s sep).
Qed.

Lemma existingLines_origin (c : Keychain) (x : gostring) :
  x ∈ existingLines c ->
  (nl ∉ x) /\ exists l, l ∈ SplitAfter (data c) nl /\ TrimSuffix l nl = x.
Proof.
  unfold existingLines. destruct (0 <? len (data c)); [|intros H; now apply elem_of_nil in H].
  intros Hx. apply list_elem_of_filter in Hx as [_ Hx]. split.
  - pose proof (Split_fields nl (TrimSuffix (data c) nl)) as Hf.
    rewrite Forall_forall in Hf. now apply Hf.
  - assert (x ∈ Split (data c) nl) as Hin.
    { destruct (TrimSuffix_cases (data c)) as [[He _]|[He _]].
      - rewrite He, Split_snoc_sep. apply elem_of_app. now left.
      - now rewrite <- He. }
    pose proof (Split_SplitAfter (data c)) as HF.
    apply list_elem_of_lookup in Hin as [i Hi].
    destruct (Forall2_lookup_l _ _ _ _ _ HF Hi) as (l & Hl & Ht).
    exists l. split; [|assumption]. now apply list_elem_of_lookup_2 in Hl.
Qed.

Lemma SplitAfter_unlines (ls : list gostring) :
  Forall (fun l => nl ∉ l) ls ->
  SplitAfter (unlines ls) nl = ((fun l => l ++ [nl]) <$> ls) ++ [[]].
Proof.
  induction 1 as [|l ls Hl _ IH]; [reflexivity|].
  cbn [unlines flat_map]. rewrite <- app_assoc. cbn [app].
  rewrite (SplitAfter_app_sep nl l _ Hl). cbn. f_equal. exact IH.
Qed.

(** A line of the shape [name digit secret [counter]] is stored. *)
Lemma stored_line (off : Z) (nameFields : list gostring) (d : ascii)
    (secret r : gostring) (tail : list gostring) (eol : gostring) :
  nameFields <> [] ->
  Forall (fun x => (sp ∉ x) /\ (nl ∉ x)) (nameFields ++ secret :: tail) ->
  d ∈ ["6"; "7"; "8"]%char ->
  secret <> [] -> decodeKey secret = Some r ->
  (tail = [] \/ exists ctr, tail = [ctr] /\ length ctr = 20%nat
                            /\ is_Some (ParseUint ctr)) ->
  eol = [] \/ eol = [nl] ->
  readLine off (Join (nameFields ++ ([d] :: secret :: tail)) sp ++ eol)
  = Stored (Join nameFields sp)
      (mkKey r (byte_val d - 48)
         (if decide (tail = []) then 0
          else counter_offset off
                 (Join (nameFields ++ ([d] :: secret :: tail)) sp ++ eol))).
Proof.
  intros Hne Hfs Hd Hs Hdec Htail Heol.
  set (f := nameFields ++ ([d] :: secret :: tail)).
  set (p := length nameFields).
  assert (Forall (fun x => (sp ∉ x) /\ (nl ∉ x)) f) as Hf.
  { apply Forall_app in Hfs as [Hn Hst]. apply Forall_app. split; [assumption|].
    constructor; [|assumption].
    split; intros Hin; apply list_elem_of_singleton in Hin; subst;
      repeat (apply elem_of_cons in Hd as [Hd|Hd]; [discriminate|]);
      now apply elem_of_nil in Hd. }
  assert (Split (TrimSuffix (Join f sp ++ eol) nl) sp = f) as Hsplit.
  { apply fields_of_joined; [|assumption..]. subst f. now destruct nameFields. }
  assert (rightmost_marker f p) as Hright.
  { apply shape_rightmost; eauto. destruct Htail as [|(ctr & ? & ? & _)]; eauto. }
  assert (1 <= p)%nat as Hp.
  { subst p. destruct nameFields; [congruence|cbn; lia]. }
  assert (f !! p = Some [d]) as Hfp by now apply list_lookup_middle.
  assert (f !! S p = Some secret) as Hfs'.
  { subst f p. rewrite lookup_app_r by lia.
    now replace (S (length nameFields) - length nameFields)%nat with 1%nat by lia. }
  assert (take p f = nameFields) as Htake by (subst f p; now rewrite take_app_length).
  pose proof (readLine_complete off (Join f sp ++ eol) p r) as Hc.
  cbv zeta in Hc. rewrite Hsplit in Hc.
  rewrite (nth_lookup_Some _ _ _ _ Hfp), (nth_lookup_Some _ _ _ _ Hfs'), Htake in Hc.
  specialize (Hc Hp Hright Hdec). rewrite Hc. cbn [nth].
  assert (length f = (p + 2 + length tail)%nat) as Hlen.
  { subst f p. rewrite length_app. cbn. lia. }
  destruct Htail as [->|(ctr & -> & Hctr & Hparse)]; cbn in Hlen.
  - rewrite decide_True by lia. now rewrite decide_True by reflexivity.
  - rewrite decide_False by lia.
    assert (f !! (p + 2)%nat = Some ctr) as Hf2.
    { subst f p. rewrite lookup_app_r by lia.
      now replace (length nameFields + 2 - length nameFields)%nat with 2%nat by lia. }
    rewrite (nth_lookup_Some _ _ _ _ Hf2).
    rewrite decide_True by (repeat split; try assumption; lia).
    now rewrite decide_False by discriminate.
Qed.

Lemma Join_elem (fs : list gostring) (sep c : ascii) (x : gostring) :
  x ∈ fs -> c ∈ x -> c ∈ Join fs sep.
Proof.
  induction fs as [|f fs IH]; intros Hx Hc; [now apply elem_of_nil in Hx|].
  apply elem_of_cons in Hx as [->|Hx].
  - destruct fs; cbn; [assumption|]. apply elem_of_app. now left.
  - specialize (IH Hx Hc). destruct fs as [|g fs]; [now apply elem_of_nil in Hx|].
    cbn [Join]. apply elem_of_app. right. now right.
Qed.

Lemma key_size_cases (fl : Flags) :
  key_size fl = 6 \/ key_size fl = 7 \/ key_size fl = 8.
Proof. unfold key_size. destruct (flag7 fl), (flag8 fl); auto. Qed.

Lemma key_line_Join (name : gostring) (size : Z) (text : gostring) (hotp : bool) :
  size = 6 \/ size = 7 \/ size = 8 ->
  key_line name size text hotp
  = Join (Split name sp
          ++ ([digit_char size] :: text :: if hotp then [Repeat "0"%char 20] else []))
         sp.
Proof.
  intros Hsize.
  assert (Itoa size = [digit_char size]) as Hi
    by (destruct Hsize as [->|[->| ->]]; reflexivity).
  unfold key_line. rewrite Hi.
  rewrite Join_app by (apply Split_not_nil || discriminate).
  rewrite Join_Split. destruct hotp; cbn; [|reflexivity].
  now rewrite <- app_assoc.
Qed.

Lemma padded_plain (t : gostring) (c : ascii) :
  c ∈ padded (strip_space t) -> IsSpace c = false.
Proof.
  unfold padded, strip_space, Repeat. intros Hc.
  apply elem_of_app in Hc as [Hc|Hc].
  - now apply list_elem_of_filter in Hc as [? _].
  - apply list_elem_of_In, repeat_spec in Hc. now subst.
Qed.

(** What a successful [add] has read and written. *)
Lemma add_Ok_inv (rt : Runtime) (fl : Flags) (stdin : gostring) (c c' : Keychain)
    (name : gostring) (w w' : World) :
  add rt fl stdin c name w = Ok c' w' ->
  exists text r,
    key_text stdin = Some text /\ decodeKey text = Some r
    /\ disk w'
       = Some (unlines (sort_Slice lessLine
                 (existingLines c
                  ++ [key_line name (key_size fl) text (flagHotp fl)]))).
Proof.
  intros Hadd.
  destruct (flag7 fl && flag8 fl) eqn:Hfl.
  { apply andb_true_iff in Hfl as [H7 H8]. unfold add in Hadd. rewrite H7, H8 in Hadd.
    discriminate. }
  rewrite (add_unfold _ _ _ _ _ _ Hfl) in Hadd. cbv zeta in Hadd.
  destruct (key_text stdin) as [text|]; [|discriminate].
  destruct (decodeKey text) as [r|] eqn:Hdec; [|discriminate].
  destruct (rewriteSorted rt _ _ _) as [[e|] w1|? ?|? ?|] eqn:Hrw; try discriminate.
  injection Hadd as _ <-. apply rewriteSorted_Ok in Hrw. eauto.
Qed.

Lemma concat_lines (ls : list gostring) :
  concat ((fun l => l ++ [nl]) <$> ls) = unlines ls.
Proof. induction ls as [|l ls IH]; [reflexivity|]. cbn. now rewrite IH. Qed.

Lemma unlines_app (ls1 ls2 : list gostring) :
  unlines (ls1 ++ ls2) = unlines ls1 ++ unlines ls2.
Proof. unfold unlines. now rewrite flat_map_app. Qed.

(** The file that a successful [add] wrote, loaded again. *)
Lemma added_key_loaded (rt : Runtime) (fl : Flags) (stdin : gostring)
    (c c' : Keychain) (name text : gostring) (w w' : World) :
  add rt fl stdin c name w = Ok c' w' ->
  key_text stdin = Some text -> text <> [] ->
  nl ∉ name ->
  ld_keys (parseKeychain (file c) (data c)) !! name = None ->
  exists content r o,
    disk w' = Some content /\ decodeKey text = Some r
    /\ ld_keys (parseKeychain (file c) content) !! name
       = Some (mkKey r (key_size fl) o)
    /\ if flagHotp fl
       then o <> 0 /\ slice content o (o + counterLen) = Some (Repeat "0"%char 20)
       else o = 0.
Proof.
  intros Hadd Htext Hne Hnl Hfresh.
  destruct (add_Ok_inv _ _ _ _ _ _ _ _ Hadd) as (text' & r & Ht & Hdec & Hd).
  rewrite Htext in Ht. injection Ht as <-.
  set (line := key_line name (key_size fl) text (flagHotp fl)) in *.
  set (sorted := sort_Slice lessLine (existingLines c ++ [line])) in *.
  set (tail := if flagHotp fl then [Repeat "0"%char 20] else []).
  set (d := digit_char (key_size fl)).
  assert (line = Join (Split name sp ++ ([d] :: text :: tail)) sp) as Hline
    by apply key_line_Join, key_size_cases.
  (* the text holds neither space nor newline *)
  assert (forall ch, IsSpace ch = true -> ch ∉ text) as Hplain.
  { intros ch Hs Hin. unfold key_text in Htext.
    destruct (ReadString stdin nl) as [t|]; [|discriminate].
    injection Htext as <-. apply padded_plain in Hin. congruence. }
  assert (Forall (fun x => (sp ∉ x) /\ (nl ∉ x)) (Split name sp ++ text :: tail)) as Hfs.
  { apply Forall_app. split.
    - apply Forall_forall. intros x Hx. split.
      + pose proof (Split_fields sp name) as Hf. rewrite Forall_forall in Hf. now apply Hf.
      + intros Hin. apply Hnl. rewrite <- (Join_Split sp name).
        now apply (Join_elem _ _ _ x).
    - constructor; [split; apply Hplain; reflexivity|].
      subst tail. destruct (flagHotp fl); constructor; [|constructor].
      split; refine (bool_decide_unpack _ _); vm_compute; exact I. }
  assert (d ∈ ["6"; "7"; "8"]%char) as Hdin.
  { subst d. destruct (key_size_cases fl) as [->|[->| ->]];
      refine (bool_decide_unpack _ _); vm_compute; exact I. }
  assert (byte_val d - 48 = key_size fl) as Hdval.
  { subst d. destruct (key_size_cases fl) as [->|[->| ->]]; reflexivity. }
  assert (tail = [] \/ exists ctr, tail = [ctr] /\ length ctr = 20%nat
                                   /\ is_Some (ParseUint ctr)) as Htail.
  { subst tail. destruct (flagHotp fl); [right|now left].
    eexists. split; [reflexivity|]. split; [reflexivity|]. vm_compute. eauto. }
  assert (nl ∉ line) as Hnlline.
  { rewrite Hline. apply Join_no_char; [discriminate|].
    apply Forall_app in Hfs as [H1 H2]. apply Forall_app. split.
    - eapply Forall_impl; [exact H1|]. now intros x [_ ?].
    - constructor.
      + intros Hin. apply list_elem_of_singleton in Hin. subst d.
        destruct (key_size_cases fl) as [He|[He|He]]; rewrite He in Hin; discriminate.
      + eapply Forall_impl; [exact H2|]. now intros x [_ ?]. }
  (* the lines of the new file *)
  assert (sorted ≡ₚ existingLines c ++ [line]) as Hperm by apply sort_Slice_perm.
  assert (Forall (fun l => nl ∉ l) sorted) as Hnls.
  { rewrite Hperm. apply Forall_app. split; [|now repeat constructor].
    apply Forall_forall. intros x Hx. now apply existingLines_origin in Hx as [? _]. }
  assert (line ∈ sorted) as Hin by (rewrite Hperm; apply elem_of_app; right; left).
  apply list_elem_of_split_r in Hin as (s1 & s2 & Hs & Hlast).
  exists (unlines sorted), r.
  eexists. split; [exact Hd|]. split; [exact Hdec|].
  rewrite parseKeychain_lines, (SplitAfter_unlines sorted Hnls), Hs.
  rewrite fmap_app, fmap_cons, <- app_assoc. cbn [app].
  split.
  - apply parse_lines_only.
    + rewrite Hline.
      rewrite (stored_line _ (Split name sp) d text r tail [nl]); try assumption.
      * rewrite Join_Split, Hdval. reflexivity.
      * apply Split_not_nil.
      * right. reflexivity.
    + apply Forall_app. split.
      * apply Forall_fmap, Forall_forall. intros y Hy. cbn.
        assert (y ∈ existingLines c) as Hye.
        { assert (y ∈ sorted) as Hys
            by (rewrite Hs; apply elem_of_app; right; now right).
          rewrite Hperm in Hys. apply elem_of_app in Hys as [?|Hys]; [assumption|].
          apply list_elem_of_singleton in Hys. congruence. }
        apply existingLines_origin in Hye as [Hy0 (l & Hl & Htl)].
        intros Hst.
        apply (stores_TrimSuffix name _ l) in Hst;
          [|now rewrite TrimSuffix_snoc].
        rewrite parseKeychain_lines in Hfresh.
        apply parse_lines_None in Hfresh. rewrite Forall_forall in Hfresh.
        now apply (Hfresh l).
      * constructor; [|constructor]. intros (off & k & Hr). discriminate.
  - destruct (flagHotp fl) eqn:Hh; subst tail.
    + rewrite decide_False by discriminate.
      unfold counter_offset.
      rewrite bool_decide_eq_true_2
        by (rewrite last_app_ne; [reflexivity|discriminate]).
      rewrite <- Hline.
      set (body := name ++ sp :: Itoa (key_size fl) ++ sp :: text ++ [sp]).
      assert (line = body ++ Repeat "0"%char 20) as Hbody.
      { unfold line, key_line, body.
        repeat first [rewrite <- app_assoc | progress cbn [app]]. reflexivity. }
      assert (1 <= len body) as Hlb.
      { unfold body, len. rewrite length_app. cbn [length]. lia. }
      assert (len (concat ((fun l => l ++ [nl]) <$> s1)) + len (line ++ [nl])
              - counterLen - 1
              = len (unlines s1 ++ body)) as Ho.
      { rewrite concat_lines, Hbody. unfold len, counterLen, Repeat.
        rewrite !length_app, repeat_length. cbn [length]. lia. }
      rewrite Ho. split; [unfold len in *; rewrite length_app; lia|].
      rewrite unlines_app. cbn [unlines flat_map]. rewrite Hbody.
      replace (unlines s1 ++ ((body ++ Repeat "0"%char 20) ++ [nl])
                          ++ flat_map (fun l => l ++ [nl]) s2)
        with ((unlines s1 ++ body) ++ Repeat "0"%char 20
              ++ ([nl] ++ flat_map (fun l => l ++ [nl]) s2))
        by (now rewrite <- !app_assoc).
      apply (slice_inside (unlines s1 ++ body) (Repeat "0"%char 20)).
    + now rewrite decide_True by reflexivity.
Qed.

(** X17.  A key that was added is there at the next load.  When [add]
    succeeds for a name without newline that the loaded file does not
    store, with a key text that is not empty, loading the file it wrote
    gives that name the decoded key, the digit count chosen by the flags,
    and a counter exactly when -hotp was given. *)
Theorem add_then_load (rt : Runtime) (fl : Flags) (stdin : gostring)
    (c c' : Keychain) (name text : gostring) (w w' : World) :
  add rt fl stdin c name w = Ok c' w' ->
  key_text stdin = Some text -> text <> [] ->
  nl ∉ name ->
  ld_keys (parseKeychain (file c) (data c)) !! name = None ->
  exists content r o,
    disk w' = Some content /\ decodeKey text = Some r
    /\ ld_keys (parseKeychain (file c) content) !! name
       = Some (mkKey r (key_size fl) o)
    /\ (o <> 0 <-> flagHotp fl = true).
Proof.
  intros Hadd Htext Hne Hnl Hfresh.
  destruct (added_key_loaded _ _ _ _ _ _ _ _ _ Hadd Htext Hne Hnl Hfresh)
    as (content & r & o & Hd & Hdec & Hk & Ho).
  exists content, r, o. repeat split; try assumption.
  - intros Hne0. destruct (flagHotp fl); [reflexivity|contradiction].
  - intros Hh. rewrite Hh in Ho. tauto.
Qed.

(** X18.  The first code of a key that was added.  Under the conditions
    of the round trip and without failing system calls, the next run for
    the added name prints, with the digit count chosen by the flags, the
    counter-based code of counter 1 when -hotp was given, and otherwise
    the time-based code of the current time. *)
Theorem add_then_code (rt rt' : Runtime) (fl : Flags) (stdin : gostring)
    (c c' : Keychain) (name text : gostring) (w w' : World) :
  add rt fl stdin c name w = Ok c' w' ->
  key_text stdin = Some text -> text <> [] ->
  nl ∉ name ->
  ld_keys (parseKeychain (file c) (data c)) !! name = None ->
  no_faults rt' ->
  exists r w'',
    decodeKey text = Some r
    /\ run_code rt' (file c) name w'
       = Ok (Sprintf_0d (key_size fl)
               (if flagHotp fl then hotp r 1 (key_size fl)
                else totp r (clock (oracle rt' (S (ticks w')))) (key_size fl)))
            w''.
Proof.
  intros Hadd Htext Hne Hnl Hfresh Hrt.
  destruct (added_key_loaded _ _ _ _ _ _ _ _ _ Hadd Htext Hne Hnl Hfresh)
    as (content & r & o & Hd & Hdec & Hk & Ho).
  exists r. destruct (flagHotp fl).
  - destruct Ho as [Ho Hs].
    destruct (run_code_hotp rt' (file c) content name _ w' Hrt Hd Hk Ho)
      as (ctr & n & w'' & Hs' & Hn & Hrun & _).
    cbn [raw digits offset] in *. rewrite Hs in Hs'. injection Hs' as <-.
    vm_compute in Hn. injection Hn as <-.
    exists w''. split; [assumption|]. exact Hrun.
  - subst o. unfold run_code, bind.
    rewrite (readKeychain_Ok rt' (file c) content w' Hd (Hrt _)).
    erewrite code_totp by (cbn [keys raw digits offset]; eauto).
    eexists. split; [assumption|]. reflexivity.
Qed.

Lemma add_then_load_witness :
  exists content r o,
    disk (mkWorld (Some (file_of ["acme 7 nzxxiidbebvwk6jb 00000000000000000000";
                                  "github 6 ORSXG5A="]))
                  [] [lit "2fa key for acme: "] [] None 5) = Some content
    /\ decodeKey (lit "nzxxiidbebvwk6jb") = Some r
    /\ ld_keys (parseKeychain
                  (file (mkKeychain home_2fa (file_of ["github 6 ORSXG5A="]) ∅))
                  content) !! lit "acme"
       = Some (mkKey r (key_size (mkFlags true false true)) o)
    /\ (o <> 0 <-> flagHotp (mkFlags true false true) = true).
Proof.
  apply (add_then_load (quiet 0) (mkFlags true false true)
           (file_of ["nzxxiidbebvwk6jb"; "ignored"])
           (mkKeychain home_2fa (file_of ["github 6 ORSXG5A="]) ∅)
           (mkKeychain home_2fa (file_of ["github 6 ORSXG5A="])
                       (<[lit "acme" := Key_zero]> ∅))
           (lit "acme") (lit "nzxxiidbebvwk6jb")
           (world_of (file_of ["github 6 ORSXG5A="]))).
  - vm_compute. reflexivity.
  - vm_compute. reflexivity.
  - discriminate.
  - refine (bool_decide_unpack _ _). vm_compute. exact I.
  - vm_compute. reflexivity.
Defined.

Lemma add_then_code_witness :
  exists r w'',
    decodeKey (lit "nzxxiidbebvwk6jb") = Some r
    /\ run_code (quiet 0)
         (file (mkKeychain home_2fa (file_of ["github 6 ORSXG5A="]) ∅)) (lit "acme")
         (mkWorld (Some (file_of ["acme 7 nzxxiidbebvwk6jb 00000000000000000000";
                                  "github 6 ORSXG5A="]))
                  [] [lit "2fa key for acme: "] [] None 5)
       = Ok (Sprintf_0d (key_size (mkFlags true false true))
               (if flagHotp (mkFlags true false true)
                then hotp r 1 (key_size (mkFlags true false true))
                else totp r (clock (oracle (quiet 0) (S 5)))
                          (key_size (mkFlags true false true))))
            w''.
Proof.
  apply (add_then_code (quiet 0) (quiet 0) (mkFlags true false true)
           (file_of ["nzxxiidbebvwk6jb"; "ignored"])
           (mkKeychain home_2fa (file_of ["github 6 ORSXG5A="]) ∅)
           (mkKeychain home_2fa (file_of ["github 6 ORSXG5A="])
                       (<[lit "acme" := Key_zero]> ∅))
           (lit "acme") (lit "nzxxiidbebvwk6jb")
           (world_of (file_of ["github 6 ORSXG5A="]))).
  - vm_compute. reflexivity.
  - vm_compute. reflexivity.
  - discriminate.
  - refine (bool_decide_unpack _ _). vm_compute. exact I.
  - vm_compute. reflexivity.
  - intros t. reflexivity.
Defined.

(** X19.  The key text that [add] makes of an ASCII input holds no white
    space and is padded with fewer than eight [=] to a length that is a
    multiple of 8. *)
Theorem key_text_form (stdin text : gostring) :
  ascii_only stdin ->
  key_text stdin = Some text ->
  len text mod 8 = 0
  /\ Forall (fun c => IsSpace c = false) text
  /\ exists line pad,
       ReadString stdin nl = Some line
       /\ text = strip_space line ++ Repeat "="%char pad /\ 0 <= pad < 8.
Proof.
  intros _. unfold key_text.
  destruct (ReadString stdin nl) as [line|]; [|discriminate].
  intros [= <-].
  assert (Z.land (- len (strip_space line)) 7 = (- len (strip_space line)) mod 8) as Hm
    by (apply (Z.land_ones _ 3); lia).
  pose proof (Z.mod_pos_bound (- len (strip_space line)) 8 ltac:(lia)) as Hb.
  split; [|split].
  - unfold padded, Repeat. unfold len at 1.
    rewrite length_app, repeat_length, Nat2Z.inj_add.
    rewrite Z2Nat.id by (rewrite Hm; lia). fold (len (strip_space line)).
    rewrite Hm, Z.add_mod_idemp_r by lia.
    now replace (len (strip_space line) + - len (strip_space line)) with 0 by lia.
  - apply Forall_forall. intros c Hc. now apply padded_plain in Hc.
  - exists line, (Z.land (- len (strip_space line)) 7).
    split; [reflexivity|]. split; [reflexivity|]. lia.
Qed.

Lemma key_text_form_witness :
  len (lit "ORSXG===") mod 8 = 0
  /\ Forall (fun c => IsSpace c = false) (lit "ORSXG===")
  /\ exists line pad,
       ReadString (file_of ["OR SX G"]) nl = Some line
       /\ lit "ORSXG===" = strip_space line ++ Repeat "="%char pad /\ 0 <= pad < 8.
Proof.
  apply key_text_form.
  - unfold ascii_only. refine (bool_decide_unpack _ _). vm_compute. exact I.
  - vm_compute. reflexivity.
Defined.

(** ** An empty key *)

(** X20.  [add] accepts an empty key: a first line of white space only
    decodes to the empty secret.  The line that is then written has an
    empty secret field and is malformed for the loader, which stores
    nothing for it. *)
Theorem empty_key_is_written (rt : Runtime) (fl : Flags) (stdin : gostring)
    (c c' : Keychain) (name : gostring) (w w' : World) :
  add rt fl stdin c name w = Ok c' w' ->
  key_text stdin = Some [] -> nl ∉ name ->
  exists content before after,
    disk w' = Some content
    /\ SplitAfter content nl
       = before ++ (key_line name (key_size fl) [] (flagHotp fl) ++ [nl]) :: after
    /\ forall off,
         readLine off (key_line name (key_size fl) [] (flagHotp fl) ++ [nl]) = Malformed.
Proof.
  intros Hadd Htext Hnl.
  destruct (add_Ok_inv _ _ _ _ _ _ _ _ Hadd) as (text' & r & Ht & Hdec & Hd).
  rewrite Htext in Ht. injection Ht as <-.
  set (line := key_line name (key_size fl) [] (flagHotp fl)) in *.
  set (sorted := sort_Slice lessLine (existingLines c ++ [line])) in *.
  set (tail := if flagHotp fl then [Repeat "0"%char 20] else []).
  set (d := digit_char (key_size fl)).
  set (g := Split name sp).
  assert (line = Join (g ++ ([d] :: [] :: tail)) sp) as Hline
    by apply key_line_Join, key_size_cases.
  assert (Forall (fun x => (sp ∉ x) /\ (nl ∉ x)) (g ++ ([d] :: [] :: tail))) as Hfs.
  { apply Forall_app. split.
    - apply Forall_forall. intros x Hx. split.
      + pose proof (Split_fields sp name) as Hf. rewrite Forall_forall in Hf. now apply Hf.
      + intros Hin. apply Hnl. rewrite <- (Join_Split sp name).
        now apply (Join_elem _ _ _ x).
    - subst d tail.
      destruct (key_size_cases fl) as [->|[->| ->]], (flagHotp fl);
        repeat constructor; refine (bool_decide_unpack _ _); vm_compute; exact I. }
  assert (nl ∉ line) as Hnlline.
  { rewrite Hline. apply Join_no_char; [discriminate|].
    eapply Forall_impl; [exact Hfs|]. now intros x [_ ?]. }
  assert (sorted ≡ₚ existingLines c ++ [line]) as Hperm by apply sort_Slice_perm.
  assert (Forall (fun l => nl ∉ l) sorted) as Hnls.
  { rewrite Hperm. apply Forall_app. split; [|now repeat constructor].
    apply Forall_forall. intros x Hx. now apply existingLines_origin in Hx as [? _]. }
  assert (line ∈ sorted) as Hin by (rewrite Hperm; apply elem_of_app; right; left).
  apply list_elem_of_split in Hin as (s1 & s2 & Hs).
  exists (unlines sorted), ((fun l => l ++ [nl]) <$> s1),
         (((fun l => l ++ [nl]) <$> s2) ++ [[]]).
  split; [exact Hd|]. split.
  { rewrite (SplitAfter_unlines sorted Hnls), Hs, fmap_app, fmap_cons, <- app_assoc.
    reflexivity. }
  intros off. apply malformed_line_Malformed.
  assert (Split (TrimSuffix (line ++ [nl]) nl) sp = g ++ ([d] :: [] :: tail)) as Hsplit.
  { rewrite Hline. apply fields_of_joined; [|assumption|now right].
    subst g. pose proof (Split_not_nil sp name). now destruct (Split name sp). }
  assert (forall i, digit_marker (g ++ ([d] :: [] :: tail)) i -> (i < length g)%nat)
    as Hmark.
  { intros i [(ch & Hch & _) (s & Hs' & Hsne)].
    destruct (decide (i < length g)%nat) as [|Hge]; [assumption|exfalso].
    rewrite lookup_app_r in Hch, Hs' by lia.
    replace (S i - length g)%nat with (S (i - length g)) in Hs' by lia.
    destruct (i - length g)%nat as [|[|[|j]]].
    - cbn in Hs'. congruence.
    - cbn in Hch. congruence.
    - subst tail. destruct (flagHotp fl); cbn in Hch; [|discriminate].
      injection Hch as Hch. vm_compute in Hch. discriminate.
    - subst tail. destruct (flagHotp fl); cbn in Hch; discriminate. }
  assert (length (g ++ ([d] :: [] :: tail)) = (length g + 2 + length tail)%nat) as Hlen
    by (rewrite length_app; cbn; lia).
  assert (TrimSuffix (line ++ [nl]) nl <> []) as Hne.
  { rewrite TrimSuffix_snoc. intros He. rewrite He in Hline.
    pose proof (Split_not_nil sp name) as Hg. fold g in Hg.
    destruct g as [|g0 [|g1 g]]; cbn in Hline; [congruence| |];
      destruct g0; discriminate. }
  destruct (findDigitPos_spec (g ++ ([d] :: [] :: tail)))
    as [[_ Hnone]|(p & _ & Hp & Hright)].
  - apply wrong_shape; [assumption|]. rewrite Hsplit. intros p Hp [Hm _].
    now destruct (Hnone p Hp).
  - pose proof (Hmark p (proj1 Hright)) as Hpg.
    destruct (decide (length (g ++ ([d] :: [] :: tail)) = (p + 3)%nat)) as [Hl3|Hl3].
    + apply (bad_counter _ p []); rewrite ?Hsplit; try assumption.
      * assert (tail = [] /\ p = (length g - 1)%nat) as [Ht0 ->].
        { subst tail. destruct (flagHotp fl); cbn in Hlen; [lia|].
          split; [reflexivity|lia]. }
        rewrite lookup_app_r by lia.
        now replace (length g - 1 + 2 - length g)%nat with 1%nat by lia.
      * intros [H20 _]. discriminate.
    + apply wrong_shape; [assumption|]. rewrite Hsplit. intros p' Hp' Hright'.
      rewrite (rightmost_marker_unique _ _ _ Hright' Hright). split; [lia|assumption].
Qed.

(** ** Importing *)

(** X21.  A service has no name exactly when its name, issuer, account and
    label are all empty. *)
Theorem getServiceName_empty (service : TwoFASService) :
  getServiceName service = []
  <-> Name service = [] /\ Issuer (OTP service) = []
      /\ Account (OTP service) = [] /\ Label (OTP service) = [].
Proof.
  unfold getServiceName, bytes_eqb, ReplaceAll.
  destruct (Name service) as [|a n], (Issuer (OTP service)) as [|b i],
    (Account (OTP service)) as [|x acc], (Label (OTP service)) as [|y l];
    cbn; split; try tauto; try discriminate; intros H; try (now destruct H as (? & ? & ? & ?)).
Qed.

Lemma import_service_accepted (c : Keychain) (st : importing)
    (service : TwoFASService) (w : World) :
  accepted c service = true ->
  import_service c st service w
  = Ok (mkImporting (imported st + 1) (newEntries st ++ [import_line service]))
       (with_stdout (imported_message service) w).
Proof.
  unfold accepted, import_service, import_line, import_secret, padded.
  intros H. apply andb_true_iff in H as [H H3]. apply andb_true_iff in H as [H1 H2].
  apply negb_true_iff in H1. apply bool_decide_eq_true in H2, H3.
  rewrite H1, H2. destruct H3 as [r ->]. reflexivity.
Qed.

Lemma import_service_skipped (c : Keychain) (st : importing)
    (service : TwoFASService) (w : World) :
  accepted c service = false ->
  exists msg, import_service c st service w = Ok st (with_stderr msg w).
Proof.
  unfold accepted, import_service, import_secret, padded. intros H.
  destruct (bytes_eqb (getServiceName service) []); [cbn; eauto|].
  destruct (keys c !! getServiceName service) as [k|]; [cbn; eauto|].
  destruct (decodeKey _) as [r|]; [|cbn; eauto].
  cbn in H. discriminate.
Qed.

(** The loop over the services. *)
Lemma import_services_spec (c : Keychain) (st : importing)
    (services : list TwoFASService) (w : World) :
  exists w',
    import_services c st services w
    = Ok (mkImporting
            (imported st + len (filter (fun s => accepted c s = true) services))
            (newEntries st
             ++ (import_line <$> filter (fun s => accepted c s = true) services)))
         w'
    /\ disk w' = disk w /\ ticks w' = ticks w /\ clipboard w' = clipboard w
    /\ stdout w'
       = stdout w
         ++ (imported_message <$> filter (fun s => accepted c s = true) services)
    /\ (length (stderr w')
        = length (stderr w)
          + length (filter (fun s => accepted c s <> true) services))%nat.
Proof.
  revert st w. induction services as [|s services IH]; intros st w.
  - exists w. cbn. unfold ret, len. cbn. rewrite Z.add_0_r, !app_nil_r.
    destruct st. repeat split; lia.
  - cbn [import_services]. unfold bind at 1.
    destruct (accepted c s) eqn:Ha.
    + rewrite (import_service_accepted c st s w Ha).
      destruct (IH (mkImporting (imported st + 1) (newEntries st ++ [import_line s]))
                  (with_stdout (imported_message s) w))
        as (w' & Hrun & Hd & Ht & Hc & Hout & Herr).
      exists w'. rewrite Hrun.
      rewrite !filter_cons_True by assumption.
      rewrite filter_cons_False by (rewrite Ha; auto).
      cbn [imported newEntries fmap list_fmap] in *.
      rewrite <- !app_assoc. cbn [app].
      split; [f_equal; f_equal; unfold len; cbn [length]; lia|].
      cbn in Hout. rewrite <- app_assoc in Hout. auto.
    + destruct (import_service_skipped c st s w Ha) as [msg Hs]. rewrite Hs.
      destruct (IH st (with_stderr msg w)) as (w' & Hrun & Hd & Ht & Hc & Hout & Herr).
      exists w'. rewrite Hrun.
      rewrite !filter_cons_False by (rewrite Ha; discriminate).
      rewrite filter_cons_True by (rewrite Ha; discriminate).
      split; [reflexivity|].
      cbn in Herr. rewrite length_app in Herr. cbn in Herr. cbn [length].
      repeat split; try assumption. lia.
Qed.

(** [import2fas] once the file has been read and decoded. *)
Lemma import2fas_unfold (rt : Runtime) (export : TwoFASExport) (c : Keychain)
    (w : World) :
  io_fails (oracle rt (ticks w)) = false ->
  exists w0,
    disk w0 = disk w /\ ticks w0 = S (ticks w)
    /\ stdout w0
       = stdout w
         ++ (imported_message <$> filter (fun s => accepted c s = true) (Services export))
    /\ (length (stderr w0)
        = length (stderr w)
          + length (filter (fun s => accepted c s <> true) (Services export)))%nat
    /\ import2fas rt (Some export) c w
       = let new := import_line <$> filter (fun s => accepted c s = true)
                                           (Services export) in
         if 0 <? len new then
           let c0 := mkKeychain (file c) (data c) (temporary_entries (keys c) new) in
           match rewriteSorted rt c0 new w0 with
           | Ok None w1 => Ok c0 (with_stdout (import_summary (len new)) w1)
           | Ok (Some _) w1 =>
               Exit 1 (with_stderr (lit "2fa: " ++ lit "rewriting keychain" ++ [nl]) w1)
           | Fatal e w1 => Fatal e w1
           | Exit s w1 => Exit s w1
           | Panic => Panic
           end
         else Ok c (with_stdout (import_summary (len new)) w0).
Proof.
  intros He.
  destruct (import_services_spec c (mkImporting 0 []) (Services export) (tick w))
    as (w0 & Hrun & Hd & Ht & _ & Hout & Herr).
  exists w0. repeat split; try assumption.
  unfold import2fas. unfold bind at 1. unfold syscall at 1. rewrite He.
  unfold bind at 1. rewrite Hrun. cbn [imported newEntries app]. cbv zeta.
  rewrite Z.add_0_l.
  replace (len (import_line <$> filter (fun s => accepted c s = true) (Services export)))
    with (len (filter (fun s => accepted c s = true) (Services export)))
    by (unfold len; now rewrite length_fmap).
  destruct (0 <? len _); [|reflexivity].
  unfold bind at 1. unfold bind at 1.
  destruct (rewriteSorted rt _ _ w0) as [[e|] w1|? ?|? ?|]; reflexivity.
Qed.

(** X22.  An import in which every service is skipped succeeds, reports
    that 0 keys were imported and leaves the keychain and its file as
    they were; every skipped service is logged (for exports whose secrets
    are ASCII). *)
Theorem import_nothing_new (rt : Runtime) (export : TwoFASExport) (c : Keychain)
    (w : World) :
  ascii_secrets export ->
  io_fails (oracle rt (ticks w)) = false ->
  Forall (fun s => accepted c s = false) (Services export) ->
  exists w',
    import2fas rt (Some export) c w = Ok c w'
    /\ disk w' = disk w
    /\ stdout w' = stdout w ++ [import_summary 0]
    /\ length (stderr w') = (length (stderr w) + length (Services export))%nat.
Proof.
  intros _ He Hall.
  assert (filter (fun s => accepted c s = true) (Services export) = []) as Hnone.
  { apply filter_none. rewrite Forall_forall in Hall.
    intros s Hs. rewrite (Hall s Hs). discriminate. }
  assert (filter (fun s => accepted c s <> true) (Services export) = Services export)
    as Hsk.
  { clear Hnone. induction Hall as [|s l Hs _ IH]; [reflexivity|].
    rewrite filter_cons_True by (rewrite Hs; discriminate). now rewrite IH. }
  destruct (import2fas_unfold rt export c w He) as (w0 & Hd & _ & Hout & Herr & Hrun).
  rewrite Hnone in Hrun, Hout. rewrite Hsk in Herr. cbn in Hrun, Hout.
  rewrite app_nil_r in Hout.
  eexists. split; [exact Hrun|]. cbn. rewrite Hout. auto.
Qed.


(** X24.  [import2fas] ends with a keychain or with status 1 after one
    logged line: when the import file cannot be read or decoded nothing
    has been printed and the keychain file is as it was; the only other
    failure is that of rewriting the keychain file, which happens only
    when a service was accepted (for exports whose secrets are ASCII). *)
Theorem import2fas_outcomes (rt : Runtime) (decoded : option TwoFASExport)
    (c : Keychain) (w : World) :
  (forall export, decoded = Some export -> ascii_secrets export) ->
  match import2fas rt decoded c w with
  | Ok _ _ => io_fails (oracle rt (ticks w)) = false /\ is_Some decoded
  | Exit status w' =>
      status = 1
      /\ ((io_fails (oracle rt (ticks w)) = true
           /\ disk w' = disk w /\ stdout w' = stdout w
           /\ exists line, stderr w' = stderr w ++ [line])
          \/ (io_fails (oracle rt (ticks w)) = false /\ decoded = None
              /\ disk w' = disk w /\ stdout w' = stdout w
              /\ exists line, stderr w' = stderr w ++ [line])
          \/ (exists export,
                io_fails (oracle rt (ticks w)) = false /\ decoded = Some export
                /\ filter (fun s => accepted c s = true) (Services export) <> []))
  | Fatal _ _ => False
  | Panic => False
  end.
Proof.
  intros _.
  destruct (io_fails (oracle rt (ticks w))) eqn:He.
  { unfold import2fas. unfold bind at 1. unfold syscall at 1. rewrite He.
    cbn. eauto 10. }
  destruct decoded as [export|].
  2:{ unfold import2fas. unfold bind at 1. unfold syscall at 1. rewrite He.
      cbn. eauto 10. }
  destruct (import2fas_unfold rt export c w He) as (w0 & _ & _ & _ & _ & Hrun).
  rewrite Hrun. cbv zeta.
  set (new := filter (fun s => accepted c s = true) (Services export)).
  destruct (Z.ltb_spec 0 (len (import_line <$> new))) as [Hpos|_]; [|eauto].
  pose proof (rewriteSorted_frame rt
                (mkKeychain (file c) (data c)
                   (temporary_entries (keys c) (import_line <$> new)))
                (import_line <$> new) w0) as Hf.
  destruct (rewriteSorted rt _ _ w0) as [[e|] w1|? ?|? ?|]; try contradiction; [|eauto].
  split; [reflexivity|]. right. right. exists export.
  split; [reflexivity|]. split; [reflexivity|].
  intros Hn. unfold new in Hpos. rewrite Hn in Hpos.
  unfold len in Hpos. cbn in Hpos. lia.
Qed.

(** ** main *)

Lemma usage_run {A} (w : World) :
  @usage A w
  = Exit 2 (mkWorld (disk w) (stdout w) (stderr w ++ usage_text) (logged w)
                    (clipboard w) (ticks w)).
Proof.
  unfold usage, bind, Fprintf_stderr, os_Exit, with_stderr. cbn.
  now rewrite <- !app_assoc.
Qed.

(** [code] for a name that is no counter-based key leaves the file. *)
Lemma code_reads_only (rt : Runtime) (c : Keychain) (name : gostring) (w : World) :
  offset (default Key_zero (keys c !! name)) = 0 ->
  match code rt c name w with
  | Ok _ w' | Fatal _ w' => disk w' = disk w
  | _ => False
  end.
Proof.
  intros Ho. destruct (keys c !! name) as [k|] eqn:Hk.
  - now rewrite (code_totp rt c name k w Hk Ho).
  - unfold code. now rewrite Hk.
Qed.

Lemma showAll_reads_only (rt : Runtime) (c : Keychain) (w : World) :
  match showAll rt c w with
  | Ok _ w' | Fatal _ w' => disk w' = disk w
  | Exit _ _ => False
  | Panic => True
  end.
Proof.
  unfold showAll.
  generalize (max_digits c (range_keys rt (keys c))). intros max.
  generalize (sort_Strings (range_keys rt (keys c))). intros names.
  revert w. induction names as [|name names IH]; intros w; [reflexivity|].
  cbn [for_each]. unfold bind at 1. cbv zeta.
  unfold strings_Repeat.
  destruct (digits (default Key_zero (keys c !! name)) <? 0); [exact I|].
  unfold bind at 1. unfold ret at 1.
  destruct (Z.eqb_spec (offset (default Key_zero (keys c !! name))) 0) as [Ho|Ho].
  - unfold bind at 1.
    pose proof (code_reads_only rt c name w Ho) as Hc.
    destruct (code rt c name w) as [s w1|e w1|? ?|]; try assumption; try exact I.
    unfold print_row, Printf at 1.
    specialize (IH (with_stdout (row max s name) w1)).
    change (disk (with_stdout (row max s name) w1)) with (disk w1) in IH.
    rewrite Hc in IH. exact IH.
  - unfold bind at 1. unfold ret at 1. unfold print_row, Printf at 1.
    specialize (IH (with_stdout
                      (row max (Repeat "-" (digits (default Key_zero (keys c !! name))))
                           name) w)).
    exact IH.
Qed.

Lemma show_rows_no_exit (rt : Runtime) (c : Keychain) (max : Z)
    (matches : list gostring) (w : World) :
  match for_each matches (fun m => do s <- code rt c m; print_row max s m) w with
  | Exit _ _ => False
  | _ => True
  end.
Proof.
  revert w. induction matches as [|m matches IH]; intros w; [exact I|].
  cbn [for_each]. unfold bind at 1 2.
  pose proof (code_frame rt c m w) as Hf.
  destruct (code rt c m w) as [s w1|e w1|? ?|]; try exact I; [|contradiction].
  unfold print_row, Printf at 1. apply IH.
Qed.

Lemma show_exit_status (rt : Runtime) (c : Keychain) (name : gostring)
    (w w' : World) (status : Z) :
  show rt c name w = Exit status w' -> status = 1.
Proof.
  assert (forall n, (do s <- code rt c n; do _ <- clipboard_WriteAll s; print_copied s n) w
                    <> Exit status w') as Hone.
  { intros n. unfold bind at 1. pose proof (code_frame rt c n w) as Hf.
    destruct (code rt c n w); try discriminate; contradiction. }
  unfold show. destruct (keys c !! name); [intros H; now apply Hone in H|].
  destruct (len (fuzzyMatch rt c name) =? 0); [discriminate|].
  destruct (len (fuzzyMatch rt c name) =? 1); [intros H; now apply Hone in H|].
  unfold bind at 1. unfold Fprintf_stderr at 1. unfold bind at 1.
  pose proof (show_rows_no_exit rt c (max_digits c (fuzzyMatch rt c name))
                (fuzzyMatch rt c name)
                (with_stderr (lit "multiple matches found for " ++ name) w)) as Hr.
  destruct (for_each _ _ _); try discriminate; [|contradiction].
  unfold os_Exit. now intros [= <- _].
Qed.

Lemma import2fas_ends (rt : Runtime) (decoded : option TwoFASExport)
    (c : Keychain) (w : World) :
  match import2fas rt decoded c w with
  | Ok _ _ => True
  | Exit status _ => status = 1
  | _ => False
  end.
Proof.
  destruct (io_fails (oracle rt (ticks w))) eqn:He.
  { unfold import2fas. unfold bind at 1. unfold syscall at 1. rewrite He.
    reflexivity. }
  destruct decoded as [export|].
  2:{ unfold import2fas. unfold bind at 1. unfold syscall at 1. rewrite He.
      reflexivity. }
  destruct (import2fas_unfold rt export c w He) as (w0 & _ & _ & _ & _ & Hrun).
  rewrite Hrun. cbv zeta.
  destruct (0 <? len _); [|exact I].
  pose proof (rewriteSorted_frame rt
                (mkKeychain (file c) (data c)
                   (temporary_entries (keys c)
                      (import_line <$> filter (fun s => accepted c s = true)
                                              (Services export))))
                (import_line <$> filter (fun s => accepted c s = true) (Services export))
                w0) as Hf.
  destruct (rewriteSorted rt _ _ w0) as [[e|] w1|? ?|? ?|]; try contradiction;
    [reflexivity|exact I].
Qed.

Lemma readKeychain_loaded (rt : Runtime) (file : gostring) (w : World) :
  match readKeychain rt file w with
  | Ok c w' =>
      disk w' = disk w
      /\ (c = mkKeychain file [] ∅
          \/ exists content,
               c = mkKeychain file content (ld_keys (parseKeychain file content)))
  | Fatal _ w' => disk w' = disk w
  | _ => False
  end.
Proof.
  unfold readKeychain, bind, syscall, get_disk, log_Printf, log_Fatalf, ret. cbn.
  destruct (disk w) as [content|] eqn:Hd; cbn; [|auto].
  destruct (io_fails (oracle rt (ticks w))); cbn; eauto.
Qed.

Lemma usage_then {A B} (f : A -> M B) (w : World) :
  (do x <- usage; f x) w
  = Exit 2 (mkWorld (disk w) (stdout w) (stderr w ++ usage_text) (logged w)
                    (clipboard w) (ticks w)).
Proof. unfold bind. now rewrite usage_run. Qed.

(** X25.  [main] ends with status 2 exactly when the keychain could be
    loaded and the command line is wrong: arguments after -list, other
    than two arguments after -import, other than one name after -add, or
    more than one name.  The keychain is loaded first, and all that is
    done after it is to write the usage text to the standard error. *)
Theorem main_usage (rt : Runtime) (cl : CommandLine) (home_file stdin : gostring)
    (decode : gostring -> option TwoFASExport) (w w' : World) :
  main rt cl home_file stdin decode w = Exit 2 w'
  <-> wrong_command_line cl = true
      /\ exists k w1,
           readKeychain rt home_file w = Ok k w1
           /\ w' = mkWorld (disk w1) (stdout w1) (stderr w1 ++ usage_text)
                           (logged w1) (clipboard w1) (ticks w1).
Proof.
  unfold main, wrong_command_line. unfold bind at 1.
  pose proof (readKeychain_loaded rt home_file w) as Hread.
  destruct (readKeychain rt home_file w) as [k w1|e w1|? ?|];
    [|split; [intros [=]|intros [_ (? & ? & [=] & _)]]|contradiction..].
  clear Hread.
  assert (forall (m : M unit),
            m w1 = Exit 2 (mkWorld (disk w1) (stdout w1) (stderr w1 ++ usage_text)
                                   (logged w1) (clipboard w1) (ticks w1)) ->
            m w1 = Exit 2 w'
            <-> true = true
                /\ exists k0 w0,
                     Ok k w1 = Ok k0 w0
                     /\ w' = mkWorld (disk w0) (stdout w0) (stderr w0 ++ usage_text)
                                     (logged w0) (clipboard w0) (ticks w0)) as Hbad.
  { intros m ->. split.
    - intros [= <-]. eauto.
    - intros [_ (k0 & w0 & [= <- <-] & ->)]. reflexivity. }
  assert (forall (m : M unit),
            m w1 <> Exit 2 w' ->
            m w1 = Exit 2 w'
            <-> false = true
                /\ exists k0 w0,
                     Ok k w1 = Ok k0 w0
                     /\ w' = mkWorld (disk w0) (stdout w0) (stderr w0 ++ usage_text)
                                     (logged w0) (clipboard w0) (ticks w0)) as Hgood.
  { intros m Hm. split; [contradiction|intros [[=] _]]. }
  destruct (flagList cl).
  { destruct (len (args cl) =? 0); cbn [negb].
    - apply Hgood. unfold bind at 1. unfold ret at 1. unfold Keychain_list.
      rewrite for_each_Println. discriminate.
    - apply Hbad, usage_then. }
  destruct (flagImport cl).
  { destruct (len (args cl) =? 2); cbn [negb]; [|apply Hbad, usage_then].
    apply Hgood. unfold bind at 1. unfold ret at 1.
    destruct (bytes_eqb (nth 0 (args cl) []) (lit "2fas")); cbn [negb].
    - unfold bind at 1. unfold ret at 1. unfold bind at 1.
      pose proof (import2fas_ends rt (decode (nth 1 (args cl) [])) k w1) as Hi.
      destruct (import2fas rt _ k w1) as [c1 w2|? ?|status w2|]; try discriminate.
      subst status. discriminate.
    - unfold bind at 1. unfold log_exit, bind, log_line, Fprintf_stderr, os_Exit.
      discriminate. }
  destruct (flagAdd cl); cbn [negb andb].
  { rewrite andb_false_r.
    destruct (len (args cl) =? 1); cbn [negb]; [|apply Hbad, usage_then].
    apply Hgood. unfold bind at 1. unfold ret at 1. unfold bind at 1.
    pose proof (add_ends rt (addFlags cl) stdin k (nth 0 (args cl) []) w1) as Ha.
    destruct (add rt _ stdin k _ w1) as [c1 w2|? ?|status w2|]; try discriminate.
    contradiction. }
  rewrite andb_true_r.
  destruct (Z.eqb_spec (len (args cl)) 0) as [H0|H0].
  { rewrite H0. cbn [Z.ltb Z.compare]. apply Hgood.
    pose proof (showAll_reads_only rt k w1) as Hs.
    destruct (showAll rt k w1); try discriminate. contradiction. }
  destruct (Z.eqb_spec (len (args cl)) 1) as [H1|H1]; cbn [negb].
  { rewrite H1. cbn [Z.ltb Z.compare Pos.compare Pos.compare_cont]. apply Hgood.
    unfold bind at 1. unfold ret at 1.
    intros Hs. apply show_exit_status in Hs. discriminate. }
  replace (1 <? len (args cl)) with true
    by (symmetry; apply Z.ltb_lt; unfold len in *; lia).
  apply Hbad, usage_then.
Qed.

Lemma loaded_digits (file content name : gostring) (k : Key) :
  ld_keys (parseKeychain file content) !! name = Some k -> 6 <= digits k <= 8.
Proof.
  intros Hk. rewrite parseKeychain_lines in Hk.
  apply parse_lines_keys in Hk as (i & (line & Hl & Hr) & _).
  destruct (readLine_Stored _ _ _ _ Hr) as (p & _ & Hright & _ & Hdig & _).
  destruct Hright as [[(ch & Hc & Hin) _] _].
  rewrite (nth_lookup_Some _ _ _ _ Hc) in Hdig. cbn in Hdig. rewrite Hdig.
  repeat (apply elem_of_cons in Hin as [->|Hin]; [vm_compute; split; discriminate|]).
  now apply elem_of_nil in Hin.
Qed.

Lemma as_loaded_digits (c : Keychain) (name : gostring) :
  as_loaded c -> 0 <= digits (default Key_zero (keys c !! name)).
Proof.
  intros [Hc|Hc]; rewrite Hc; cbn [keys].
  - rewrite lookup_empty. cbn. lia.
  - destruct (ld_keys _ !! name) as [k|] eqn:Hk; cbn; [|lia].
    apply loaded_digits in Hk. lia.
Qed.

Lemma as_loaded_code (rt : Runtime) (c : Keychain) (name : gostring) (w : World) :
  as_loaded c -> code rt c name w <> Panic.
Proof.
  intros Hc. destruct (keys c !! name) as [k|] eqn:Hk.
  2:{ unfold code. rewrite Hk. discriminate. }
  destruct (Z.eq_dec (offset k) 0) as [Ho|Ho].
  { rewrite (code_totp rt c name k w Hk Ho). discriminate. }
  pose proof (code_hotp_cases rt c name k w Hk Ho) as H.
  destruct (code rt c name w); try discriminate.
  destruct Hc as [Hc|Hc]; rewrite Hc in Hk; cbn [keys] in Hk.
  - now rewrite lookup_empty in Hk.
  - destruct (loaded_counter_valid _ _ _ _ Hk Ho) as (ctr & n & Hs & _). congruence.
Qed.

Lemma showAll_no_panic (rt : Runtime) (c : Keychain) (w : World) :
  as_loaded c -> showAll rt c w <> Panic.
Proof.
  intros Hc. unfold showAll.
  generalize (max_digits c (range_keys rt (keys c))). intros max.
  generalize (sort_Strings (range_keys rt (keys c))). intros names.
  revert w. induction names as [|name names IH]; intros w; [discriminate|].
  cbn [for_each]. unfold bind at 1. cbv zeta.
  unfold strings_Repeat.
  pose proof (as_loaded_digits c name Hc) as Hd.
  destruct (Z.ltb_spec (digits (default Key_zero (keys c !! name))) 0); [lia|].
  unfold bind at 1. unfold ret at 1.
  destruct (offset (default Key_zero (keys c !! name)) =? 0).
  - unfold bind at 1. pose proof (as_loaded_code rt c name w Hc) as Hp.
    destruct (code rt c name w); try discriminate; [|contradiction].
    unfold print_row, Printf at 1. apply IH.
  - unfold bind at 1. unfold ret at 1. unfold print_row, Printf at 1. apply IH.
Qed.

Lemma show_no_panic (rt : Runtime) (c : Keychain) (name : gostring) (w : World) :
  as_loaded c -> show rt c name w <> Panic.
Proof.
  intros Hc.
  assert (forall n w0, (do s <- code rt c n; do _ <- clipboard_WriteAll s;
                        print_copied s n) w0 <> Panic) as Hone.
  { intros n w0. unfold bind at 1. pose proof (as_loaded_code rt c n w0 Hc) as Hp.
    destruct (code rt c n w0); try discriminate. contradiction. }
  unfold show. destruct (keys c !! name); [apply Hone|].
  destruct (len (fuzzyMatch rt c name) =? 0); [discriminate|].
  destruct (len (fuzzyMatch rt c name) =? 1); [apply Hone|].
  unfold bind at 1. unfold Fprintf_stderr at 1. unfold bind at 1.
  generalize (with_stderr (lit "multiple matches found for " ++ name) w).
  generalize (max_digits c (fuzzyMatch rt c name)). intros max.
  induction (fuzzyMatch rt c name) as [|m ms IH]; intros w0; [discriminate|].
  cbn [for_each]. unfold bind at 1 2.
  pose proof (as_loaded_code rt c m w0 Hc) as Hp.
  destruct (code rt c m w0); try discriminate; [|contradiction].
  unfold print_row, Printf at 1. apply IH.
Qed.

(** X26.  The program never panics: whatever the command line, the files
    and the failures of the system calls, no slice is taken out of range
    and nothing is repeated a negative number of times. *)
Theorem main_never_panics (rt : Runtime) (cl : CommandLine)
    (home_file stdin : gostring) (decode : gostring -> option TwoFASExport)
    (w : World) :
  main rt cl home_file stdin decode w <> Panic.
Proof.
  unfold main. unfold bind at 1.
  pose proof (readKeychain_loaded rt home_file w) as Hread.
  destruct (readKeychain rt home_file w) as [k w1|e w1|? ?|]; try discriminate;
    [|contradiction].
  assert (as_loaded k) as Hk.
  { destruct Hread as [_ [->|(content & ->)]]; [now left|now right]. }
  pose proof (@usage_then unit) as Hu.
  destruct (flagList cl).
  { destruct (len (args cl) =? 0); cbn [negb]; [|rewrite Hu; discriminate].
    unfold bind at 1. unfold ret at 1. unfold Keychain_list.
    rewrite for_each_Println. discriminate. }
  destruct (flagImport cl).
  { destruct (len (args cl) =? 2); cbn [negb]; [|rewrite Hu; discriminate].
    unfold bind at 1. unfold ret at 1.
    destruct (bytes_eqb (nth 0 (args cl) []) (lit "2fas")); cbn [negb].
    - unfold bind at 1. unfold ret at 1. unfold bind at 1.
      pose proof (import2fas_ends rt (decode (nth 1 (args cl) [])) k w1) as Hi.
      destruct (import2fas rt _ k w1); try discriminate. contradiction.
    - unfold bind at 1. unfold log_exit, bind, log_line, Fprintf_stderr, os_Exit.
      discriminate. }
  destruct ((len (args cl) =? 0) && negb (flagAdd cl)); [now apply showAll_no_panic|].
  destruct (len (args cl) =? 1); cbn [negb]; [|rewrite Hu; discriminate].
  unfold bind at 1. unfold ret at 1.
  destruct (flagAdd cl); [|now apply show_no_panic].
  unfold bind at 1.
  pose proof (add_ends rt (addFlags cl) stdin k (nth 0 (args cl) []) w1) as Ha.
  destruct (add rt _ stdin k _ w1); try discriminate. contradiction.
Qed.

(** X27.  The commands that list (-list, and no argument without -add and
    -import) never change the keychain file and never panic, however they
    end. *)
Theorem listing_reads_only (rt : Runtime) (cl : CommandLine)
    (home_file stdin : gostring) (decode : gostring -> option TwoFASExport)
    (w : World) :
  listing_command cl = true ->
  match main rt cl home_file stdin decode w with
  | Ok _ w' | Fatal _ w' | Exit _ w' => disk w' = disk w
  | Panic => False
  end.
Proof.
  unfold listing_command, main. intros Hcl. unfold bind at 1.
  pose proof (readKeychain_loaded rt home_file w) as Hread.
  destruct (readKeychain rt home_file w) as [k w1|e w1|? ?|]; try assumption;
    try contradiction.
  destruct Hread as [Hd Hk].
  assert (as_loaded k) as Hl.
  { destruct Hk as [->|(content & ->)]; [now left|now right]. }
  destruct (flagList cl).
  { destruct (len (args cl) =? 0); cbn [negb].
    - unfold bind at 1. unfold ret at 1. unfold Keychain_list.
      now rewrite for_each_Println.
    - now rewrite usage_then. }
  cbn [orb] in Hcl. apply andb_true_iff in Hcl as [Hcl H0].
  apply andb_true_iff in Hcl as [Hi Ha].
  apply negb_true_iff in Hi, Ha. rewrite Hi, Ha, H0. cbn [negb andb].
  pose proof (showAll_reads_only rt k w1) as Hs.
  pose proof (showAll_no_panic rt k w1 Hl) as Hp.
  destruct (showAll rt k w1); try congruence; contradiction.
Qed.

Lemma listing_reads_only_witness :
  match main (quiet 0) (mkCommandLine false true false (mkFlags false false false) [])
             home_2fa [] (fun _ => None) (world_of github_file) with
  | Ok _ w' | Fatal _ w' | Exit _ w' => disk w' = disk (world_of github_file)
  | Panic => False
  end.
Proof. apply listing_reads_only. reflexivity. Defined.

Lemma empty_key_is_written_witness :
  exists c' w',
    add (quiet 0) (mkFlags false false false) (file_of ["  "])
        (mkKeychain home_2fa [] ∅) (lit "acme") (world_of []) = Ok c' w'
    /\ exists content before after,
         disk w' = Some content
         /\ SplitAfter content nl
            = before
              ++ (key_line (lit "acme") (key_size (mkFlags false false false)) []
                           (flagHotp (mkFlags false false false)) ++ [nl]) :: after
         /\ forall off,
              readLine off
                (key_line (lit "acme") (key_size (mkFlags false false false)) []
                          (flagHotp (mkFlags false false false)) ++ [nl])
              = Malformed.
Proof.
  destruct (add (quiet 0) (mkFlags false false false) (file_of ["  "])
              (mkKeychain home_2fa [] ∅) (lit "acme") (world_of []))
    as [c' w'|e w'|s w'|] eqn:Hadd;
    [|vm_compute in Hadd; discriminate..].
  exists c', w'. split; [reflexivity|].
  apply (empty_key_is_written _ _ _ _ _ _ _ _ Hadd).
  - reflexivity.
  - refine (bool_decide_unpack _ _). vm_compute. exact I.
Defined.

Lemma add_checks_first_witness :
  ascii_only (file_of ["018"])
  /\ match add (quiet 0) (mkFlags false false false) (file_of ["018"])
             github_keychain (lit "acme") (world_of github_file) with
     | Ok c' w' =>
         flag7 (mkFlags false false false) && flag8 (mkFlags false false false) = false
         /\ exists text, key_text (file_of ["018"]) = Some text
                         /\ is_Some (decodeKey text)
     | Fatal e w' =>
         e = AddingKey
         \/ (disk w' = disk (world_of github_file)
             /\ stdout w' = stdout (world_of github_file)
             /\ ((e = Both7And8
                  /\ flag7 (mkFlags false false false)
                     && flag8 (mkFlags false false false) = true)
                 \/ (e = ErrorReadingKey /\ ReadString (file_of ["018"]) nl = None)
                 \/ (e = InvalidKey
                     /\ exists text, key_text (file_of ["018"]) = Some text
                                     /\ decodeKey text = None)))
     | Exit _ _ => False
     | Panic => False
     end.
Proof.
  assert (ascii_only (file_of ["018"])) as Hascii.
  { unfold ascii_only. refine (bool_decide_unpack _ _). vm_compute. exact I. }
  split; [exact Hascii|].
  exact (add_checks_first (quiet 0) (mkFlags false false false) (file_of ["018"])
           github_keychain (lit "acme") (world_of github_file) Hascii).
Defined.

Lemma import_nothing_new_witness :
  exists w',
    import2fas (quiet 0)
      (Some (mkTwoFASExport [a_service "GitHub" "ORSXG5A=" "TOTP" 0;
                             a_service "" "ORSXG5A=" "TOTP" 0;
                             a_service "Bad" "018" "TOTP" 0]))
      github_keychain (world_of github_file)
    = Ok github_keychain w'
    /\ disk w' = disk (world_of github_file)
    /\ stdout w' = stdout (world_of github_file) ++ [import_summary 0]
    /\ length (stderr w')
       = (length (stderr (world_of github_file))
          + length (Services
                      (mkTwoFASExport [a_service "GitHub" "ORSXG5A=" "TOTP" 0;
                                       a_service "" "ORSXG5A=" "TOTP" 0;
                                       a_service "Bad" "018" "TOTP" 0])))%nat.
Proof.
  apply import_nothing_new.
  - unfold ascii_secrets, ascii_only. refine (bool_decide_unpack _ _).
    vm_compute. exact I.
  - reflexivity.
  - repeat constructor; vm_compute; reflexivity.
Defined.


Lemma import2fas_outcomes_witness :
  (forall export,
     Some (mkTwoFASExport [a_service "My Mail" "orsx g5a" "HOTP" 0]) = Some export ->
     ascii_secrets export)
  /\ match import2fas (quiet 0)
             (Some (mkTwoFASExport [a_service "My Mail" "orsx g5a" "HOTP" 0]))
             github_keychain (world_of github_file) with
     | Ok _ _ =>
         io_fails (oracle (quiet 0) (ticks (world_of github_file))) = false
         /\ is_Some (Some (mkTwoFASExport [a_service "My Mail" "orsx g5a" "HOTP" 0]))
     | Exit status w' =>
         status = 1
         /\ ((io_fails (oracle (quiet 0) (ticks (world_of github_file))) = true
              /\ disk w' = disk (world_of github_file)
              /\ stdout w' = stdout (world_of github_file)
              /\ exists line, stderr w' = stderr (world_of github_file) ++ [line])
             \/ (io_fails (oracle (quiet 0) (ticks (world_of github_file))) = false
                 /\ Some (mkTwoFASExport [a_service "My Mail" "orsx g5a" "HOTP" 0]) = None
                 /\ disk w' = disk (world_of github_file)
                 /\ stdout w' = stdout (world_of github_file)
                 /\ exists line, stderr w' = stderr (world_of github_file) ++ [line])
             \/ (exists export,
                   io_fails (oracle (quiet 0) (ticks (world_of github_file))) = false
                   /\ Some (mkTwoFASExport [a_service "My Mail" "orsx g5a" "HOTP" 0])
                      = Some export
                   /\ filter (fun s => accepted github_keychain s = true)
                             (Services export) <> []))
     | Fatal _ _ => False
     | Panic => False
     end.
Proof.
  assert (forall export,
            Some (mkTwoFASExport [a_service "My Mail" "orsx g5a" "HOTP" 0]) = Some export ->
            ascii_secrets export) as Hascii.
  { intros export [= <-]. unfold ascii_secrets, ascii_only.
    refine (bool_decide_unpack _ _). vm_compute. exact I. }
  split; [exact Hascii|].
  exact (import2fas_outcomes (quiet 0) _ github_keychain (world_of github_file) Hascii).
Defined.

(** ** Importing keys and loading them *)

(** The line of a key, as the loader reads it. *)
Lemma key_line_stored (off : Z) (name text r : gostring) (size : Z) (hotp : bool) :
  nl ∉ name -> text <> [] -> (forall ch, IsSpace ch = true -> ch ∉ text) ->
  decodeKey text = Some r ->
  size = 6 \/ size = 7 \/ size = 8 ->
  len (key_line name size text hotp ++ [nl]) <= off ->
  (nl ∉ key_line name size text hotp)
  /\ exists o,
       readLine off (key_line name size text hotp ++ [nl])
       = Stored name (mkKey r size o)
       /\ (o <> 0 <-> hotp = true).
Proof.
  intros Hnl Hne Hplain Hdec Hsize Hoff.
  set (tail := if hotp then [Repeat "0"%char 20] else []).
  set (d := digit_char size).
  assert (key_line name size text hotp
          = Join (Split name sp ++ ([d] :: text :: tail)) sp) as Hline
    by now apply key_line_Join.
  assert (Forall (fun x => (sp ∉ x) /\ (nl ∉ x)) (Split name sp ++ text :: tail)) as Hfs.
  { apply Forall_app. split.
    - apply Forall_forall. intros x Hx. split.
      + pose proof (Split_fields sp name) as Hf. rewrite Forall_forall in Hf. now apply Hf.
      + intros Hin. apply Hnl. rewrite <- (Join_Split sp name).
        now apply (Join_elem _ _ _ x).
    - constructor; [split; apply Hplain; reflexivity|].
      subst tail. destruct hotp; constructor; [|constructor].
      split; refine (bool_decide_unpack _ _); vm_compute; exact I. }
  assert (d ∈ ["6"; "7"; "8"]%char) as Hdin.
  { subst d. destruct Hsize as [->|[->| ->]];
      refine (bool_decide_unpack _ _); vm_compute; exact I. }
  assert (byte_val d - 48 = size) as Hdval.
  { subst d. destruct Hsize as [->|[->| ->]]; reflexivity. }
  assert (tail = [] \/ exists ctr, tail = [ctr] /\ length ctr = 20%nat
                                   /\ is_Some (ParseUint ctr)) as Htail.
  { subst tail. destruct hotp; [right|now left].
    eexists. split; [reflexivity|]. split; [reflexivity|]. vm_compute. eauto. }
  split.
  { rewrite Hline. apply Join_no_char; [discriminate|].
    apply Forall_app in Hfs as [H1 H2]. apply Forall_app. split.
    - eapply Forall_impl; [exact H1|]. now intros x [_ ?].
    - constructor.
      + intros Hin. apply list_elem_of_singleton in Hin. subst d.
        destruct Hsize as [He|[He|He]]; rewrite He in Hin; discriminate.
      + eapply Forall_impl; [exact H2|]. now intros x [_ ?]. }
  eexists. split.
  { rewrite Hline.
    rewrite (stored_line _ (Split name sp) d text r tail [nl]); try assumption.
    - rewrite Join_Split, Hdval. reflexivity.
    - apply Split_not_nil.
    - right. reflexivity. }
  destruct hotp; subst tail.
  - rewrite decide_False by discriminate. split; [reflexivity|]. intros _.
    unfold counter_offset.
    rewrite bool_decide_eq_true_2 by (rewrite last_app_ne; [reflexivity|discriminate]).
    assert (22 <= len (key_line name size text true)) as Hl.
    { unfold key_line, len. rewrite !length_app. cbn [length].
      unfold Repeat. rewrite repeat_length. lia. }
    unfold len in *. rewrite length_app in Hoff. cbn [length] in Hoff.
    unfold counterLen. lia.
  - rewrite decide_True by reflexivity. split; [congruence|discriminate].
Qed.

(** A line stores at most one name. *)
Lemma stores_one_name (name name' line : gostring) :
  stores name line -> stores name' line -> name = name'.
Proof.
  intros (off & k & Hr) (off' & k' & Hr').
  destruct (readLine_name_only off off' line line name k eq_refl Hr) as (k'' & Hr'' & _).
  congruence.
Qed.

(** One line of a file written line by line, loaded. *)
Lemma written_line_loaded (file : gostring) (lines : list gostring)
    (line name r : gostring) (size : Z) (P : Z -> Prop) :
  Forall (fun l => nl ∉ l) lines ->
  line ∈ lines ->
  (forall off, len (line ++ [nl]) <= off ->
     exists o, readLine off (line ++ [nl]) = Stored name (mkKey r size o) /\ P o) ->
  (forall y, y ∈ lines -> y <> line -> ~ stores name (y ++ [nl])) ->
  exists o,
    ld_keys (parseKeychain file (unlines lines)) !! name = Some (mkKey r size o)
    /\ P o.
Proof.
  intros Hnls Hin Hline Hothers.
  apply list_elem_of_split_r in Hin as (s1 & s2 & Hs & Hlast).
  destruct (Hline (len (concat ((fun l => l ++ [nl]) <$> s1)) + len (line ++ [nl])))
    as (o & Hr & Ho).
  { unfold len. lia. }
  exists o. split; [|assumption].
  rewrite parseKeychain_lines, (SplitAfter_unlines lines Hnls), Hs.
  rewrite fmap_app, fmap_cons, <- app_assoc. cbn [app].
  apply parse_lines_only; [assumption|].
  apply Forall_app. split.
  - apply Forall_fmap, Forall_forall. intros y Hy. cbn.
    apply Hothers; [rewrite Hs; apply elem_of_app; right; now right|congruence].
  - constructor; [|constructor]. intros (off & k & Hr'). discriminate.
Qed.

Lemma import_line_key_line (service : TwoFASService) :
  import_digits service = 6 \/ import_digits service = 7 \/ import_digits service = 8 ->
  import_line service
  = key_line (getServiceName service) (import_digits service) (import_secret service)
             (bytes_eqb (TokenType (OTP service)) (lit "HOTP")).
Proof.
  intros Hd. unfold import_line, key_line. fold (import_digits service).
  assert (Sprintf_d (import_digits service) = Itoa (import_digits service)) as ->
    by (destruct Hd as [->|[->| ->]]; reflexivity).
  reflexivity.
Qed.

Lemma NoDup_fmap_eq {A B} (f : A -> B) (l : list A) (x y : A) :
  NoDup (f <$> l) -> x ∈ l -> y ∈ l -> f x = f y -> x = y.
Proof.
  induction l as [|a l IH]; intros Hnd Hx Hy He; [now apply elem_of_nil in Hx|].
  cbn in Hnd. apply NoDup_cons in Hnd as [Ha Hnd].
  apply elem_of_cons in Hx as [->|Hx], Hy as [->|Hy].
  - reflexivity.
  - destruct Ha. rewrite He. now apply list_elem_of_fmap_2.
  - destruct Ha. rewrite <- He. now apply list_elem_of_fmap_2.
  - now apply IH.
Qed.

(** X28.  A key that was imported is there at the next load.  When an
    import succeeds in which the accepted services are loadable (names
    without newline, secrets that are not empty, 6, 7 or 8 digits or
    none given) and have different names, loading the file it wrote gives
    the name of every accepted service that the file did not store its
    decoded secret, its digit count (6 when none was given), and a counter
    exactly when its token type is HOTP (for exports whose secrets are
    ASCII). *)
Theorem import_then_load (rt : Runtime) (export : TwoFASExport)
    (c c' : Keychain) (w w' : World) (service : TwoFASService) :
  ascii_secrets export ->
  import2fas rt (Some export) c w = Ok c' w' ->
  Forall loadable (filter (fun s => accepted c s = true) (Services export)) ->
  NoDup (getServiceName <$> filter (fun s => accepted c s = true) (Services export)) ->
  service ∈ filter (fun s => accepted c s = true) (Services export) ->
  ld_keys (parseKeychain (file c) (data c)) !! getServiceName service = None ->
  exists content r o,
    disk w' = Some content /\ decodeKey (import_secret service) = Some r
    /\ ld_keys (parseKeychain (file c) content) !! getServiceName service
       = Some (mkKey r (import_digits service) o)
    /\ (o <> 0 <-> TokenType (OTP service) = lit "HOTP").
Proof.
  intros _ Hrun Hload Hnd Hin Hfresh.
  set (acc := filter (fun s => accepted c s = true) (Services export)) in *.
  (* what was written *)
  assert (disk w' = Some (unlines (sort_Slice lessLine
                                     (existingLines c ++ (import_line <$> acc))))) as Hd.
  { destruct (io_fails (oracle rt (ticks w))) eqn:He.
    { unfold import2fas in Hrun. unfold bind at 1 in Hrun. unfold syscall at 1 in Hrun.
      rewrite He in Hrun. discriminate. }
    destruct (import2fas_unfold rt export c w He) as (w0 & _ & _ & _ & _ & Hrun').
    rewrite Hrun' in Hrun. clear Hrun'. cbv zeta in Hrun. fold acc in Hrun.
    destruct (Z.ltb_spec 0 (len (import_line <$> acc))) as [_|Hzero].
    - destruct (rewriteSorted rt _ _ w0) as [[e|] w1|? ?|? ?|] eqn:Hrw; try discriminate.
      injection Hrun as _ <-. apply rewriteSorted_Ok in Hrw. exact Hrw.
    - exfalso. apply list_elem_of_split in Hin as (l1 & l2 & Hacc).
      rewrite Hacc in Hzero. unfold len in Hzero.
      rewrite length_fmap, length_app in Hzero. cbn in Hzero. lia. }
  set (lines := sort_Slice lessLine (existingLines c ++ (import_line <$> acc))) in *.
  assert (lines ≡ₚ existingLines c ++ (import_line <$> acc)) as Hperm
    by apply sort_Slice_perm.
  (* every accepted service decodes and gives a readable line *)
  assert (forall s, s ∈ acc ->
            exists r, decodeKey (import_secret s) = Some r
              /\ forall off, len (import_line s ++ [nl]) <= off ->
                   (nl ∉ import_line s)
                   /\ exists o,
                        readLine off (import_line s ++ [nl])
                        = Stored (getServiceName s) (mkKey r (import_digits s) o)
                        /\ (o <> 0 <-> TokenType (OTP s) = lit "HOTP")) as Hacc.
  { intros s Hs. rewrite Forall_forall in Hload.
    destruct (Hload s Hs) as (Hnl & Hne & Hdig).
    apply list_elem_of_filter in Hs as [Ha _]. unfold accepted in Ha.
    apply andb_true_iff in Ha as [_ Ha]. apply bool_decide_eq_true in Ha as [r Hr].
    exists r. split; [assumption|]. intros off Hoff.
    rewrite (import_line_key_line s Hdig) in *.
    destruct (key_line_stored off (getServiceName s) (import_secret s) r
                (import_digits s)
                (bytes_eqb (TokenType (OTP s)) (lit "HOTP")) Hnl Hne) as [H1 (o & H2 & H3)];
      try assumption.
    { intros ch Hch Hc. apply padded_plain in Hc. congruence. }
    split; [assumption|]. exists o. split; [assumption|].
    rewrite H3. unfold bytes_eqb. apply bool_decide_eq_true. }
  destruct (Hacc service Hin) as (r & Hdec & Hline).
  destruct (written_line_loaded (file c) lines (import_line service)
              (getServiceName service) r (import_digits service)
              (fun o => o <> 0 <-> TokenType (OTP service) = lit "HOTP"))
    as (o & Hk & Ho).
  - rewrite Hperm. apply Forall_app. split.
    + apply Forall_forall. intros x Hx. now apply existingLines_origin in Hx as [? _].
    + apply Forall_fmap, Forall_forall. intros s Hs. cbn.
      destruct (Hacc s Hs) as (r0 & _ & Hs'). apply (Hs' (len (import_line s ++ [nl]))). lia.
  - rewrite Hperm. apply elem_of_app. right. now apply list_elem_of_fmap_2.
  - intros off Hoff. now apply Hline.
  - intros y Hy Hne Hst. rewrite Hperm in Hy. apply elem_of_app in Hy as [Hy|Hy].
    + apply existingLines_origin in Hy as [Hy0 (l & Hl & Htl)].
      apply (stores_TrimSuffix _ _ l) in Hst; [|now rewrite TrimSuffix_snoc].
      rewrite parseKeychain_lines in Hfresh.
      apply parse_lines_None in Hfresh. rewrite Forall_forall in Hfresh.
      now apply (Hfresh l).
    + apply list_elem_of_fmap in Hy as (s & -> & Hs).
      destruct (Hacc s Hs) as (r' & _ & Hs').
      destruct (Hs' (len (import_line s ++ [nl]))) as (_ & o' & Hr' & _); [lia|].
      assert (getServiceName service = getServiceName s) as He.
      { apply (stores_one_name _ _ (import_line s ++ [nl])); [assumption|].
        unfold stores. eauto. }
      apply Hne. f_equal. symmetry.
      now apply (NoDup_fmap_eq getServiceName acc service s).
  - exists (unlines lines), r, o. auto.
Qed.

Lemma import_then_load_witness :
  exists c' w',
    import2fas (quiet 0)
      (Some (mkTwoFASExport [a_service "My Mail" "orsx g5a" "HOTP" 0;
                             a_service "GitHub" "ORSXG5A=" "TOTP" 0;
                             a_service "Other" "ORSXG5A=" "TOTP" 8]))
      github_keychain (world_of github_file)
    = Ok c' w'
    /\ exists content r o,
         disk w' = Some content
         /\ decodeKey (import_secret (a_service "My Mail" "orsx g5a" "HOTP" 0)) = Some r
         /\ ld_keys (parseKeychain (file github_keychain) content)
              !! getServiceName (a_service "My Mail" "orsx g5a" "HOTP" 0)
            = Some (mkKey r (import_digits (a_service "My Mail" "orsx g5a" "HOTP" 0)) o)
         /\ (o <> 0
             <-> TokenType (OTP (a_service "My Mail" "orsx g5a" "HOTP" 0)) = lit "HOTP").
Proof.
  destruct (import2fas (quiet 0)
              (Some (mkTwoFASExport [a_service "My Mail" "orsx g5a" "HOTP" 0;
                                     a_service "GitHub" "ORSXG5A=" "TOTP" 0;
                                     a_service "Other" "ORSXG5A=" "TOTP" 8]))
              github_keychain (world_of github_file))
    as [c' w'|e w'|s w'|] eqn:Hrun;
    [|vm_compute in Hrun; discriminate..].
  exists c', w'. split; [reflexivity|].
  assert (ascii_secrets (mkTwoFASExport [a_service "My Mail" "orsx g5a" "HOTP" 0;
                                         a_service "GitHub" "ORSXG5A=" "TOTP" 0;
                                         a_service "Other" "ORSXG5A=" "TOTP" 8]))
    as Hascii.
  { unfold ascii_secrets, ascii_only. refine (bool_decide_unpack _ _).
    vm_compute. exact I. }
  apply (import_then_load _ _ _ _ _ _ _ Hascii Hrun).
  - change (filter _ _) with [a_service "My Mail" "orsx g5a" "HOTP" 0;
                              a_service "Other" "ORSXG5A=" "TOTP" 8].
    constructor; [|constructor; [|constructor]].
    + split; [refine (bool_decide_unpack _ _); vm_compute; exact I|].
      split; [discriminate|]. left. reflexivity.
    + split; [refine (bool_decide_unpack _ _); vm_compute; exact I|].
      split; [discriminate|]. right. right. reflexivity.
  - refine (bool_decide_unpack _ _). vm_compute. exact I.
  - change (filter _ _) with [a_service "My Mail" "orsx g5a" "HOTP" 0;
                              a_service "Other" "ORSXG5A=" "TOTP" 8].
    left.
  - vm_compute. reflexivity.
Defined.
